(** * hhd: the plugin reconciliation and control loop of [src/hhd/__main__.py]

    A shallow embedding of the daemon's control loop: the event bus
    ([EmitHolder]), the start-up sequence, one pass of the [while] loop
    (reload, event processing, plugin calls, save, wait) and the [finally]
    block of [main].  Everything the module imports from the rest of the
    package (plugins, the YAML persistence helpers, the HTTP server) is an
    operation of the class [External] over an abstract outside world. *)

From Stdlib Require Import List String Ascii ZArith Bool Arith Lia.
From Stdlib Require Import Sorting.Sorted Sorting.Permutation.
Import ListNotations.
Local Open Scope string_scope.
Local Open Scope list_scope.

Set Implicit Arguments.

(* ------------------------------------------------------------------ *)
(** ** Python dictionaries

    A [dict] keeps its keys in insertion order; assigning to an existing key
    keeps the key's position.  The save loop iterates [profiles.items()] and
    the shutdown iterates [plugins.values()], so the order is part of the
    model. *)

Section Dict.
Context {V : Type}.

Definition dict := list (string * V).

Fixpoint dict_get (k : string) (d : dict) : option V :=
  match d with
  | [] => None
  | (k', v) :: r => if String.eqb k k' then Some v else dict_get k r
  end.

(** [d[k] = v] *)
Fixpoint dict_set (k : string) (v : V) (d : dict) : dict :=
  match d with
  | [] => [(k, v)]
  | (k', v') :: r =>
      if String.eqb k k' then (k, v) :: r else (k', v') :: dict_set k v r
  end.

(** [k in d] *)
Definition dict_mem (k : string) (d : dict) : bool :=
  match dict_get k d with Some _ => true | None => false end.

Definition dict_keys (d : dict) : list string := map fst d.
Definition dict_values (d : dict) : list V := map snd d.
End Dict.

Arguments dict : clear implicits.

(* ------------------------------------------------------------------ *)
(** ** Strings: the three [str] methods the profile scan uses *)

(** [s.startswith(p)] *)
Fixpoint startswith (p s : string) : bool :=
  match p with
  | EmptyString => true
  | String a p' =>
      match s with
      | EmptyString => false
      | String b s' => Ascii.eqb a b && startswith p' s'
      end
  end.

(** [s.endswith(p)] *)
Fixpoint endswith (p s : string) : bool :=
  String.eqb p s ||
  match s with
  | EmptyString => false
  | String _ s' => endswith p s'
  end.

Fixpoint drop (n : nat) (s : string) : string :=
  match n, s with
  | O, _ => s
  | S n', EmptyString => EmptyString
  | S n', String _ s' => drop n' s'
  end.

(** [s.replace(pat, empty)] for a non-empty [pat]: every occurrence, scanning
    from the left without overlap.  [fuel] bounds the scan and is taken to be
    the length of [s] plus one. *)
Fixpoint remove_all (fuel : nat) (pat s : string) : string :=
  match fuel with
  | O => s
  | S fuel' =>
      match s with
      | EmptyString => EmptyString
      | String c s' =>
          if startswith pat s
          then remove_all fuel' pat (drop (String.length pat) s)
          else String c (remove_all fuel' pat s')
      end
  end.

(** The profile name of a file: its name with every [.yml] removed. *)
Definition profile_name (fn : string) : string :=
  remove_all (S (String.length fn)) ".yml" fn.

(* ------------------------------------------------------------------ *)
(** ** Config trees *)

Inductive Value :=
| VBool (b : bool)
| VInt (z : Z)
| VStr (s : string).

(** A tree of named values. *)
#[warnings="-register-all"]
Inductive Pytree :=
| Leaf (v : Value)
| Tree (kids : list (string * Pytree)).

Module Config.

(** Modelled from the spec: the class [Config] of [hhd.plugins], which
    [__main__.py] imports and whose source is absent.  "A tree of named
    values"; [conf] is the underlying mapping and [Config({})] is
    [empty]. *)
Record t := Make { conf : dict Pytree }.

Definition empty : t := Make [].

(** [bool(c.conf)]: a mapping is true when it has a key. *)
Definition nonempty (c : t) : bool :=
  match conf c with [] => false | _ :: _ => true end.

(** One key of the partial tree merged into the mapping [acc]: [f] merges
    an existing entry with the partial entry. *)
Definition merge_key (f : Pytree -> Pytree -> Pytree)
    (acc : dict Pytree) (kt : string * Pytree) : dict Pytree :=
  dict_set (fst kt)
    (match dict_get (fst kt) acc with
     | Some o => f o (snd kt)
     | None => snd kt
     end) acc.

(** Modelled from the spec: the recursive merge behind [Config.update]
    (absent from the source): "recursively merges a partial tree into an
    existing one, overwriting only the leaves present in the partial
    tree".  A leaf of the partial tree replaces what was there; a subtree
    of the partial tree is merged key by key into the subtree that was
    there, and stands alone where there was a leaf or nothing. *)
Fixpoint update_tree (old new : Pytree) {struct new} : Pytree :=
  match new with
  | Leaf v => Leaf v
  | Tree nk =>
      Tree (fold_left (merge_key update_tree) nk
              (match old with Tree ok => ok | Leaf _ => [] end))
  end.

(** Modelled from the spec: [c.update(partial)], where [partial] is the
    mapping of another Config ([ev["config"].conf]). *)
Definition update (c : t) (partial : dict Pytree) : t :=
  Make (fold_left (merge_key update_tree) partial (conf c)).

(** The subtree at a path of keys. *)
Fixpoint get_in (p : list string) (d : dict Pytree) : option Pytree :=
  match p with
  | [] => None
  | k :: rest =>
      match dict_get k d with
      | None => None
      | Some t =>
          match rest with
          | [] => Some t
          | _ :: _ =>
              match t with
              | Tree kids => get_in rest kids
              | Leaf _ => None
              end
          end
      end
  end.

(** [c[path]]: the sub-Config at a path; [None] stands for the lookup
    raising. *)
Definition getitem (p : list string) (c : t) : option Pytree :=
  get_in p (conf c).

(** The leaf at a path, if the path ends in one. *)
Definition leaf_at (p : list string) (d : dict Pytree) : option Value :=
  match get_in p d with
  | Some (Leaf v) => Some v
  | _ => None
  end.

(** A path is absent from a partial tree when walking it leaves the tree
    at a missing key, having passed through subtrees only: the partial
    tree holds neither a leaf at or above the path nor a subtree at it. *)
Fixpoint absent (p : list string) (d : dict Pytree) : bool :=
  match p with
  | [] => false
  | k :: rest =>
      match dict_get k d with
      | None => true
      | Some (Leaf _) => false
      | Some (Tree kids) => absent rest kids
      end
  end.

(** Modelled from the spec: the coercion [to(T)] of a leaf, "fails with a
    TypeMismatch error if the stored value cannot convert"; [None] is the
    failure. *)
Definition to_bool (t : Pytree) : option bool :=
  match t with Leaf (VBool b) => Some b | _ => None end.

Definition to_int (t : Pytree) : option Z :=
  match t with Leaf (VInt z) => Some z | _ => None end.

End Config.

Definition value_eqb (a b : Value) : bool :=
  match a, b with
  | VBool x, VBool y => Bool.eqb x y
  | VInt x, VInt y => Z.eqb x y
  | VStr x, VStr y => String.eqb x y
  | _, _ => false
  end.

(** Structural comparison of two trees, for [http_cfg != prev_http_cfg]. *)
Fixpoint pytree_eqb (a b : Pytree) {struct a} : bool :=
  match a, b with
  | Leaf x, Leaf y => value_eqb x y
  | Tree ka, Tree kb =>
      (fix go (ka kb : list (string * Pytree)) {struct ka} : bool :=
         match ka, kb with
         | [], [] => true
         | (k, t) :: ra, (k', t') :: rb =>
             String.eqb k k' && pytree_eqb t t' && go ra rb
         | _, _ => false
         end) ka kb
  | _, _ => false
  end.

(* ------------------------------------------------------------------ *)
(** ** Events and the event bus *)

(** The [Event] union, dispatched on [ev["type"]]; [EvOther] is any other
    type string ([case other]). *)
Inductive Event :=
| EvSettings
| EvProfile (name : string) (config : Config.t)
| EvApply (name : string)
| EvState (config : Config.t)
| EvOther (type : string).

(** The argument of [EmitHolder.__call__]: [Event | Sequence[Event]]. *)
Inductive EmitArg :=
| One (event : Event)
| Many (events : list Event).

(** What takes the shared condition and calls [notify_all]: a call of the
    emitter, or a signal handler made by [notifier]. *)
Inductive Notify :=
| NEmit (arg : EmitArg)
| NSignal.

Module EmitHolder.

Record t := Make { _events : list Event }.

(** [__init__] *)
Definition init : t := Make [].

(** [__call__]: under the condition, [extend] or [append], then
    [notify_all]. *)
Definition call (arg : EmitArg) (h : t) : t :=
  match arg with
  | Many events => Make (_events h ++ events)
  | One event => Make (_events h ++ [event])
  end.

(** The effect on the holder of one holder of the condition that notifies:
    the signal handler touches no buffer. *)
Definition notified (n : Notify) (h : t) : t :=
  match n with
  | NEmit arg => call arg h
  | NSignal => h
  end.

(** [ev = self._events; self._events = []; return ev] *)
Definition swap (h : t) : list Event * t := (_events h, Make []).

(** [get_events(timeout)].  The method holds the condition throughout,
    except inside [wait()], which releases it, sleeps until one
    [notify_all] and takes it again.  [wakes] lists, in order, the holders
    of the condition between the start of the wait and the moment the waiter
    has the lock back: the first one is the notification that ends the
    sleep.  With no wake-up the call does not return ([None]). *)
Definition get_events (timeout : Z) (wakes : list Notify) (h : t)
  : option (list Event * t) :=
  if match _events h with [] => true | _ :: _ => false end
     && negb (timeout =? -1)%Z
  then match wakes with
       | [] => None
       | _ :: _ => Some (swap (fold_left (fun h n => notified n h) wakes h))
       end
  else Some (swap h).

(** [has_events] *)
Definition has_events (h : t) : bool :=
  match _events h with [] => false | _ :: _ => true end.

(** [emit.get_events()] as [main] calls it: the default [timeout = -1]
    never waits. *)
Definition drain (h : t) : list Event * t :=
  match get_events (-1) [] h with
  | Some r => r
  | None => ([], h)
  end.

(** The operations of the bus as the lock serialises them. *)
Inductive Op :=
| Emit (arg : EmitArg)
| Drain.

Definition carried (arg : EmitArg) : list Event :=
  match arg with One e => [e] | Many l => l end.

(** A run of the bus: the batches returned by the drains, in order, and the
    holder at the end. *)
Fixpoint run (ops : list Op) (h : t) : list (list Event) * t :=
  match ops with
  | [] => ([], h)
  | Emit arg :: rest => run rest (call arg h)
  | Drain :: rest =>
      let '(batch, h') := drain h in
      let '(batches, h'') := run rest h' in
      (batch :: batches, h'')
  end.

(** The events passed to the emitter over a run, in call order. *)
Fixpoint emitted (ops : list Op) : list Event :=
  match ops with
  | [] => []
  | Emit arg :: rest => carried arg ++ emitted rest
  | Drain :: rest => emitted rest
  end.

End EmitHolder.

(* ------------------------------------------------------------------ *)
(** ** Plugins and the outside world *)

(** What [main] reads of an [HHDPlugin] object. *)
Record HHDPlugin := mkPlugin {
  name : string;
  priority : Z;
  log : option string
}.

(** The result of a call into a plugin: the world after it, the events the
    plugin passed to the emitter during the call, and the value returned
    ([None] when the call raised). *)
Record Ext (W A : Type) := mkExt {
  ext_world : W;
  ext_emitted : list EmitArg;
  ext_ret : option A
}.

(** Everything [__main__.py] imports or calls and does not define.  [W] is
    the outside world: the file system, the private state of the plugins and
    of the HTTP server.  An [option] result is [None] when the call raises,
    except for the loaders, where [None] is the falsy value they return. *)
Class External := {
  W : Type;
  HHDSettings : Type;
  Fd : Type;
  HHDHTTPServer : Type;
  (** [os.environ.get("HHD_CONFIG_DIR", "~/.config/hhd")] *)
  CONFIG_DIR : string;
  (** [{}] *)
  no_settings : HHDSettings;
  (** [{"hhd": load_relative_yaml("settings.yml")}] *)
  hhd_settings : W -> HHDSettings;
  merge_settings : list HHDSettings -> HHDSettings;
  plugin_settings : HHDPlugin -> W -> HHDSettings;
  plugin_open : HHDPlugin -> W -> Ext W unit;
  plugin_prepare : HHDPlugin -> Config.t -> W -> Ext W Config.t;
  plugin_update : HHDPlugin -> Config.t -> W -> Ext W Config.t;
  plugin_close : HHDPlugin -> W -> Ext W unit;
  load_state_yaml : HHDSettings -> W -> option Config.t;
  get_default_state : HHDSettings -> Config.t;
  (** [os.listdir(profile_dir)] *)
  listdir : W -> list string;
  load_profile_yaml : string -> W -> option Config.t;
  (** [validate_config(conf, settings, use_defaults)]: the Config after the
      call, which works in place. *)
  validate_config : Config.t -> HHDSettings -> bool -> option Config.t;
  save_state_yaml : HHDSettings -> Config.t -> W -> W * bool;
  (** [save_profile_yaml(fn, settings, conf)], [fn] relative to the profile
      directory. *)
  save_profile_yaml : string -> HHDSettings -> option Config.t -> W -> W * bool;
  (** [os.open] followed by [fcntl(fd, F_NOTIFY, ...)] *)
  open_watch : string -> W -> W * option Fd;
  (** [os.close(fd)] inside [try ... except Exception: pass] *)
  close_fd : Fd -> W -> W;
  http_new : bool -> Z -> option string -> W -> W * HHDHTTPServer;
  http_update :
    HHDHTTPServer -> HHDSettings -> Config.t -> dict Config.t -> W -> W;
  http_open : HHDHTTPServer -> W -> W * bool;
  http_close : HHDHTTPServer -> W -> W * bool;
  (** [hashlib.sha256(str(random.random()).encode()).hexdigest()], written
      to the token file. *)
  make_token : W -> W * string
}.

(** The exceptions that can leave [main]. *)
Inductive Exn :=
| ValidationFailure
| PluginFailure (p : HHDPlugin)
| LookupFailure
| HTTPFailure
| OSFailure.

Inductive ClearSite := AtReload | AfterSave.

(** The calls and steps of the loop that the properties speak about, logged
    in the order they happen. *)
Inductive Call :=
| COpen (p : HHDPlugin)
| CPrepare (p : HHDPlugin)
| CUpdate (p : HHDPlugin)
| CClose (p : HHDPlugin)
| CDrain (batch : list Event)
| CSaveState (wrote : bool)
| CSaveProfile (fn : string) (c : option Config.t) (wrote : bool)
| CInsertProfile (name : string) (locked : bool)
| CSet
| CClear (site : ClearSite)
| CWait.

(** The signal handlers: [notifier(should_initialize, cond)] for SIGPOLL,
    [notifier(should_exit, cond)] for SIGINT and SIGTERM. *)
Inductive Signal := SIGPOLL | SIGINT | SIGTERM.

(** What the other threads and the signal handlers do during one pass of the
    loop; the model lets it happen at the end of the pass, where the loop
    waits. *)
Record Async := mkAsync {
  signals : list Signal;
  emits : list EmitArg
}.

(* ------------------------------------------------------------------ *)
(** ** The state of [main] *)

Section Daemon.
Context `{External}.

(** The local variables of [main] that the loop reads and writes, the
    outside world, the hold count of the re-entrant [lock] and the log. *)
Record State := mkState {
  world : W;
  emit : EmitHolder.t;
  should_initialize : bool;
  should_exit : bool;
  initial_run : bool;
  settings : HHDSettings;
  conf : Config.t;
  profiles : dict Config.t;
  templates : dict Config.t;
  cfg_fds : list Fd;
  https : option HHDHTTPServer;
  prev_http_cfg : option Pytree;
  lock_depth : nat;
  trace : list Call
}.

Definition set_world v (s : State) : State :=
  mkState v (emit s) (should_initialize s) (should_exit s) (initial_run s)
    (settings s) (conf s) (profiles s) (templates s) (cfg_fds s) (https s)
    (prev_http_cfg s) (lock_depth s) (trace s).

Definition set_emit v (s : State) : State :=
  mkState (world s) v (should_initialize s) (should_exit s) (initial_run s)
    (settings s) (conf s) (profiles s) (templates s) (cfg_fds s) (https s)
    (prev_http_cfg s) (lock_depth s) (trace s).

Definition set_should_initialize v (s : State) : State :=
  mkState (world s) (emit s) v (should_exit s) (initial_run s) (settings s)
    (conf s) (profiles s) (templates s) (cfg_fds s) (https s) (prev_http_cfg
    s) (lock_depth s) (trace s).

Definition set_should_exit v (s : State) : State :=
  mkState (world s) (emit s) (should_initialize s) v (initial_run s)
    (settings s) (conf s) (profiles s) (templates s) (cfg_fds s) (https s)
    (prev_http_cfg s) (lock_depth s) (trace s).

Definition set_initial_run v (s : State) : State :=
  mkState (world s) (emit s) (should_initialize s) (should_exit s) v
    (settings s) (conf s) (profiles s) (templates s) (cfg_fds s) (https s)
    (prev_http_cfg s) (lock_depth s) (trace s).

Definition set_settings v (s : State) : State :=
  mkState (world s) (emit s) (should_initialize s) (should_exit s)
    (initial_run s) v (conf s) (profiles s) (templates s) (cfg_fds s) (https
    s) (prev_http_cfg s) (lock_depth s) (trace s).

Definition set_conf v (s : State) : State :=
  mkState (world s) (emit s) (should_initialize s) (should_exit s)
    (initial_run s) (settings s) v (profiles s) (templates s) (cfg_fds s)
    (https s) (prev_http_cfg s) (lock_depth s) (trace s).

Definition set_profiles v (s : State) : State :=
  mkState (world s) (emit s) (should_initialize s) (should_exit s)
    (initial_run s) (settings s) (conf s) v (templates s) (cfg_fds s) (https
    s) (prev_http_cfg s) (lock_depth s) (trace s).

Definition set_templates v (s : State) : State :=
  mkState (world s) (emit s) (should_initialize s) (should_exit s)
    (initial_run s) (settings s) (conf s) (profiles s) v (cfg_fds s) (https
    s) (prev_http_cfg s) (lock_depth s) (trace s).

Definition set_cfg_fds v (s : State) : State :=
  mkState (world s) (emit s) (should_initialize s) (should_exit s)
    (initial_run s) (settings s) (conf s) (profiles s) (templates s) v
    (https s) (prev_http_cfg s) (lock_depth s) (trace s).

Definition set_https v (s : State) : State :=
  mkState (world s) (emit s) (should_initialize s) (should_exit s)
    (initial_run s) (settings s) (conf s) (profiles s) (templates s)
    (cfg_fds s) v (prev_http_cfg s) (lock_depth s) (trace s).

Definition set_prev_http_cfg v (s : State) : State :=
  mkState (world s) (emit s) (should_initialize s) (should_exit s)
    (initial_run s) (settings s) (conf s) (profiles s) (templates s)
    (cfg_fds s) (https s) v (lock_depth s) (trace s).

Definition set_lock_depth v (s : State) : State :=
  mkState (world s) (emit s) (should_initialize s) (should_exit s)
    (initial_run s) (settings s) (conf s) (profiles s) (templates s)
    (cfg_fds s) (https s) (prev_http_cfg s) v (trace s).

Definition set_trace v (s : State) : State :=
  mkState (world s) (emit s) (should_initialize s) (should_exit s)
    (initial_run s) (settings s) (conf s) (profiles s) (templates s)
    (cfg_fds s) (https s) (prev_http_cfg s) (lock_depth s) v.

(** The locals as they are when the loop is first reached. *)
Definition init_state (w : W) : State :=
  mkState w EmitHolder.init false false true no_settings Config.empty
    [] [] [] None None 0 [].

Definition record (c : Call) (s : State) : State :=
  set_trace (trace s ++ [c]) s.

(** A computation of [main]: it ends normally with a value or raises, and
    leaves a state either way. *)
Inductive Outcome (A : Type) :=
| Done (a : A) (s : State)
| Raised (e : Exn) (s : State).

Arguments Done {A} a s.
Arguments Raised {A} e s.

Definition M (A : Type) := State -> Outcome A.

Definition ret {A} (a : A) : M A := fun s => Done a s.

Definition bind {A B} (m : M A) (f : A -> M B) : M B :=
  fun s =>
    match m s with
    | Done a s' => f a s'
    | Raised e s' => Raised e s'
    end.

Definition raise {A} (e : Exn) : M A := fun s => Raised e s.

Definition modify (f : State -> State) : M unit := fun s => Done tt (f s).

Definition gets {A} (f : State -> A) : M A := fun s => Done (f s) s.

Definition final {A} (o : Outcome A) : State :=
  match o with Done _ s => s | Raised _ s => s end.

(** [for x in l: body(x)] *)
Fixpoint foreach {X} (l : list X) (body : X -> M unit) : M unit :=
  match l with
  | [] => ret tt
  | x :: rest => bind (body x) (fun _ => foreach rest body)
  end.

(** [if b: m] *)
Definition when (b : bool) (m : M unit) : M unit :=
  if b then m else ret tt.

(** [with lock: m]: the lock is released when [m] raises, too. *)
Definition with_lock {A} (m : M A) : M A :=
  fun s =>
    match m (set_lock_depth (S (lock_depth s)) s) with
    | Done a s' => Done a (set_lock_depth (pred (lock_depth s')) s')
    | Raised e s' => Raised e (set_lock_depth (pred (lock_depth s')) s')
    end.

(** The value of an [option], raising [e] on [None]. *)
Definition orelse {A} (e : Exn) (o : option A) : M A :=
  match o with Some a => ret a | None => raise e end.

(** The emitter called from inside a plugin call. *)
Definition buffered (args : list EmitArg) (h : EmitHolder.t) : EmitHolder.t :=
  fold_left (fun h a => EmitHolder.call a h) args h.

(** A call into a plugin: logged when made, its events buffered, its
    failure raised for the plugin. *)
Definition plugin_call {A} (c : Call) (p : HHDPlugin) (f : W -> Ext W A)
  : M A :=
  fun s =>
    let r := f (world s) in
    let s' :=
      set_emit (buffered (ext_emitted r) (emit s))
        (set_world (ext_world r) (record c s)) in
    match ext_ret r with
    | Some a => Done a s'
    | None => Raised (PluginFailure p) s'
    end.

(** A call that only changes the world and returns a value. *)
Definition world_call {A} (f : W -> W * A) : M A :=
  fun s => let '(w, a) := f (world s) in Done a (set_world w s).

Notation "x <- m ;; k" := (bind m (fun x => k))
  (at level 61, m at next level, right associativity).
Notation "m ;; k" := (bind m (fun _ => k))
  (at level 61, right associativity).

(* ------------------------------------------------------------------ *)
(** ** Start-up *)

(** [list.sort(key=lambda x: x.priority)] is a stable sort: each plugin goes
    in front of the first plugin already placed whose priority is not
    smaller. *)
Fixpoint insert_by_priority (p : HHDPlugin) (l : list HHDPlugin)
  : list HHDPlugin :=
  match l with
  | [] => [p]
  | q :: r =>
      if (priority p <=? priority q)%Z then p :: l
      else q :: insert_by_priority p r
  end.

Definition sort_by_priority (l : list HHDPlugin) : list HHDPlugin :=
  fold_right insert_by_priority [] l.

(** [for plugs in plugins.values(): sorted_plugins.extend(plugs)] *)
Definition discovered (plugins : dict (list HHDPlugin)) : list HHDPlugin :=
  List.concat (dict_values plugins).

(** [for p in sorted_plugins: p.open(emit, ctx)] *)
Definition open_plugins (sorted_plugins : list HHDPlugin) : M unit :=
  foreach sorted_plugins (fun p => plugin_call (COpen p) p (plugin_open p)).

(* ------------------------------------------------------------------ *)
(** ** Reloading the configuration *)

(** [settings = merge_settings([*[p.settings() ...], hhd_settings])] *)
Definition reload_settings (sorted_plugins : list HHDPlugin) : M unit :=
  modify (fun s =>
    set_settings
      (merge_settings
         (map (fun p => plugin_settings p (world s)) sorted_plugins
            ++ [hhd_settings (world s)])) s).

(** The block under [# State]. *)
Definition reload_state : M unit :=
  s <- gets (fun s => s) ;;
  match load_state_yaml (settings s) (world s) with
  | None =>
      if Config.nonempty (conf s) then ret tt
      else modify (set_conf (get_default_state (settings s)))
  | Some new_conf => modify (set_conf new_conf)
  end.

(** [profiles[name] = c], logged with whether the lock is held. *)
Definition insert_profile (name : string) (c : Config.t) : M unit :=
  modify (fun s =>
    record (CInsertProfile name (Nat.ltb 0 (lock_depth s)))
      (set_profiles (dict_set name c (profiles s)) s)).

(** The body of [for fn in os.listdir(profile_dir)]. *)
Definition load_profile (fn : string) : M unit :=
  if negb (endswith ".yml" fn) then ret tt
  else
    let name := profile_name fn in
    s <- gets (fun s => s) ;;
    match load_profile_yaml fn (world s) with
    | None => ret tt
    | Some c =>
        c' <- orelse ValidationFailure (validate_config c (settings s) false) ;;
        if startswith "_" name
        then modify (fun s => set_templates (dict_set name c' (templates s)) s)
        else with_lock (insert_profile name c')
    end.

(** The block under [# Profiles]. *)
Definition reload_profiles : M unit :=
  modify (set_profiles []) ;;
  modify (set_templates []) ;;
  fns <- gets (fun s => listdir (world s)) ;;
  foreach fns load_profile.

(** The block under [# Monitor files for changes]. *)
Definition rearm_watches : M unit :=
  fds <- gets cfg_fds ;;
  foreach fds (fun fd => modify (fun s => set_world (close_fd fd (world s)) s)) ;;
  modify (set_cfg_fds []) ;;
  foreach [CONFIG_DIR; (CONFIG_DIR ++ "/profiles")%string] (fun fn =>
    r <- world_call (open_watch fn) ;;
    fd <- orelse OSFailure r ;;
    modify (fun s => set_cfg_fds (cfg_fds s ++ [fd]) s)).

(** [http_cfg[k]] *)
Definition http_item (k : string) (http_cfg : Pytree) : option Pytree :=
  match http_cfg with
  | Tree kids => dict_get k kids
  | Leaf _ => None
  end.

Definition http_bool (k : string) (http_cfg : Pytree) : M bool :=
  orelse LookupFailure
    (match http_item k http_cfg with
     | Some t => Config.to_bool t
     | None => None
     end).

Definition http_int (k : string) (http_cfg : Pytree) : M Z :=
  orelse LookupFailure
    (match http_item k http_cfg with
     | Some t => Config.to_int t
     | None => None
     end).

(** [if https: https.close()] *)
Definition close_http : M unit :=
  old <- gets https ;;
  match old with
  | Some h =>
      ok <- world_call (http_close h) ;;
      if ok : bool then ret tt else raise HTTPFailure
  | None => ret tt
  end.

(** [if https: https.update(settings, conf, profiles, emit)] *)
Definition push_http : M unit :=
  modify (fun s =>
    match https s with
    | Some h =>
        set_world (http_update h (settings s) (conf s) (profiles s) (world s)) s
    | None => s
    end).

(** The block under [# Initialize http server]. *)
Definition reconcile_http : M unit :=
  c <- gets conf ;;
  http_cfg <- orelse LookupFailure (Config.getitem ["hhd"; "http"] c) ;;
  prev <- gets prev_http_cfg ;;
  if match prev with
     | Some p => pytree_eqb http_cfg p
     | None => false
     end
  then ret tt
  else
    modify (set_prev_http_cfg (Some http_cfg)) ;;
    close_http ;;
    enable <- http_bool "enable" http_cfg ;;
    when enable (
      port <- http_int "port" http_cfg ;;
      localhost <- http_bool "localhost" http_cfg ;;
      use_token <- http_bool "token" http_cfg ;;
      token <- (if use_token : bool
                then tok <- world_call make_token ;; ret (Some tok)
                else ret None) ;;
      h <- world_call (http_new localhost port token) ;;
      modify (set_https (Some h)) ;;
      push_http ;;
      ok <- world_call (http_open h) ;;
      if ok : bool then ret tt else raise HTTPFailure).

(** [if should_initialize.is_set() or initial_run: ...] *)
Definition initialize (sorted_plugins : list HHDPlugin) : M unit :=
  s <- gets (fun s => s) ;;
  when (should_initialize s || initial_run s) (
    modify (set_initial_run false) ;;
    reload_settings sorted_plugins ;;
    reload_state ;;
    reload_profiles ;;
    rearm_watches ;;
    reconcile_http ;;
    modify (fun s => record (CClear AtReload) (set_should_initialize false s))).

(* ------------------------------------------------------------------ *)
(** ** One pass of the loop *)

(** [validate_config(profiles[name], settings, use_defaults=False)] *)
Definition validate_profile (name : string) : M unit :=
  s <- gets (fun s => s) ;;
  match dict_get name (profiles s) with
  | Some p =>
      p' <- orelse ValidationFailure (validate_config p (settings s) false) ;;
      modify (fun s => set_profiles (dict_set name p' (profiles s)) s)
  | None => raise LookupFailure
  end.

(** One arm of [match ev["type"]]; the value is [settings_changed]. *)
Definition process_event (ev : Event) (settings_changed : bool) : M bool :=
  match ev with
  | EvSettings => ret true
  | EvProfile name config =>
      ps <- gets profiles ;;
      match dict_get name ps with
      | Some old =>
          modify (fun s =>
            set_profiles
              (dict_set name (Config.update old (Config.conf config))
                 (profiles s)) s)
      | None => with_lock (insert_profile name config)
      end ;;
      validate_profile name ;;
      ret settings_changed
  | EvApply name =>
      ps <- gets profiles ;;
      match dict_get name ps with
      | Some prof =>
          modify (fun s =>
            set_conf (Config.update (conf s) (Config.conf prof)) s)
      | None => ret tt
      end ;;
      ret settings_changed
  | EvState config =>
      modify (fun s =>
        set_conf (Config.update (conf s) (Config.conf config)) s) ;;
      ret settings_changed
  | EvOther _ => ret settings_changed
  end.

Fixpoint process_batch (batch : list Event) (settings_changed : bool)
  : M bool :=
  match batch with
  | [] => ret settings_changed
  | ev :: rest =>
      changed <- process_event ev settings_changed ;;
      process_batch rest changed
  end.

(** [for ev in emit.get_events(): ...], from [settings_changed = False]. *)
Definition process_events : M bool :=
  batch <- (fun s =>
              let '(b, h) := EmitHolder.drain (emit s) in
              Done b (record (CDrain b) (set_emit h s))) ;;
  process_batch batch false.

(** [validate_config(conf, settings)] *)
Definition validate_live : M unit :=
  s <- gets (fun s => s) ;;
  c <- orelse ValidationFailure (validate_config (conf s) (settings s) true) ;;
  modify (set_conf c).

Definition prepare (p : HHDPlugin) : M unit :=
  c <- gets conf ;;
  c' <- plugin_call (CPrepare p) p (plugin_prepare p c) ;;
  modify (set_conf c').

Definition update (p : HHDPlugin) : M unit :=
  c <- gets conf ;;
  c' <- plugin_call (CUpdate p) p (plugin_update p c) ;;
  modify (set_conf c').

(** The block under [# Plugin event loop]. *)
Definition run_plugins (sorted_plugins : list HHDPlugin) : M unit :=
  foreach (rev sorted_plugins) prepare ;;
  foreach sorted_plugins update.

(** [save_state_yaml(state_fn, settings, conf)] and, in [save_profile],
    [save_profile_yaml(fn, settings, prof)], each logged with what it
    returned.  Both are taken to return; [fix_perms], which follows a write
    and assigns no variable of [main], has no part in the model. *)
Definition save_state : M bool :=
  fun s =>
    let '(w, wrote) := save_state_yaml (settings s) (conf s) (world s) in
    Done wrote (record (CSaveState wrote) (set_world w s)).

Definition save_profile (fn : string) (c : option Config.t) : M bool :=
  fun s =>
    let '(w, wrote) := save_profile_yaml fn (settings s) c (world s) in
    Done wrote (record (CSaveProfile fn c wrote) (set_world w s)).

(** [for name, prof in profiles.items(): ...] *)
Fixpoint save_profiles (ps : dict Config.t) (saved : bool) : M bool :=
  match ps with
  | [] => ret saved
  | (name, prof) :: rest =>
      wrote <- save_profile (name ++ ".yml")%string (Some prof) ;;
      save_profiles rest (if wrote : bool then true else saved)
  end.

(** The block under [# Save loop]. *)
Definition save_loop : M unit :=
  has_new <- gets should_initialize ;;
  wrote <- save_state ;;
  ps <- gets profiles ;;
  saved <- save_profiles ps (if wrote : bool then true else false) ;;
  template <- gets (fun s => dict_get "_template" (templates s)) ;;
  wrote' <- save_profile "_template.yml" template ;;
  let saved := if wrote' : bool then true else saved in
  when (negb has_new && saved) (
    modify (fun s => record (CClear AfterSave) (set_should_initialize false s))).

(** The handler [_inner] that [notifier] returns, for each signal. *)
Definition notifier (sig : Signal) (s : State) : State :=
  match sig with
  | SIGPOLL => set_should_initialize true s
  | SIGINT | SIGTERM => set_should_exit true s
  end.

Definition arrive (a : Async) (s : State) : State :=
  set_emit (buffered (emits a) (emit s))
    (fold_left (fun s sig => notifier sig s) (signals a) s).

(** The block under [# Wait for events]. *)
Definition wait_for_events (settings_changed : bool) (a : Async) : M unit :=
  with_lock (
    s <- gets (fun s => s) ;;
    when (negb (should_exit s) && negb settings_changed
          && negb (should_initialize s)
          && negb (EmitHolder.has_events (emit s)))
      (modify (record CWait))) ;;
  modify (arrive a).

(** The body of [while not should_exit.is_set()]. *)
Definition generation (sorted_plugins : list HHDPlugin) (a : Async)
  : M unit :=
  initialize sorted_plugins ;;
  settings_changed <- process_events ;;
  validate_live ;;
  when settings_changed (
    modify (fun s => record CSet (set_should_initialize true s))) ;;
  when (negb settings_changed) (run_plugins sorted_plugins) ;;
  save_loop ;;
  push_http ;;
  wait_for_events settings_changed a.

(** The loop over the passes for which [inputs] says what arrives; the
    value is [true] when the loop was left with [should_exit] set and
    [false] when the daemon is still running after the last input. *)
Fixpoint loop (sorted_plugins : list HHDPlugin) (inputs : list Async)
  : M bool :=
  fun s =>
    if should_exit s then Done true s
    else
      match inputs with
      | [] => Done false s
      | a :: rest =>
          (generation sorted_plugins a ;; loop sorted_plugins rest) s
      end.

(* ------------------------------------------------------------------ *)
(** ** Shutdown *)

(** The [finally] block. *)
Definition finally_block (plugins : dict (list HHDPlugin)) : M unit :=
  fds <- gets cfg_fds ;;
  foreach fds (fun fd => modify (fun s => set_world (close_fd fd (world s)) s)) ;;
  close_http ;;
  foreach (dict_values plugins) (fun plugs =>
    foreach plugs (fun p => plugin_call (CClose p) p (plugin_close p))).

(** How a run of [main] stands: it returned, an exception left it, or the
    loop is still running when the inputs end. *)
Inductive Exit :=
| Returned
| Escaped (e : Exn)
| Running.

(** The [try] block from the sort on: [true] when it was left by a
    [return] or by the end of the loop, [false] when the loop is still
    running. *)
Definition try_block (sorted_plugins : list HHDPlugin) (inputs : list Async)
  : M bool :=
  match sorted_plugins with
  | [] => ret true
  | _ :: _ => open_plugins sorted_plugins ;; loop sorted_plugins inputs
  end.

(** [main], from the end of autodetection: [ctx] says whether
    [get_context] found the user, [plugins] is the mapping from provider to
    detected plugins. *)
Definition main (ctx : bool) (plugins : dict (list HHDPlugin))
    (inputs : list Async) (w : W) : Exit * State :=
  let s0 := init_state w in
  if negb ctx then (Returned, s0)
  else
    let sorted_plugins := sort_by_priority (discovered plugins) in
    match try_block sorted_plugins inputs s0 with
    | Done false s => (Running, s)
    | Done true s =>
        match finally_block plugins s with
        | Done _ s' => (Returned, s')
        | Raised e s' => (Escaped e, s')
        end
    | Raised e s =>
        match finally_block plugins s with
        | Done _ s' => (Escaped e, s')
        | Raised e' s' => (Escaped e', s')
        end
    end.

End Daemon.

Arguments Done {H A} a s.
Arguments Raised {H A} e s.

(* ------------------------------------------------------------------ *)
(** ** Reading the log *)

Definition is_settings (ev : Event) : bool :=
  match ev with EvSettings => true | _ => false end.

(** The [prepare] and [update] calls of a log. *)
Definition is_run (c : Call) : bool :=
  match c with CPrepare _ | CUpdate _ => true | _ => false end.

Definition runs (tr : list Call) : list Call := filter is_run tr.

Definition prepared (tr : list Call) : list HHDPlugin :=
  flat_map (fun c => match c with CPrepare p => [p] | _ => [] end) tr.

Definition updated (tr : list Call) : list HHDPlugin :=
  flat_map (fun c => match c with CUpdate p => [p] | _ => [] end) tr.

Definition opened (tr : list Call) : list HHDPlugin :=
  flat_map (fun c => match c with COpen p => [p] | _ => [] end) tr.

Definition closed (tr : list Call) : list HHDPlugin :=
  flat_map (fun c => match c with CClose p => [p] | _ => [] end) tr.

Definition drained (tr : list Call) : list (list Event) :=
  flat_map (fun c => match c with CDrain b => [b] | _ => [] end) tr.

(** The files handed to [save_profile_yaml], with the Config handed over. *)
Definition saved_profiles (tr : list Call) : list (string * option Config.t) :=
  flat_map (fun c => match c with
                     | CSaveProfile fn c _ => [(fn, c)]
                     | _ => []
                     end) tr.

(** Whether a save of the log wrote a file. *)
Definition wrote_any (tr : list Call) : bool :=
  existsb (fun c => match c with
                    | CSaveState w => w
                    | CSaveProfile _ _ w => w
                    | _ => false
                    end) tr.

(** How often the flag was cleared at a site. *)
Definition clears (site : ClearSite) (tr : list Call) : nat :=
  List.length (filter (fun c => match c, site with
                           | CClear AtReload, AtReload => true
                           | CClear AfterSave, AfterSave => true
                           | _, _ => false
                           end) tr).

Definition is_save (c : Call) : bool :=
  match c with CSaveState _ | CSaveProfile _ _ _ => true | _ => false end.

(** The file a profile is saved to, with what is saved. *)
Definition profile_file (np : string * Config.t) : string * option Config.t :=
  ((fst np ++ ".yml")%string, Some (snd np)).

(** The plugins of one priority, in the order of the list. *)
Definition with_priority (k : Z) (l : list HHDPlugin) : list HHDPlugin :=
  filter (fun p => (priority p =? k)%Z) l.

(** The plugin calls of a pass that runs the plugins. *)
Definition plugin_pass (sorted_plugins : list HHDPlugin) : list Call :=
  map CPrepare (rev sorted_plugins) ++ map CUpdate sorted_plugins.

Definition ascending (l : list HHDPlugin) : Prop :=
  Sorted (fun p q => (priority p <= priority q)%Z) l.

Definition descending (l : list HHDPlugin) : Prop :=
  Sorted (fun p q => (priority q <= priority p)%Z) l.

(** A Python mapping holds each key once, at every level of the tree. *)
Fixpoint unique_keys {V} (d : dict V) : bool :=
  match d with
  | [] => true
  | (k, _) :: r => negb (dict_mem k r) && unique_keys r
  end.

Fixpoint wf_tree (t : Pytree) : bool :=
  match t with
  | Leaf _ => true
  | Tree kids => unique_keys kids && forallb (fun kt => wf_tree (snd kt)) kids
  end.

Definition wf_dict (d : dict Pytree) : bool := wf_tree (Tree d).

(** The events a notification puts in the buffer. *)
Definition brought (n : Notify) : list Event :=
  match n with
  | NEmit arg => EmitHolder.carried arg
  | NSignal => []
  end.

(* ------------------------------------------------------------------ *)
(** ** Notions for the properties *)

(** The parts of the run, by what they log. *)
Inductive Phase :=
| Opening
| Reloading
| Processing
| Flagging
| RunningPlugins
| Saving
| Waiting
| Closing.

Definition may_log (ph : Phase) (c : Call) : bool :=
  match ph, c with
  | Opening, COpen _ => true
  | Reloading, (CInsertProfile _ _ | CClear AtReload) => true
  | Processing, CInsertProfile _ _ => true
  | Flagging, CSet => true
  | RunningPlugins, (CPrepare _ | CUpdate _) => true
  | Saving, (CSaveState _ | CSaveProfile _ _ _ | CClear AfterSave) => true
  | Waiting, CWait => true
  | Closing, CClose _ => true
  | _, _ => false
  end.

(** What a pass that skips the plugins may log: neither a plugin call nor
    the clearing of the flag after the save. *)
Definition quiet_pass (c : Call) : bool :=
  match c with
  | COpen _ | CPrepare _ | CUpdate _ | CClose _ | CClear AfterSave => false
  | _ => true
  end.

(** What any pass may log: no [open] and no [close]. *)
Definition in_pass (c : Call) : bool :=
  match c with
  | COpen _ | CClose _ => false
  | _ => true
  end.

Definition drain_or_insert (c : Call) : bool :=
  match c with
  | CDrain _ | CInsertProfile _ _ => true
  | _ => false
  end.

Section Notions.
Context `{External}.

(** [P] is kept by [m], however [m] ends. *)
Definition stays {A} (P : State -> Prop) (m : M A) : Prop :=
  forall s, P s -> P (final (m s)).

(** The log of [s] is [t0] followed by calls that [al] allows. *)
Definition logged (al : Call -> bool) (t0 : list Call) (s : State) : Prop :=
  exists delta, trace s = t0 ++ delta /\ forallb al delta = true.

(** What the spec says of the lenient mode of [validate_config]: it leaves
    the Config as it is, or raises. *)
Definition lenient_validation : Prop :=
  forall c st c', validate_config c st false = Some c' -> c' = c.

(** No profile is stored under a template's name. *)
Definition no_template_key (s : State) : Prop :=
  forall name, startswith "_" name = true -> dict_get name (profiles s) = None.

(** What is logged before the shutdown: calls that are no [close], and
    [open] for the sorted plugins only. *)
Definition before_shutdown (sorted_plugins : list HHDPlugin) (s : State)
  : Prop :=
  closed (trace s) = []
  /\ forall p, In p (opened (trace s)) -> In p sorted_plugins.

End Notions.

(* ------------------------------------------------------------------ *)
(** ** A small outside world

    An in-memory configuration directory and plugins told apart by name,
    used to run the model on concrete inputs. *)

Module Sample.

Definition config_eqb (a b : Config.t) : bool :=
  pytree_eqb (Tree (Config.conf a)) (Tree (Config.conf b)).

Definition content_eqb (a b : option Config.t) : bool :=
  match a, b with
  | Some x, Some y => config_eqb x y
  | None, None => true
  | _, _ => false
  end.

(** The state file and the profile directory; a file holds a Config or is
    empty. *)
Record Disk := mkDisk {
  state_yml : option Config.t;
  profile_dir : dict (option Config.t)
}.

(** The defaults: the HTTP surface switched off. *)
Definition default_state : Config.t :=
  Config.Make
    [("hhd", Tree [("http", Tree [("enable", Leaf (VBool false));
                                  ("port", Leaf (VInt 5335));
                                  ("localhost", Leaf (VBool true));
                                  ("token", Leaf (VBool false))])])].

(** No plugin call emits or changes the world; [close] of the plugin named
    [bad] raises. *)
Definition quiet {A} (w : Disk) (r : option A) : Ext Disk A := mkExt w [] r.

Definition close (p : HHDPlugin) (w : Disk) : Ext Disk unit :=
  quiet w (if String.eqb (name p) "bad" then None else Some tt).

(** Writes happen only when the content differs. *)
Definition write_state (c : Config.t) (w : Disk) : Disk * bool :=
  if content_eqb (state_yml w) (Some c) then (w, false)
  else (mkDisk (Some c) (profile_dir w), true).

Definition write_profile (fn : string) (c : option Config.t) (w : Disk)
  : Disk * bool :=
  match dict_get fn (profile_dir w) with
  | Some old =>
      if content_eqb old c then (w, false)
      else (mkDisk (state_yml w) (dict_set fn c (profile_dir w)), true)
  | None => (mkDisk (state_yml w) (dict_set fn c (profile_dir w)), true)
  end.

#[local] Instance outside : External := {|
  W := Disk;
  HHDSettings := unit;
  Fd := nat;
  HHDHTTPServer := unit;
  CONFIG_DIR := "~/.config/hhd";
  no_settings := tt;
  hhd_settings := fun _ => tt;
  merge_settings := fun _ => tt;
  plugin_settings := fun _ _ => tt;
  plugin_open := fun _ w => quiet w (Some tt);
  plugin_prepare := fun _ c w => quiet w (Some c);
  plugin_update := fun _ c w => quiet w (Some c);
  plugin_close := close;
  load_state_yaml := fun _ w => state_yml w;
  get_default_state := fun _ => default_state;
  listdir := fun w => dict_keys (profile_dir w);
  load_profile_yaml := fun fn w =>
    match dict_get fn (profile_dir w) with
    | Some c => c
    | None => None
    end;
  validate_config := fun c _ _ => Some c;
  save_state_yaml := fun _ c w => write_state c w;
  save_profile_yaml := fun fn _ c w => write_profile fn c w;
  open_watch := fun _ w => (w, Some 0);
  close_fd := fun _ w => w;
  http_new := fun _ _ _ w => (w, tt);
  http_update := fun _ _ _ _ w => w;
  http_open := fun _ w => (w, true);
  http_close := fun _ w => (w, true);
  make_token := fun w => (w, "token")
|}.

Definition empty_disk : Disk := mkDisk None [].

Definition p5 : HHDPlugin := mkPlugin "five" 5 None.
Definition p10 : HHDPlugin := mkPlugin "ten" 10 None.
Definition p20 : HHDPlugin := mkPlugin "twenty" 20 (Some "late").
Definition first : HHDPlugin := mkPlugin "first" 5 None.
Definition second : HHDPlugin := mkPlugin "second" 5 None.
Definition bad : HHDPlugin := mkPlugin "bad" 1 None.
Definition good : HHDPlugin := mkPlugin "good" 2 None.

Definition idle : Async := mkAsync [] [].
Definition terminate : Async := mkAsync [SIGTERM] [].

(** Two Configs with disjoint leaves. *)
Definition racer1 : Config.t :=
  Config.Make [("gyro", Tree [("enabled", Leaf (VBool true))])].
Definition racer2 : Config.t :=
  Config.Make [("gyro", Tree [("scale", Leaf (VInt 3))]);
               ("led", Leaf (VStr "red"))].

(** A state with the reload done and one profile. *)
Definition with_racer : State :=
  set_profiles [("racer", racer1)]
    (set_conf default_state (set_initial_run false (init_state empty_disk))).

(** A profile directory with a template that is not the reserved one. *)
Definition disk_with_template : Disk :=
  mkDisk None [("_foo.yml", Some racer1); ("racer.yml", Some racer2)].

(** A plugin that changes its settings inside [prepare]: it passes a
    [Settings] event to the emitter there and returns.  The world is the
    one above in everything else. *)
Definition schema : HHDPlugin := mkPlugin "schema" 3 None.

Definition prepare_emitting (p : HHDPlugin) (c : Config.t) (w : Disk)
  : Ext Disk Config.t :=
  mkExt w (if String.eqb (name p) "schema" then [One EvSettings] else [])
    (Some c).

#[local] Instance invalidating : External := {|
  W := Disk;
  HHDSettings := unit;
  Fd := nat;
  HHDHTTPServer := unit;
  CONFIG_DIR := "~/.config/hhd";
  no_settings := tt;
  hhd_settings := fun _ => tt;
  merge_settings := fun _ => tt;
  plugin_settings := fun _ _ => tt;
  plugin_open := fun _ w => quiet w (Some tt);
  plugin_prepare := prepare_emitting;
  plugin_update := fun _ c w => quiet w (Some c);
  plugin_close := close;
  load_state_yaml := fun _ w => state_yml w;
  get_default_state := fun _ => default_state;
  listdir := fun w => dict_keys (profile_dir w);
  load_profile_yaml := fun fn w =>
    match dict_get fn (profile_dir w) with
    | Some c => c
    | None => None
    end;
  validate_config := fun c _ _ => Some c;
  save_state_yaml := fun _ c w => write_state c w;
  save_profile_yaml := fun fn _ c w => write_profile fn c w;
  open_watch := fun _ w => (w, Some 0);
  close_fd := fun _ w => w;
  http_new := fun _ _ _ w => (w, tt);
  http_update := fun _ _ _ _ w => w;
  http_open := fun _ w => (w, true);
  http_close := fun _ w => (w, true);
  make_token := fun w => (w, "token")
|}.

(** Plugins whose calls raise, told by name: [open] of [locked], [prepare]
    of [broken] and [update] of [stale] raise; no call emits.  The world is
    the first one in everything else. *)
Definition locked : HHDPlugin := mkPlugin "locked" 4 None.
Definition broken : HHDPlugin := mkPlugin "broken" 6 None.
Definition stale : HHDPlugin := mkPlugin "stale" 7 None.

Definition unless {A} (bad : string) (p : HHDPlugin) (a : A) (w : Disk)
  : Ext Disk A :=
  quiet w (if String.eqb (name p) bad then None else Some a).

#[local] Instance failing : External := {|
  W := Disk;
  HHDSettings := unit;
  Fd := nat;
  HHDHTTPServer := unit;
  CONFIG_DIR := "~/.config/hhd";
  no_settings := tt;
  hhd_settings := fun _ => tt;
  merge_settings := fun _ => tt;
  plugin_settings := fun _ _ => tt;
  plugin_open := fun p w => unless "locked" p tt w;
  plugin_prepare := fun p c w => unless "broken" p c w;
  plugin_update := fun p c w => unless "stale" p c w;
  plugin_close := close;
  load_state_yaml := fun _ w => state_yml w;
  get_default_state := fun _ => default_state;
  listdir := fun w => dict_keys (profile_dir w);
  load_profile_yaml := fun fn w =>
    match dict_get fn (profile_dir w) with
    | Some c => c
    | None => None
    end;
  validate_config := fun c _ _ => Some c;
  save_state_yaml := fun _ c w => write_state c w;
  save_profile_yaml := fun fn _ c w => write_profile fn c w;
  open_watch := fun _ w => (w, Some 0);
  close_fd := fun _ w => w;
  http_new := fun _ _ _ w => (w, tt);
  http_update := fun _ _ _ _ w => w;
  http_open := fun _ w => (w, true);
  http_close := fun _ w => (w, true);
  make_token := fun w => (w, "token")
|}.

End Sample.

(* ------------------------------------------------------------------ *)
(** ** Further notions *)

(** [pat in s]: the pattern starts at some position of [s]. *)
Fixpoint occurs (pat s : string) : bool :=
  startswith pat s ||
  match s with
  | EmptyString => false
  | String _ s' => occurs pat s'
  end.

Definition is_term (sig : Signal) : bool :=
  match sig with SIGINT | SIGTERM => true | SIGPOLL => false end.

Definition is_wait (c : Call) : bool :=
  match c with CWait => true | _ => false end.

(** An insert into [profiles] that was made with the lock held; any other
    call passes. *)
Definition locked_insert (c : Call) : bool :=
  match c with CInsertProfile _ locked => locked | _ => true end.

(** What is logged before the save loop is reached. *)
Definition before_save (c : Call) : bool :=
  match c with
  | CSaveState _ | CSaveProfile _ _ _ | CClear AfterSave | CWait => false
  | _ => true
  end.

Section PassBody.
Context `{External}.

(** The body of the loop up to [# Wait for events]; its value is
    [settings_changed]. *)
Definition pass_body (sorted_plugins : list HHDPlugin) : M bool :=
  bind (initialize sorted_plugins) (fun _ =>
  bind process_events (fun settings_changed =>
  bind validate_live (fun _ =>
  bind (when settings_changed
          (modify (fun s => record CSet (set_should_initialize true s))))
    (fun _ =>
  bind (when (negb settings_changed) (run_plugins sorted_plugins)) (fun _ =>
  bind save_loop (fun _ =>
  bind push_http (fun _ => ret settings_changed))))))).

End PassBody.

(** What the reload and the event processing log. *)
Definition early (c : Call) : bool :=
  match c with
  | CInsertProfile _ _ | CClear AtReload | CDrain _ => true
  | _ => false
  end.

(** What the body of the loop logs: anything but [open], [close] and the
    wait. *)
Definition in_body (c : Call) : bool :=
  match c with
  | COpen _ | CClose _ | CWait => false
  | _ => true
  end.

Definition no_profile_event (ev : Event) : bool :=
  match ev with EvProfile _ _ => false | _ => true end.

(** The live Config after an event that is no [Profile] event, given the
    profiles. *)
Definition live_after (profiles : dict Config.t) (c : Config.t) (ev : Event)
  : Config.t :=
  match ev with
  | EvApply name =>
      match dict_get name profiles with
      | Some prof => Config.update c (Config.conf prof)
      | None => c
      end
  | EvState config => Config.update c (Config.conf config)
  | _ => c
  end.

Section FromFiles.
Context `{External}.

(** A profile name that a file of the profile directory gives: the file
    passes the suffix test and loads. *)
Definition loaded_from (fns : list string) (w : W) (name : string) : Prop :=
  exists fn,
    In fn fns /\ endswith ".yml" fn = true /\ profile_name fn = name
    /\ load_profile_yaml fn w <> None.

End FromFiles.

Section AfterReload.
Context `{External}.

(** The pass from the event processing on: what follows
    [if should_initialize.is_set() or initial_run: ...] in the body of the
    loop. *)
Definition after_reload (sorted_plugins : list HHDPlugin) (a : Async)
  : M unit :=
  bind process_events (fun settings_changed =>
  bind validate_live (fun _ =>
  bind (when settings_changed
          (modify (fun s => record CSet (set_should_initialize true s))))
    (fun _ =>
  bind (when (negb settings_changed) (run_plugins sorted_plugins)) (fun _ =>
  bind save_loop (fun _ =>
  bind push_http (fun _ => wait_for_events settings_changed a)))))).

End AfterReload.

Section ByUnderscore.
Context `{External}.

(** The profiles and the templates of [s] come from files of [fns], a name
    with a leading underscore as a template and any other as a profile. *)
Definition split_by_underscore (fns : list string) (w : W) (s : State)
  : Prop :=
  (forall name, dict_mem name (profiles s) = true ->
     startswith "_" name = false /\ loaded_from fns w name)
  /\ (forall name, dict_mem name (templates s) = true ->
        startswith "_" name = true /\ loaded_from fns w name).

End ByUnderscore.

(* ------------------------------------------------------------------ *)
(** ** The device test script [tst.py] *)

Module Tst.

Section Script.
Context {Dev Ev W : Type}.

(** The device classes are imported from [hhd.controller]: [id] is the
    identity of a device object, the methods act on the world outside and
    return [None] when they raise; [select] gives the descriptors that
    are ready. *)
Variable id : Dev -> nat.
Variable dev_open : Dev -> W -> W * option (list Z).
Variable dev_produce : Dev -> list Z -> W -> W * option (list Ev).
Variable dev_consume : Dev -> list Ev -> W -> W * option unit.
Variable dev_close : Dev -> W -> W * option unit.
Variable select : list Z -> W -> W * list Z.

(** The method calls made, in order. *)
Inductive Did :=
| Opened (m : Dev)
| Produced (m : Dev) (r : list Z)
| Consumed (evs : list Ev)
| Closed (m : Dev).

(** The globals [fds], [devs] and [fd_to_dev], the world and the log. *)
Record Script := mkScript {
  world : W;
  fds : list Z;
  devs : list Dev;
  fd_to_dev : list (Z * Dev);
  log : list Did
}.

Definition start (w : W) : Script := mkScript w [] [] [] [].

Definition did (c : Did) (w : W) (s : Script) : Script :=
  mkScript w (fds s) (devs s) (fd_to_dev s) (log s ++ [c]).

(** [fd_to_dev[f]] *)
Fixpoint fd_get (f : Z) (d : list (Z * Dev)) : option Dev :=
  match d with
  | [] => None
  | (f', m) :: r => if (f' =? f)%Z then Some m else fd_get f r
  end.

(** [fd_to_dev[f] = m] *)
Fixpoint fd_set (f : Z) (m : Dev) (d : list (Z * Dev)) : list (Z * Dev) :=
  match d with
  | [] => [(f, m)]
  | (f', m') :: r =>
      if (f' =? f)%Z then (f, m) :: r else (f', m') :: fd_set f m r
  end.

(** [prepare(m)]; [false] when [m.open()] raised. *)
Definition prepare (m : Dev) (s : Script) : Script * bool :=
  let '(w, opened) := dev_open m (world s) in
  let s1 := did (Opened m) w s in
  match opened with
  | None => (s1, false)
  | Some fs =>
      (mkScript w (fds s ++ fs) (devs s ++ [m])
         (fold_left (fun d f => fd_set f m d) fs (fd_to_dev s)) (log s1),
       true)
  end.

(** The calls of [prepare] at the head of the [try] block. *)
Fixpoint prepare_each (ms : list Dev) (s : Script) : Script * bool :=
  match ms with
  | [] => (s, true)
  | m :: rest =>
      let '(s1, ok) := prepare m s in
      if ok then prepare_each rest s1 else (s1, false)
  end.

(** [for f in r: to_run.add(id(fd_to_dev[f]))]; [None] is the [KeyError]
    of the lookup. *)
Fixpoint to_run (r : list Z) (d : list (Z * Dev)) (acc : list nat)
  : option (list nat) :=
  match r with
  | [] => Some acc
  | f :: rest =>
      match fd_get f d with
      | Some m => to_run rest d (id m :: acc)
      | None => None
      end
  end.

(** [for d in devs: if id(d) in to_run: evs.extend(d.produce(r))] *)
Fixpoint produce_each (ds : list Dev) (ids : list nat) (r : list Z)
    (evs : list Ev) (s : Script) : Script * option (list Ev) :=
  match ds with
  | [] => (s, Some evs)
  | d :: rest =>
      if existsb (Nat.eqb (id d)) ids then
        let '(w, out) := dev_produce d r (world s) in
        let s1 := did (Produced d r) w s in
        match out with
        | Some new => produce_each rest ids r (evs ++ new) s1
        | None => (s1, None)
        end
      else produce_each rest ids r evs s
  end.

(** The body of [while True], the timing apart; [false] when it raised. *)
Definition iteration (p : Dev) (s : Script) : Script * bool :=
  let '(w, r) := select (fds s) (world s) in
  let s0 := mkScript w (fds s) (devs s) (fd_to_dev s) (log s) in
  match to_run r (fd_to_dev s0) [] with
  | None => (s0, false)
  | Some ids =>
      match produce_each (devs s0) ids r [] s0 with
      | (s1, None) => (s1, false)
      | (s1, Some evs) =>
          let '(w', done) := dev_consume p evs (world s1) in
          (did (Consumed evs) w' s1,
           match done with Some _ => true | None => false end)
      end
  end.

(** [n] turns of the loop; [true] when it is still running after them. *)
Fixpoint iterate (n : nat) (p : Dev) (s : Script) : Script * bool :=
  match n with
  | O => (s, true)
  | S n' =>
      let '(s1, ok) := iteration p s in
      if ok then iterate n' p s1 else (s1, false)
  end.

(** [for d in devs: d.close(True)] *)
Fixpoint close_each (ds : list Dev) (s : Script) : Script * bool :=
  match ds with
  | [] => (s, true)
  | d :: rest =>
      let '(w, done) := dev_close d (world s) in
      let s1 := did (Closed d) w s in
      match done with
      | Some _ => close_each rest s1
      | None => (s1, false)
      end
  end.

(** The script from [try] on, with [n] turns of the loop: [true] when the
    loop is still running, [false] when an exception went through the
    [finally] block. *)
Definition run (a b c d p : Dev) (n : nat) (w : W) : Script * bool :=
  let '(s, ok) := prepare_each [a; b; c; d; p] (start w) in
  let '(s1, running) := if ok : bool then iterate n p s else (s, false) in
  if running : bool then (s1, true)
  else (fst (close_each (devs s1) s1), false).

(** The log read: the devices opened and the devices closed. *)
Definition opens (l : list Did) : list Dev :=
  flat_map (fun c => match c with Opened m => [m] | _ => [] end) l.

Definition closes (l : list Did) : list Dev :=
  flat_map (fun c => match c with Closed m => [m] | _ => [] end) l.

Definition produces (l : list Did) : list Dev :=
  flat_map (fun c => match c with Produced m _ => [m] | _ => [] end) l.

(** Every descriptor of [fds] has its device in [fd_to_dev], one of
    [devs]. *)
Definition covered (s : Script) : Prop :=
  forall f, In f (fds s) ->
    exists m, fd_get f (fd_to_dev s) = Some m /\ In m (devs s).

(** [s'] has the devices of [s], and nothing was opened or closed in
    between. *)
Definition same_devices (s s' : Script) : Prop :=
  devs s' = devs s /\ opens (log s') = opens (log s)
  /\ closes (log s') = closes (log s).

(** Whether one of the ready descriptors [r] leads to a device with the
    identity of [d]. *)
Definition ready (s : Script) (r : list Z) (d : Dev) : bool :=
  existsb (fun f => match fd_get f (fd_to_dev s) with
                    | Some m => Nat.eqb (id d) (id m)
                    | None => false
                    end) r.

End Script.

(** A world for examples: a device is a number, opens one descriptor, its
    own number, and nothing raises. *)
Definition sample_open (m : nat) (w : unit) : unit * option (list Z) :=
  (w, Some [Z.of_nat m]).

Definition sample_start : Script (Dev := nat) (Ev := nat) (W := unit) :=
  fst (prepare_each sample_open [1; 2; 3] (start tt)).

(** In the same world every descriptor is always ready, a device produces
    its own number, and [produce] and [close] of device 2 raise. *)
Definition sample_select (fds : list Z) (w : unit) : unit * list Z :=
  (w, fds).

Definition sample_produce (m : nat) (r : list Z) (w : unit)
  : unit * option (list nat) :=
  (w, if Nat.eqb m 2 then None else Some [m]).

Definition sample_consume (m : nat) (evs : list nat) (w : unit)
  : unit * option unit :=
  (w, Some tt).

Definition sample_close (m : nat) (w : unit) : unit * option unit :=
  (w, if Nat.eqb m 2 then None else Some tt).

End Tst.

Section Parts.
Context `{External}.

(** The pass up to the plugin calls: the reload, the events, the validation
    and the flag for a [Settings] event; the value is [settings_changed]. *)
Definition before_plugins (sorted_plugins : list HHDPlugin) : M bool :=
  bind (initialize sorted_plugins) (fun _ =>
  bind process_events (fun settings_changed =>
  bind validate_live (fun _ =>
  bind (when settings_changed
          (modify (fun s => record CSet (set_should_initialize true s))))
    (fun _ => ret settings_changed)))).

(** The pass up to the save loop: the plugin calls with what comes before
    them. *)
Definition before_save_loop (sorted_plugins : list HHDPlugin) : M bool :=
  bind (before_plugins sorted_plugins) (fun settings_changed =>
  bind (when (negb settings_changed) (run_plugins sorted_plugins))
    (fun _ => ret settings_changed)).

End Parts.

(* ================================================================== *)
(** * Properties *)

(* ------------------------------------------------------------------ *)
(** ** Dictionaries *)

Section DictFacts.
Context {V : Type}.
Implicit Types (d : dict V) (k : string) (v : V).

Lemma dict_get_set_same k v d : dict_get k (dict_set k v d) = Some v.
Proof.
  induction d as [|[k' v'] r IH]; simpl.
  - now rewrite String.eqb_refl.
  - destruct (String.eqb k k') eqn:E; simpl.
    + now rewrite String.eqb_refl.
    + now rewrite E.
Qed.

Lemma dict_get_set_other k k' v d :
  k <> k' -> dict_get k (dict_set k' v d) = dict_get k d.
Proof.
  intros Hne. induction d as [|[k0 v0] r IH]; simpl.
  - apply String.eqb_neq in Hne. now rewrite Hne.
  - destruct (String.eqb k' k0) eqn:E; simpl.
    + apply String.eqb_eq in E. subst k0.
      apply String.eqb_neq in Hne. now rewrite Hne.
    + destruct (String.eqb k k0); auto.
Qed.

Lemma dict_mem_set k k' v d :
  dict_mem k (dict_set k' v d) = String.eqb k k' || dict_mem k d.
Proof.
  unfold dict_mem. destruct (String.eqb_spec k k') as [->|Hne]; simpl.
  - now rewrite dict_get_set_same.
  - now rewrite dict_get_set_other.
Qed.

End DictFacts.

(* ------------------------------------------------------------------ *)
(** ** Profile names *)

Lemma profile_name_keeps_underscore fn :
  startswith "_" fn = true -> startswith "_" (profile_name fn) = true.
Proof.
  destruct fn as [|c r]; cbn [startswith]; [discriminate|].
  rewrite andb_true_r. intros E. apply Ascii.eqb_eq in E. subst c.
  reflexivity.
Qed.

(* ------------------------------------------------------------------ *)
(** ** The stable sort *)

Lemma insert_by_priority_perm p l :
  Permutation (insert_by_priority p l) (p :: l).
Proof.
  induction l as [|q r IH]; simpl; [reflexivity|].
  destruct (priority p <=? priority q)%Z; [reflexivity|].
  rewrite IH. apply perm_swap.
Qed.

Lemma sort_by_priority_perm l : Permutation (sort_by_priority l) l.
Proof.
  induction l as [|p r IH]; simpl; [constructor|].
  rewrite insert_by_priority_perm. now constructor.
Qed.

Lemma insert_by_priority_ascending p l :
  ascending l -> ascending (insert_by_priority p l).
Proof.
  unfold ascending. induction l as [|q r IH]; simpl; intros Hs.
  - repeat constructor.
  - destruct (priority p <=? priority q)%Z eqn:E.
    + constructor; [assumption|]. constructor. lia.
    + inversion Hs as [|? ? Hr Hhd]; subst.
      constructor; [now apply IH|].
      destruct r as [|q' r']; simpl.
      * constructor. lia.
      * destruct (priority p <=? priority q')%Z; constructor; try lia.
        now inversion Hhd.
Qed.

Lemma sort_by_priority_ascending l : ascending (sort_by_priority l).
Proof.
  induction l as [|p r IH]; simpl.
  - constructor.
  - now apply insert_by_priority_ascending.
Qed.

Lemma insert_by_priority_stable k p l :
  with_priority k (insert_by_priority p l) = with_priority k (p :: l).
Proof.
  induction l as [|q r IH]; [reflexivity|].
  cbn [insert_by_priority].
  destruct (priority p <=? priority q)%Z eqn:E; [reflexivity|].
  unfold with_priority in *. cbn [filter] in *. rewrite IH.
  destruct (priority p =? k)%Z eqn:Ep; [|reflexivity].
  destruct (priority q =? k)%Z eqn:Eq; [lia|reflexivity].
Qed.

Lemma sort_by_priority_stable k l :
  with_priority k (sort_by_priority l) = with_priority k l.
Proof.
  induction l as [|p r IH]; [reflexivity|].
  cbn [sort_by_priority fold_right]. rewrite insert_by_priority_stable.
  unfold with_priority in *. cbn [filter]. fold (sort_by_priority r).
  now rewrite IH.
Qed.

Lemma strongly_sorted_snoc {A} (R : A -> A -> Prop) l a :
  StronglySorted R l -> Forall (fun x => R x a) l ->
  StronglySorted R (l ++ [a]).
Proof.
  induction 1 as [|x l Hl IH Hx]; intros Hall; simpl.
  - repeat constructor.
  - inversion Hall; subst. constructor; [now apply IH|].
    apply Forall_app. split; [assumption|]. now constructor.
Qed.

Lemma ascending_rev l : ascending l -> descending (rev l).
Proof.
  unfold ascending, descending. intros Hs.
  apply StronglySorted_Sorted.
  apply Sorted_StronglySorted in Hs; [|intros x y z; lia].
  induction Hs as [|x l Hl IH Hx]; simpl; [constructor|].
  apply strongly_sorted_snoc; [assumption|].
  apply Forall_rev. assumption.
Qed.

(* ------------------------------------------------------------------ *)
(** ** The recursive merge *)

Module ConfigFacts.
Import Config.

Lemma merge_key_get f acc k k' t :
  dict_get k (merge_key f acc (k', t)) =
  if String.eqb k k'
  then Some (match dict_get k' acc with Some o => f o t | None => t end)
  else dict_get k acc.
Proof.
  unfold merge_key. cbn [fst snd].
  destruct (String.eqb_spec k k') as [->|Hne].
  - apply dict_get_set_same.
  - now apply dict_get_set_other.
Qed.

Lemma merge_get_missing k partial d :
  dict_get k partial = None -> dict_get k (fold_left (merge_key update_tree) partial d) = dict_get k d.
Proof.
  revert d. induction partial as [|[k0 t0] r IH]; intros d Hk; [reflexivity|].
  cbn [fold_left]. cbn [dict_get] in Hk.
  destruct (String.eqb k k0) eqn:E; [discriminate|].
  rewrite IH by assumption. rewrite merge_key_get. now rewrite E.
Qed.

Lemma merge_get_present k t partial d :
  unique_keys partial = true -> dict_get k partial = Some t ->
  dict_get k (fold_left (merge_key update_tree) partial d) =
  Some (match dict_get k d with Some o => update_tree o t | None => t end).
Proof.
  revert d. induction partial as [|[k0 t0] r IH]; intros d Hu Hk;
    [discriminate|].
  cbn [fold_left]. cbn [dict_get] in Hk. cbn [unique_keys] in Hu.
  apply andb_true_iff in Hu. destruct Hu as [Hfresh Hu].
  destruct (String.eqb_spec k k0) as [->|Hne].
  - injection Hk as ->. unfold dict_mem in Hfresh.
    destruct (dict_get k0 r) eqn:Er; [discriminate|].
    rewrite merge_get_missing by assumption.
    rewrite merge_key_get. now rewrite String.eqb_refl.
  - rewrite IH by assumption. rewrite merge_key_get.
    apply String.eqb_neq in Hne. now rewrite Hne.
Qed.

Lemma dict_get_In {V} k (v : V) d : dict_get k d = Some v -> In (k, v) d.
Proof.
  induction d as [|[k0 v0] r IH]; cbn [dict_get]; [discriminate|].
  destruct (String.eqb_spec k k0) as [->|Hne].
  - intros [= ->]. now left.
  - intros Hk. right. now apply IH.
Qed.

Lemma wf_dict_unique d : wf_dict d = true -> unique_keys d = true.
Proof.
  unfold wf_dict. cbn [wf_tree]. intros Hw.
  now apply andb_true_iff in Hw.
Qed.

Lemma wf_dict_kid k kids d :
  wf_dict d = true -> dict_get k d = Some (Tree kids) -> wf_dict kids = true.
Proof.
  unfold wf_dict at 1. cbn [wf_tree]. intros Hw Hk.
  apply andb_true_iff in Hw. destruct Hw as [_ Hall].
  rewrite forallb_forall in Hall.
  apply (Hall (k, Tree kids)). now apply dict_get_In.
Qed.

Lemma absent_get_in p d : absent p d = true -> get_in p d = None.
Proof.
  revert d. induction p as [|k rest IH]; intros d; cbn [absent get_in];
    [discriminate|].
  destruct (dict_get k d) as [[v|kids]|]; try discriminate; try reflexivity.
  intros Ha. destruct rest; [discriminate|]. now apply IH.
Qed.

(** What the partial tree does not hold stays as it was. *)
Lemma merge_keeps_absent p partial d :
  wf_dict partial = true -> absent p partial = true ->
  get_in p (fold_left (merge_key update_tree) partial d) = get_in p d.
Proof.
  revert partial d.
  induction p as [|k rest IH]; intros partial d Hw Ha; [discriminate|].
  cbn [absent] in Ha. cbn [get_in].
  destruct (dict_get k partial) as [[v|kids]|] eqn:Ek; try discriminate.
  - rewrite (@merge_get_present k _ partial d (@wf_dict_unique partial Hw) Ek).
    destruct rest as [|k' rest']; [discriminate|].
    pose proof (@wf_dict_kid k kids partial Hw Ek) as Hwk.
    destruct (dict_get k d) as [[v|okids]|]; cbn [update_tree].
    + rewrite (IH kids [] Hwk Ha). reflexivity.
    + apply (IH kids okids Hwk Ha).
    + now apply absent_get_in.
  - now rewrite merge_get_missing.
Qed.

(** The leaves of the partial tree are the leaves of the result. *)
Lemma merge_takes_leaves p v partial d :
  wf_dict partial = true -> leaf_at p partial = Some v ->
  leaf_at p (fold_left (merge_key update_tree) partial d) = Some v.
Proof.
  unfold leaf_at. revert partial d.
  induction p as [|k rest IH]; intros partial d Hw Hl; [discriminate|].
  cbn [get_in] in *.
  destruct (dict_get k partial) as [t|] eqn:Ek; [|discriminate].
  rewrite (@merge_get_present k _ partial d (@wf_dict_unique partial Hw) Ek).
  destruct rest as [|k' rest'].
  - destruct t as [v'|kids]; [|discriminate].
    destruct (dict_get k d); exact Hl.
  - destruct t as [v'|kids]; [discriminate|].
    pose proof (@wf_dict_kid k kids partial Hw Ek) as Hwk.
    destruct (dict_get k d) as [[v'|okids]|]; cbn [update_tree].
    + now apply IH.
    + now apply IH.
    + exact Hl.
Qed.

End ConfigFacts.

(* ------------------------------------------------------------------ *)
(** ** The event bus *)

Module BusFacts.
Import EmitHolder.

Lemma drain_swaps h : drain h = (_events h, init).
Proof.
  unfold drain, get_events. rewrite Z.eqb_refl. cbn [negb].
  now rewrite andb_false_r.
Qed.

Lemma call_appends arg h : _events (call arg h) = _events h ++ carried arg.
Proof. destruct arg; reflexivity. Qed.

Lemma notified_all wakes h :
  _events (fold_left (fun h n => notified n h) wakes h)
  = _events h ++ flat_map brought wakes.
Proof.
  revert h. induction wakes as [|n r IH]; intros h; cbn [fold_left flat_map].
  - now rewrite app_nil_r.
  - rewrite IH. destruct n as [arg|]; cbn [notified brought].
    + rewrite call_appends. now rewrite app_assoc.
    + reflexivity.
Qed.

Lemma get_events_cases timeout wakes h :
  get_events timeout wakes h =
  if match _events h with [] => true | _ :: _ => false end
     && negb (timeout =? -1)%Z
  then match wakes with
       | [] => None
       | _ :: _ => Some (flat_map brought wakes, init)
       end
  else Some (_events h, init).
Proof.
  unfold get_events, swap.
  destruct (_events h) as [|e r] eqn:Eh; cbn [andb].
  - destruct (negb (timeout =? -1)%Z); [|reflexivity].
    destruct wakes as [|n w]; [reflexivity|].
    rewrite notified_all, Eh. reflexivity.
  - reflexivity.
Qed.

Lemma run_app ops1 ops2 h :
  run (ops1 ++ ops2) h =
  (fst (run ops1 h) ++ fst (run ops2 (snd (run ops1 h))),
   snd (run ops2 (snd (run ops1 h)))).
Proof.
  revert h. induction ops1 as [|o r IH]; intros h.
  - cbn [app run fst snd]. now destruct (run ops2 h).
  - destruct o as [arg|]; cbn [app run].
    + apply IH.
    + rewrite drain_swaps. rewrite IH.
      destruct (run r init) as [b1 h1]. cbn [fst snd].
      now destruct (run ops2 h1).
Qed.

Lemma run_emits args h :
  run (map Emit args) h = ([], Make (_events h ++ flat_map carried args)).
Proof.
  revert h. induction args as [|a r IH]; intros h; cbn [map run flat_map].
  - rewrite app_nil_r. now destruct h.
  - rewrite IH. rewrite call_appends. now rewrite app_assoc.
Qed.

Lemma run_conserves ops h :
  List.concat (fst (run ops h)) ++ _events (snd (run ops h))
  = _events h ++ emitted ops.
Proof.
  revert h. induction ops as [|o r IH]; intros h.
  - cbn. now rewrite app_nil_r.
  - destruct o as [arg|]; cbn [run emitted].
    + rewrite IH. rewrite call_appends. now rewrite app_assoc.
    + rewrite drain_swaps. specialize (IH init).
      destruct (run r init) as [bs h']. cbn [fst snd List.concat] in *.
      rewrite <- app_assoc. now rewrite IH.
Qed.

Lemma flat_map_nil {A B} (f : A -> list B) l :
  flat_map f l = [] <-> forall x, In x l -> f x = [].
Proof.
  induction l as [|a r IH]; cbn [flat_map].
  - split; [intros _ x []|reflexivity].
  - split.
    + intros Hnil x [<-|Hx]; apply app_eq_nil in Hnil; destruct Hnil as [Ha Hr].
      * exact Ha.
      * now apply IH.
    + intros Hall. rewrite (Hall a (or_introl eq_refl)).
      apply IH. intros x Hx. apply Hall. now right.
Qed.

End BusFacts.

(** C3: every [get_events] returns the buffer as it stands and leaves it
    empty (a call that waited returns what the notifiers buffered, in
    order); over any serialisation of emits and drains, the batches drained
    followed by what is still buffered are the initial buffer followed by
    every emitted event in emission order, so nothing is lost, duplicated or
    reordered; and a drain that follows a drain returns exactly the events
    of the emit calls in between, a sequence passed to one call keeping its
    order. *)
Theorem get_events_fifo :
  (forall timeout wakes h,
     EmitHolder.get_events timeout wakes h =
     if match EmitHolder._events h with [] => true | _ :: _ => false end
        && negb (timeout =? -1)%Z
     then match wakes with
          | [] => None
          | _ :: _ => Some (flat_map brought wakes, EmitHolder.init)
          end
     else Some (EmitHolder._events h, EmitHolder.init))
  /\ (forall ops h,
        List.concat (fst (EmitHolder.run ops h))
          ++ EmitHolder._events (snd (EmitHolder.run ops h))
        = EmitHolder._events h ++ EmitHolder.emitted ops)
  /\ (forall pre args h,
        EmitHolder.run
          (pre ++ EmitHolder.Drain :: map EmitHolder.Emit args
               ++ [EmitHolder.Drain]) h
        = (fst (EmitHolder.run pre h)
             ++ [EmitHolder._events (snd (EmitHolder.run pre h));
                 flat_map EmitHolder.carried args],
           EmitHolder.init)).
Proof.
  split; [|split].
  - apply BusFacts.get_events_cases.
  - apply BusFacts.run_conserves.
  - intros pre args h. rewrite BusFacts.run_app.
    destruct (EmitHolder.run pre h) as [b0 h0]. cbn [fst snd].
    cbn [EmitHolder.run]. rewrite BusFacts.drain_swaps.
    rewrite BusFacts.run_app, BusFacts.run_emits. cbn [fst snd].
    cbn [EmitHolder.run]. rewrite BusFacts.drain_swaps. reflexivity.
Qed.

(** C5, against the claim: a blocking call ([timeout = 0]) on an empty
    buffer that is woken by a signal handler returns the empty sequence. *)
Lemma blocking_get_events_returns_empty :
  (0 <> -1)%Z
  /\ EmitHolder._events EmitHolder.init = []
  /\ EmitHolder.get_events 0 [NSignal] EmitHolder.init
     = Some ([], EmitHolder.init).
Proof. repeat split. discriminate. Qed.

(** C5, as the code has it: a blocking [get_events] on an empty buffer does
    not return before a notification of the shared condition; it then
    returns what the notifiers buffered and leaves the buffer empty.  The
    sequence is empty exactly when no notifier brought an event: signal
    handlers and emits of an empty sequence. *)
Theorem blocking_get_events_waits timeout wakes h :
  timeout <> (-1)%Z -> EmitHolder._events h = [] ->
  (wakes = [] -> EmitHolder.get_events timeout wakes h = None)
  /\ (wakes <> [] ->
      EmitHolder.get_events timeout wakes h
      = Some (flat_map brought wakes, EmitHolder.init))
  /\ (forall batch h',
        EmitHolder.get_events timeout wakes h = Some (batch, h') ->
        wakes <> []
        /\ (batch = [] <-> forall n, In n wakes -> brought n = [])).
Proof.
  intros Ht Hh.
  assert (Hget := BusFacts.get_events_cases timeout wakes h). revert Hget.
  rewrite Hh. apply Z.eqb_neq in Ht. rewrite Ht. cbn [negb andb].
  intros Hget. rewrite Hget. split; [|split].
  - now intros ->.
  - destruct wakes; [congruence|reflexivity].
  - intros batch h'. destruct wakes as [|n w]; [discriminate|].
    intros [= <- <-]. split; [discriminate|].
    apply (@BusFacts.flat_map_nil _ _ brought (n :: w)).
Qed.

Lemma blocking_get_events_waits_witness :
  EmitHolder.get_events 0 [NEmit (One EvSettings)] EmitHolder.init
  = Some ([EvSettings], EmitHolder.init).
Proof.
  apply (proj1 (proj2 (@blocking_get_events_waits 0
                         [NEmit (One EvSettings)] EmitHolder.init
                         ltac:(discriminate) eq_refl))).
  discriminate.
Defined.

(* ------------------------------------------------------------------ *)
(** ** Invariants of computations *)

Section DaemonFacts.
Context `{External}.

Lemma stays_ret {A} P (a : A) : stays P (ret a).
Proof. intros s Hs. exact Hs. Qed.

Lemma stays_raise {A} P e : stays P (@raise _ A e).
Proof. intros s Hs. exact Hs. Qed.

Lemma stays_gets {A} P (f : State -> A) : stays P (gets f).
Proof. intros s Hs. exact Hs. Qed.

Lemma stays_orelse {A} P e (o : option A) : stays P (orelse e o).
Proof. destruct o; intros s Hs; exact Hs. Qed.

Lemma stays_modify P g : (forall s, P s -> P (g s)) -> stays P (modify g).
Proof. intros Hg s Hs. now apply Hg. Qed.

Lemma stays_bind {A B} P (m : M A) (k : A -> M B) :
  stays P m -> (forall a, stays P (k a)) -> stays P (bind m k).
Proof.
  intros Hm Hk s Hs. unfold bind. specialize (Hm s Hs).
  destruct (m s) as [a s'|e s']; cbn [final] in *.
  - now apply Hk.
  - exact Hm.
Qed.

Lemma stays_when P b m : stays P m -> stays P (when b m).
Proof. destruct b; [trivial|]. intros _. apply stays_ret. Qed.

Lemma stays_foreach_in {X} P (l : list X) body :
  (forall x, In x l -> stays P (body x)) -> stays P (foreach l body).
Proof.
  induction l as [|x r IH]; intros Hb; cbn [foreach].
  - apply stays_ret.
  - apply stays_bind.
    + apply Hb. now left.
    + intros _. apply IH. intros y Hy. apply Hb. now right.
Qed.

Lemma stays_foreach {X} P (l : list X) body :
  (forall x, stays P (body x)) -> stays P (foreach l body).
Proof. intros Hb. apply stays_foreach_in. intros x _. apply Hb. Qed.

Lemma stays_with_lock {A} P (m : M A) :
  (forall n s, P s -> P (set_lock_depth n s)) ->
  stays P m -> stays P (with_lock m).
Proof.
  intros Hl Hm s Hs. unfold with_lock.
  specialize (Hm _ (Hl (S (lock_depth s)) s Hs)).
  destruct (m _) as [a s'|e s']; cbn [final] in *; now apply Hl.
Qed.

Lemma stays_world_call {A} P (f : W -> W * A) :
  (forall w s, P s -> P (set_world w s)) -> stays P (world_call f).
Proof.
  intros Hw s Hs. unfold world_call.
  destruct (f (world s)) as [w a]. cbn [final]. now apply Hw.
Qed.

Lemma stays_plugin_call {A} P c p (f : W -> Ext W A) :
  (forall w h s, P s -> P (set_emit h (set_world w (record c s)))) ->
  stays P (plugin_call c p f).
Proof.
  intros Hc s Hs. unfold plugin_call.
  destruct (ext_ret (f (world s))); cbn [final]; now apply Hc.
Qed.

Lemma state_ext (s1 s2 : State) :
  world s1 = world s2 -> emit s1 = emit s2 ->
  should_initialize s1 = should_initialize s2 ->
  should_exit s1 = should_exit s2 -> initial_run s1 = initial_run s2 ->
  settings s1 = settings s2 -> conf s1 = conf s2 ->
  profiles s1 = profiles s2 -> templates s1 = templates s2 ->
  cfg_fds s1 = cfg_fds s2 -> https s1 = https s2 ->
  prev_http_cfg s1 = prev_http_cfg s2 -> lock_depth s1 = lock_depth s2 ->
  trace s1 = trace s2 -> s1 = s2.
Proof.
  destruct s1, s2. cbn. intros. subst. reflexivity.
Qed.

Lemma final_bind {A B} (m : M A) (k : A -> M B) s :
  final (bind m k s) =
  match m s with
  | Done a s' => final (k a s')
  | Raised _ s' => s'
  end.
Proof. unfold bind. now destruct (m s). Qed.

End DaemonFacts.

(** The structure of a computation, taken apart; [leaf] closes what the
    state updates leave. *)
Ltac stays_with leaf :=
  repeat first
    [ solve [leaf]
    | apply stays_ret
    | apply stays_raise
    | apply stays_gets
    | apply stays_orelse
    | apply stays_bind; [|intros ?]
    | apply stays_when
    | apply stays_foreach; intros ?
    | apply stays_with_lock; [solve [leaf]|]
    | apply stays_world_call; solve [leaf]
    | apply stays_plugin_call; solve [leaf]
    | apply stays_modify; solve [leaf]
    | match goal with
      | |- stays _ (match ?x with _ => _ end) => destruct x
      end ].

(* ------------------------------------------------------------------ *)
(** ** What each part of the loop logs *)

Section Logs.
Context `{External}.

Lemma logged_refl al s : logged al (trace s) s.
Proof. exists []. now rewrite app_nil_r. Qed.

Lemma logged_same al t0 s s' :
  trace s' = trace s -> logged al t0 s -> logged al t0 s'.
Proof. intros Ht (d & Hd & Ha). exists d. now rewrite Ht. Qed.

Lemma logged_step al t0 c s s' :
  trace s' = trace s ++ [c] -> al c = true ->
  logged al t0 s -> logged al t0 s'.
Proof.
  intros Ht Hc (d & Hd & Ha). exists (d ++ [c]). split.
  - now rewrite Ht, Hd, app_assoc.
  - rewrite forallb_app, Ha. cbn. now rewrite Hc.
Qed.

Lemma quiet_flat_map {B} (f : Call -> list B) al t0 s :
  (forall c, al c = true -> f c = []) ->
  logged al t0 s -> flat_map f (trace s) = flat_map f t0.
Proof.
  intros Hf (d & Hd & Ha). rewrite Hd, flat_map_app.
  rewrite forallb_forall in Ha.
  rewrite (proj2 (BusFacts.flat_map_nil f d)); [apply app_nil_r|].
  intros c Hc. apply Hf. now apply Ha.
Qed.

Lemma quiet_filter (f : Call -> bool) al t0 s :
  (forall c, al c = true -> f c = false) ->
  logged al t0 s -> filter f (trace s) = filter f t0.
Proof.
  intros Hf (d & Hd & Ha). rewrite Hd, filter_app.
  rewrite forallb_forall in Ha.
  assert (Hnil : filter f d = []); [|now rewrite Hnil, app_nil_r].
  clear Hd. induction d as [|c r IH]; [reflexivity|]. cbn [filter].
  rewrite (Hf c (Ha c (or_introl eq_refl))).
  apply IH. intros x Hx. apply Ha. now right.
Qed.

Lemma logged_weaken (al al' : Call -> bool) t0 s :
  (forall c, al c = true -> al' c = true) ->
  logged al t0 s -> logged al' t0 s.
Proof.
  intros Hal (d & Hd & Ha). exists d. split; [exact Hd|].
  rewrite forallb_forall in *. auto.
Qed.

Lemma logged_trans al t0 s1 s2 :
  logged al t0 s1 -> logged al (trace s1) s2 -> logged al t0 s2.
Proof.
  intros (d1 & Hd1 & Ha1) (d2 & Hd2 & Ha2). exists (d1 ++ d2). split.
  - now rewrite Hd2, Hd1, app_assoc.
  - now rewrite forallb_app, Ha1, Ha2.
Qed.

End Logs.

Ltac logged_leaf :=
  intros;
  first [ eapply logged_same; [|eassumption]; reflexivity
        | eapply logged_step; [| |eassumption]; reflexivity ].

Section Phases.
Context `{External}.

Lemma open_plugins_logs sorted_plugins t0 :
  stays (logged (may_log Opening) t0) (open_plugins sorted_plugins).
Proof. unfold open_plugins. stays_with logged_leaf. Qed.

Lemma load_profile_logs fn t0 : stays (logged (may_log Reloading) t0) (load_profile fn).
Proof. unfold load_profile, insert_profile. stays_with logged_leaf. Qed.

Lemma close_http_logs al t0 : stays (logged al t0) close_http.
Proof. unfold close_http. stays_with logged_leaf. Qed.

Lemma push_http_logs al t0 : stays (logged al t0) push_http.
Proof.
  unfold push_http. apply stays_modify. intros s Hs.
  destruct (https s); [|exact Hs]. revert Hs. logged_leaf.
Qed.

Lemma reconcile_http_logs t0 : stays (logged (may_log Reloading) t0) reconcile_http.
Proof.
  unfold reconcile_http, http_bool, http_int.
  stays_with ltac:(first [logged_leaf | apply close_http_logs
                         | apply push_http_logs]).
Qed.

Lemma initialize_logs sorted_plugins t0 :
  stays (logged (may_log Reloading) t0) (initialize sorted_plugins).
Proof.
  unfold initialize, reload_settings, reload_state, reload_profiles,
    rearm_watches.
  stays_with ltac:(first [logged_leaf | apply load_profile_logs
                         | apply reconcile_http_logs]).
Qed.

End Phases.

(** Running a computation inside a hypothesis: every [match] is decided. *)
Ltac unfold_monad_in Hrun :=
  unfold bind, gets, modify, ret, raise, orelse, when, with_lock in Hrun.

Ltac decide_in Hrun :=
  repeat match type of Hrun with
         | context [match ?x with _ => _ end] =>
             let E := fresh "E" in destruct x eqn:E; try discriminate Hrun
         end.

(** The fields of a state under updates, read without writing the updates
    out. *)
Ltac read_fields :=
  cbn
    [record set_world set_emit set_should_initialize set_should_exit
     set_initial_run set_settings set_conf set_profiles set_templates
     set_cfg_fds set_https set_prev_http_cfg set_lock_depth set_trace
     world emit should_initialize should_exit initial_run settings conf
     profiles templates cfg_fds https prev_http_cfg lock_depth trace].

(** Appended lists, bracketed to the right. *)
Ltac app_norm :=
  repeat (rewrite <- app_assoc || rewrite <- app_comm_cons); cbn [app].

(** Two states are compared field by field. *)
Ltac state_fields := apply state_ext; read_fields; try reflexivity.

Section Pass.
Context `{External}.

Lemma process_event_logs ev changed t0 :
  stays (logged (may_log Processing) t0) (process_event ev changed).
Proof.
  unfold process_event, validate_profile, insert_profile.
  destruct ev; stays_with logged_leaf.
Qed.

Lemma process_batch_logs batch changed t0 :
  stays (logged (may_log Processing) t0) (process_batch batch changed).
Proof.
  revert changed. induction batch as [|ev rest IH]; intros changed;
    cbn [process_batch].
  - apply stays_ret.
  - apply stays_bind; [apply process_event_logs|]. intros c. apply IH.
Qed.

Lemma process_events_unfold s :
  process_events s =
  process_batch (EmitHolder._events (emit s)) false
    (record (CDrain (EmitHolder._events (emit s)))
       (set_emit EmitHolder.init s)).
Proof.
  unfold process_events, bind. now rewrite BusFacts.drain_swaps.
Qed.

(** The batch is logged, then the events are processed. *)
Lemma process_events_logs s :
  logged (may_log Processing) (trace s ++ [CDrain (EmitHolder._events (emit s))])
    (final (process_events s)).
Proof.
  rewrite process_events_unfold. apply process_batch_logs.
  apply logged_refl.
Qed.

Lemma process_event_flag ev changed s changed' s' :
  process_event ev changed s = Done changed' s' ->
  changed' = changed || is_settings ev.
Proof.
  intros Hrun. destruct ev; cbn [process_event is_settings] in *;
    unfold validate_profile in Hrun; unfold_monad_in Hrun;
    decide_in Hrun; injection Hrun as <- _;
    now rewrite ?orb_false_r, ?orb_true_r.
Qed.

Lemma process_batch_flag batch changed s changed' s' :
  process_batch batch changed s = Done changed' s' ->
  changed' = changed || existsb is_settings batch.
Proof.
  revert changed s. induction batch as [|ev rest IH]; intros changed s;
    cbn [process_batch existsb].
  - intros [= <- _]. now rewrite orb_false_r.
  - unfold bind. destruct (process_event ev changed s) as [c s1|e s1] eqn:E;
      [|discriminate].
    intros Hrest. apply IH in Hrest. apply process_event_flag in E.
    subst. now rewrite orb_assoc.
Qed.

Lemma process_events_flag s changed s' :
  process_events s = Done changed s' ->
  changed = existsb is_settings (EmitHolder._events (emit s)).
Proof.
  rewrite process_events_unfold. intros Hrun.
  now apply process_batch_flag in Hrun.
Qed.

Lemma validate_live_logs al t0 : stays (logged al t0) validate_live.
Proof. unfold validate_live. stays_with logged_leaf. Qed.

Lemma prepare_logs t0 p : stays (logged (may_log RunningPlugins) t0) (prepare p).
Proof. unfold prepare. stays_with logged_leaf. Qed.

Lemma update_logs t0 p : stays (logged (may_log RunningPlugins) t0) (update p).
Proof. unfold update. stays_with logged_leaf. Qed.

Lemma run_plugins_logs t0 sorted_plugins :
  stays (logged (may_log RunningPlugins) t0) (run_plugins sorted_plugins).
Proof.
  unfold run_plugins.
  stays_with ltac:(first [apply prepare_logs | apply update_logs]).
Qed.

Lemma plugin_call_done {A} c p (f : W -> Ext W A) s a s' :
  plugin_call c p f s = Done a s' ->
  ext_ret (f (world s)) = Some a
  /\ s' = set_emit (buffered (ext_emitted (f (world s))) (emit s))
            (set_world (ext_world (f (world s))) (record c s)).
Proof.
  unfold plugin_call. destruct (ext_ret (f (world s))); [|discriminate].
  now intros [= <- <-].
Qed.

Lemma foreach_prepare l s s' :
  foreach l prepare s = Done tt s' -> trace s' = trace s ++ map CPrepare l.
Proof.
  revert s. induction l as [|p r IH]; intros s; cbn [foreach map].
  - intros [= <-]. now rewrite app_nil_r.
  - unfold bind at 1. destruct (prepare p s) as [[] s1|e s1] eqn:E;
      [|discriminate].
    intros Hr. apply IH in Hr. rewrite Hr.
    unfold prepare in E. unfold_monad_in E.
    destruct (plugin_call _ _ _ s) as [c s0|e s0] eqn:Ec; [|discriminate].
    apply plugin_call_done in Ec. destruct Ec as [_ ->].
    injection E as <-. cbn. now rewrite <- app_assoc.
Qed.

Lemma foreach_update l s s' :
  foreach l update s = Done tt s' -> trace s' = trace s ++ map CUpdate l.
Proof.
  revert s. induction l as [|p r IH]; intros s; cbn [foreach map].
  - intros [= <-]. now rewrite app_nil_r.
  - unfold bind at 1. destruct (update p s) as [[] s1|e s1] eqn:E;
      [|discriminate].
    intros Hr. apply IH in Hr. rewrite Hr.
    unfold update in E. unfold_monad_in E.
    destruct (plugin_call _ _ _ s) as [c s0|e s0] eqn:Ec; [|discriminate].
    apply plugin_call_done in Ec. destruct Ec as [_ ->].
    injection E as <-. cbn. now rewrite <- app_assoc.
Qed.

Lemma run_plugins_trace sorted_plugins s s' :
  run_plugins sorted_plugins s = Done tt s' ->
  trace s' = trace s ++ plugin_pass sorted_plugins.
Proof.
  unfold run_plugins, bind, plugin_pass.
  destruct (foreach (rev sorted_plugins) prepare s) as [[] s1|e s1] eqn:E;
    [|discriminate].
  intros Hu. apply foreach_update in Hu. apply foreach_prepare in E.
  now rewrite Hu, E, <- app_assoc.
Qed.

Lemma save_profiles_spec ps saved s :
  exists w delta,
    save_profiles ps saved s
    = Done (saved || wrote_any delta)
        (set_world w (set_trace (trace s ++ delta) s))
    /\ saved_profiles delta = map profile_file ps
    /\ forallb is_save delta = true.
Proof.
  revert saved s. induction ps as [|[name prof] r IH]; intros saved s;
    cbn [save_profiles].
  - exists (world s), []. rewrite orb_false_r, app_nil_r.
    now destruct s.
  - unfold bind, save_profile.
    destruct (save_profile_yaml _ _ _ _) as [w1 wrote] eqn:Ew.
    set (s1 := record _ _).
    destruct (IH (if wrote then true else saved) s1) as (w & d & Hrun & Hd & Hs).
    exists w, (CSaveProfile (name ++ ".yml")%string (Some prof) wrote :: d).
    rewrite Hrun. subst s1. split; [|split].
    + f_equal.
      * unfold wrote_any. cbn [existsb]. now destruct wrote, saved.
      * state_fields. now rewrite <- app_assoc.
    + unfold saved_profiles in *. cbn [flat_map app]. now rewrite Hd.
    + exact Hs.
Qed.

(** The save loop: the files saved, and the flag cleared on one
    condition. *)
Lemma save_loop_spec s :
  exists w saves,
    save_loop s
    = Done tt
        (let s1 := set_world w (set_trace (trace s ++ saves) s) in
         if negb (should_initialize s) && wrote_any saves
         then record (CClear AfterSave) (set_should_initialize false s1)
         else s1)
    /\ saved_profiles saves
       = map profile_file (profiles s)
           ++ [("_template.yml", dict_get "_template" (templates s))]
    /\ forallb is_save saves = true.
Proof.
  unfold save_loop, bind, gets, save_state.
  destruct (save_state_yaml _ _ _) as [w0 wrote0].
  set (s0 := record _ _).
  destruct (save_profiles_spec (profiles s0) (if wrote0 then true else false)
              s0) as (w1 & d & Hrun & Hd & Hs).
  rewrite Hrun. unfold save_profile.
  destruct (save_profile_yaml _ _ _ _) as [w2 wrote2].
  exists w2, (CSaveState wrote0 :: d
                ++ [CSaveProfile "_template.yml"
                      (dict_get "_template" (templates s)) wrote2]).
  cbn zeta. split; [|split].
  - subst s0. f_equal.
    replace (if wrote2 then true
             else (if wrote0 then true else false) || wrote_any d)
      with (wrote_any
              (CSaveState wrote0 :: d
                 ++ [CSaveProfile "_template.yml"
                       (dict_get "_template" (templates s)) wrote2])).
    2:{ unfold wrote_any. cbn [existsb]. rewrite existsb_app. cbn [existsb].
        now destruct wrote0, wrote2, (existsb _ d). }
    unfold when, modify, ret.
    destruct (negb (should_initialize s) && _); f_equal; state_fields;
      now app_norm.
  - unfold saved_profiles in *. cbn [flat_map app]. rewrite flat_map_app, Hd.
    reflexivity.
  - cbn [forallb is_save andb]. rewrite forallb_app, Hs. reflexivity.
Qed.

End Pass.

Ltac frame_cases :=
  intros;
  repeat match goal with
         | |- context [match ?x with _ => _ end] => destruct x
         end;
  cbn; assumption.

Section Frames.
Context `{External}.

Lemma bind_done {A B} (m : M A) (k : A -> M B) s b s' :
  bind m k s = Done b s' ->
  exists a s1, m s = Done a s1 /\ k a s1 = Done b s'.
Proof.
  unfold bind. destruct (m s) as [a s1|e s1]; [|discriminate].
  intros Hk. now exists a, s1.
Qed.

Lemma process_batch_stays P batch changed :
  (forall ev c, stays P (process_event ev c)) ->
  stays P (process_batch batch changed).
Proof.
  intros Hev. revert changed.
  induction batch as [|ev rest IH]; intros changed; cbn [process_batch].
  - apply stays_ret.
  - apply stays_bind; [apply Hev|]. intros c. apply IH.
Qed.

Lemma process_events_stays P :
  (forall b h s, P s -> P (record (CDrain b) (set_emit h s))) ->
  (forall ev c, stays P (process_event ev c)) ->
  stays P process_events.
Proof.
  intros Hd Hev s Hs. rewrite process_events_unfold.
  apply process_batch_stays; [exact Hev|]. now apply Hd.
Qed.

Lemma process_events_quiet t0 :
  stays (logged drain_or_insert t0) process_events.
Proof.
  apply process_events_stays.
  - logged_leaf.
  - intros ev c. unfold process_event, validate_profile, insert_profile.
    destruct ev; stays_with logged_leaf.
Qed.

Lemma initialize_keeps_emit sorted_plugins x :
  stays (fun s => emit s = x) (initialize sorted_plugins).
Proof.
  unfold initialize, reload_settings, reload_state, reload_profiles,
    rearm_watches, load_profile, insert_profile, reconcile_http, close_http,
    push_http, http_bool, http_int.
  stays_with frame_cases.
Qed.

Lemma initialize_clears sorted_plugins s s' :
  initialize sorted_plugins s = Done tt s' -> should_initialize s' = false.
Proof.
  unfold initialize. intros Hrun.
  apply bind_done in Hrun. destruct Hrun as (s0 & s1 & [= <- <-] & Hrun).
  unfold when in Hrun.
  destruct (should_initialize s || initial_run s) eqn:E.
  - repeat (apply bind_done in Hrun; destruct Hrun as (? & ? & _ & Hrun)).
    now injection Hrun as <-.
  - injection Hrun as <-. now apply orb_false_iff in E.
Qed.

Lemma process_events_keeps_flag x :
  stays (fun s => should_initialize s = x) process_events.
Proof.
  apply process_events_stays; [frame_cases|].
  intros ev c. unfold process_event, validate_profile, insert_profile.
  destruct ev; stays_with frame_cases.
Qed.

Lemma validate_live_keeps_flag x :
  stays (fun s => should_initialize s = x) validate_live.
Proof. unfold validate_live. stays_with frame_cases. Qed.

Lemma run_plugins_keeps_flag sorted_plugins x :
  stays (fun s => should_initialize s = x) (run_plugins sorted_plugins).
Proof. unfold run_plugins, prepare, update. stays_with frame_cases. Qed.

Lemma arrive_keeps_flag a s :
  should_initialize s = true -> should_initialize (arrive a s) = true.
Proof.
  unfold arrive. cbn [should_initialize set_emit].
  generalize (signals a). intros sigs. revert s.
  induction sigs as [|sig r IH]; intros s Hs; cbn [fold_left]; [exact Hs|].
  apply IH. destruct sig; cbn; auto.
Qed.

Lemma arrive_keeps_trace a s : trace (arrive a s) = trace s.
Proof.
  unfold arrive. cbn [trace set_emit].
  generalize (signals a). intros sigs. revert s.
  induction sigs as [|sig r IH]; intros s; cbn [fold_left]; [reflexivity|].
  rewrite IH. now destruct sig.
Qed.

Lemma wait_for_events_logs changed a t0 :
  stays (logged (may_log Waiting) t0) (wait_for_events changed a).
Proof.
  unfold wait_for_events.
  stays_with ltac:(first [ logged_leaf
                         | intros; eapply logged_same; [|eassumption];
                           apply arrive_keeps_trace ]).
Qed.

Lemma wait_for_events_keeps_flag changed a :
  stays (fun s => should_initialize s = true) (wait_for_events changed a).
Proof.
  unfold wait_for_events.
  stays_with ltac:(first [ frame_cases
                         | intros; now apply arrive_keeps_flag ]).
Qed.

Lemma push_http_done s : exists w, push_http s = Done tt (set_world w s).
Proof.
  unfold push_http, modify. destruct (https s).
  - eauto.
  - exists (world s). now destruct s.
Qed.

End Frames.

Section Generation.
Context `{External}.

Lemma stays_and {A} (P Q : State -> Prop) (m : M A) :
  stays P m -> stays Q m -> stays (fun s => P s /\ Q s) m.
Proof. intros HP HQ s [Hp Hq]. split; [now apply HP|now apply HQ]. Qed.

Lemma stays_logged_weaken {A} (al al' : Call -> bool) (m : M A) :
  (forall t, stays (logged al t) m) ->
  (forall c, al c = true -> al' c = true) ->
  forall t0, stays (logged al' t0) m.
Proof.
  intros Hm Hal t0 s Hs. eapply logged_trans; [exact Hs|].
  eapply logged_weaken; [exact Hal|]. apply Hm, logged_refl.
Qed.

Lemma save_loop_flagged al t0 :
  (forall c, is_save c = true -> al c = true) ->
  stays (fun s => logged al t0 s /\ should_initialize s = true) save_loop.
Proof.
  intros Hal s [Hl Hf].
  destruct (save_loop_spec s) as (w & saves & Hrun & _ & Hs).
  rewrite Hrun, Hf. cbn [negb andb final]. split; [|exact Hf].
  eapply logged_trans; [exact Hl|]. exists saves. split; [reflexivity|].
  rewrite forallb_forall in *. auto.
Qed.

Lemma push_http_flagged al t0 :
  stays (fun s => logged al t0 s /\ should_initialize s = true) push_http.
Proof.
  apply stays_and; [apply push_http_logs|].
  unfold push_http. stays_with frame_cases.
Qed.

Lemma generation_with_settings_cases sorted_plugins a s :
  existsb is_settings (EmitHolder._events (emit s)) = true ->
  match generation sorted_plugins a s with
  | Done _ s' =>
      logged quiet_pass (trace s) s' /\ should_initialize s' = true
  | Raised _ s' => logged quiet_pass (trace s) s'
  end.
Proof.
  intros Hb. unfold generation.
  pose proof (initialize_logs sorted_plugins (logged_refl _ s)) as H1.
  pose proof (@initialize_keeps_emit _ sorted_plugins _ s eq_refl) as He.
  unfold bind at 1.
  destruct (initialize sorted_plugins s) as [[] s1|e s1]; cbn [final] in *.
  2:{ revert H1. apply logged_weaken. now intros []. }
  assert (Hq1 : logged quiet_pass (trace s) s1).
  { revert H1. apply logged_weaken.
    intros [] Hc; try discriminate Hc; auto; now destruct site. }
  clear H1.
  pose proof (process_events_quiet (logged_refl _ s1)) as H2.
  pose proof (@process_events_flag _ s1) as Hflag.
  unfold bind at 1.
  destruct (process_events s1) as [changed s2|e s2]; cbn [final] in *.
  2:{ eapply logged_trans; [exact Hq1|].
      revert H2. apply logged_weaken. now intros []. }
  assert (Hq2 : logged quiet_pass (trace s) s2).
  { eapply logged_trans; [exact Hq1|].
    revert H2. apply logged_weaken. now intros []. }
  clear H2 Hq1.
  rewrite (Hflag _ _ eq_refl), He, Hb. clear Hflag.
  pose proof (@validate_live_logs _ quiet_pass _ s2 Hq2) as H3.
  unfold bind at 1.
  destruct (validate_live s2) as [[] s3|e s3]; cbn [final] in *.
  2:{ exact H3. }
  cbn [when negb]. unfold bind at 1, modify at 1. unfold bind at 1, ret at 1.
  set (s4 := record CSet (set_should_initialize true s3)).
  assert (HP : logged quiet_pass (trace s) s4 /\ should_initialize s4 = true).
  { split; [|reflexivity]. revert H3. subst s4. logged_leaf. }
  set (tail := bind save_loop _).
  assert (Htail : stays (fun s' => logged quiet_pass (trace s) s'
                                   /\ should_initialize s' = true) tail).
  { subst tail. apply stays_bind; [apply save_loop_flagged; now intros []|].
    intros _. apply stays_bind; [apply push_http_flagged|].
    intros _. apply stays_and.
    - apply stays_logged_weaken with (al := may_log Waiting).
      + apply wait_for_events_logs.
      + now intros [].
    - apply wait_for_events_keeps_flag. }
  specialize (Htail s4 HP).
  destruct (tail s4); cbn [final] in Htail; [exact Htail|apply Htail].
Qed.

(** A pass whose batch holds a [Settings] event: it logs no plugin call and
    no clearing after the save, however it ends, and when it ends normally
    the flag is set. *)
Lemma generation_with_settings sorted_plugins a s :
  existsb is_settings (EmitHolder._events (emit s)) = true ->
  logged quiet_pass (trace s) (final (generation sorted_plugins a s))
  /\ (forall s', generation sorted_plugins a s = Done tt s' ->
      should_initialize s' = true).
Proof.
  intros Hb.
  pose proof (generation_with_settings_cases sorted_plugins a s Hb) as Hc.
  destruct (generation sorted_plugins a s) as [[] s1|e s1]; cbn [final].
  - split; [apply Hc|]. intros s' [= <-]. apply Hc.
  - split; [exact Hc|]. intros s' Hs. discriminate Hs.
Qed.

End Generation.

Section PassTrace.
Context `{External}.

Lemma logged_none t0 s : logged (fun _ => false) t0 s -> trace s = t0.
Proof.
  intros (d & Hd & Ha). destruct d; [|discriminate].
  now rewrite Hd, app_nil_r.
Qed.

(** The log of a pass that ends normally, part by part. *)
Lemma generation_trace sorted_plugins a s s' :
  generation sorted_plugins a s = Done tt s' ->
  exists d1 d2 saves d4,
    trace s' =
      trace s ++ d1 ++ CDrain (EmitHolder._events (emit s)) :: d2
        ++ (if existsb is_settings (EmitHolder._events (emit s))
            then [CSet] else plugin_pass sorted_plugins)
        ++ saves
        ++ (if negb (existsb is_settings (EmitHolder._events (emit s)))
               && wrote_any saves
            then [CClear AfterSave] else [])
        ++ d4
    /\ forallb (may_log Reloading) d1 = true
    /\ forallb (may_log Processing) d2 = true
    /\ forallb is_save saves = true
    /\ forallb (may_log Waiting) d4 = true.
Proof.
  unfold generation. intros Hrun.
  apply bind_done in Hrun. destruct Hrun as ([] & s1 & E1 & Hrun).
  pose proof (initialize_logs sorted_plugins (logged_refl _ s)) as H1.
  pose proof (@initialize_keeps_emit _ sorted_plugins _ s eq_refl) as He.
  rewrite E1 in H1, He. cbn [final] in H1, He.
  pose proof (initialize_clears _ _ E1) as F1.
  destruct H1 as (d1 & T1 & A1).
  apply bind_done in Hrun. destruct Hrun as (changed & s2 & E2 & Hrun).
  pose proof (process_events_logs s1) as H2.
  pose proof (@process_events_keeps_flag _ _ s1 F1) as F2.
  rewrite E2 in H2, F2. cbn [final] in H2, F2.
  apply process_events_flag in E2. rewrite He in E2, H2.
  destruct H2 as (d2 & T2 & A2).
  apply bind_done in Hrun. destruct Hrun as ([] & s3 & E3 & Hrun).
  pose proof (@validate_live_logs _ (fun _ => false) _ s2 (logged_refl _ s2))
    as H3.
  pose proof (@validate_live_keeps_flag _ _ s2 F2) as F3.
  rewrite E3 in H3, F3. cbn [final] in H3, F3. apply logged_none in H3.
  apply bind_done in Hrun. destruct Hrun as ([] & s4 & E4 & Hrun).
  apply bind_done in Hrun. destruct Hrun as ([] & s5 & E5 & Hrun).
  assert (H5 : trace s5 = trace s3
                 ++ (if changed then [CSet] else plugin_pass sorted_plugins)
               /\ should_initialize s5 = changed).
  { destruct changed; cbn [when negb] in E4, E5.
    - injection E4 as <-. injection E5 as <-. now split.
    - injection E4 as <-. split.
      + now apply run_plugins_trace.
      + pose proof (@run_plugins_keeps_flag _ sorted_plugins _ s3 F3) as F5.
        now rewrite E5 in F5. }
  destruct H5 as [T5 F5]. clear E4 E5.
  apply bind_done in Hrun. destruct Hrun as ([] & s6 & E6 & Hrun).
  destruct (save_loop_spec s5) as (w & saves & Hsave & _ & As).
  rewrite Hsave in E6. injection E6 as E6. rewrite F5 in E6.
  assert (T6 : trace s6 = trace s5 ++ saves
                 ++ (if negb changed && wrote_any saves
                     then [CClear AfterSave] else [])).
  { subst s6. cbn zeta. destruct (negb changed && wrote_any saves); cbn.
    - now rewrite <- app_assoc.
    - now rewrite app_nil_r. }
  clear E6 Hsave.
  apply bind_done in Hrun. destruct Hrun as ([] & s7 & E7 & Hrun).
  destruct (push_http_done s6) as (w7 & Hpush). rewrite Hpush in E7.
  injection E7 as <-.
  pose proof (@wait_for_events_logs _ changed a _ _
                (logged_refl _ (set_world w7 s6))) as H8.
  rewrite Hrun in H8. cbn [final] in H8. destruct H8 as (d4 & T8 & A8).
  exists d1, d2, saves, d4. repeat split; try assumption.
  rewrite T8. cbn [trace set_world]. rewrite T6, T5, H3, T2, T1, <- E2.
  rewrite <- !app_assoc. reflexivity.
Qed.

End PassTrace.

(* ------------------------------------------------------------------ *)
(** ** Reading the log of a pass *)

Lemma flat_map_skip {B} (f : Call -> list B) (al : Call -> bool) d :
  (forall c, al c = true -> f c = []) ->
  forallb al d = true -> flat_map f d = [].
Proof.
  intros Hf Ha. rewrite forallb_forall in Ha.
  apply BusFacts.flat_map_nil. intros c Hc. apply Hf. now apply Ha.
Qed.

Lemma filter_skip (f al : Call -> bool) d :
  (forall c, al c = true -> f c = false) ->
  forallb al d = true -> filter f d = [].
Proof.
  intros Hf Ha. induction d as [|c r IH]; [reflexivity|].
  cbn [forallb] in Ha. apply andb_true_iff in Ha. destruct Ha as [Hc Hr].
  cbn [filter]. rewrite (Hf c Hc). now apply IH.
Qed.

Lemma filter_all {A} (f : A -> bool) l :
  forallb f l = true -> filter f l = l.
Proof.
  induction l as [|x r IH]; [reflexivity|]. cbn [forallb filter].
  intros Hf. apply andb_true_iff in Hf. destruct Hf as [-> Hr].
  now rewrite IH.
Qed.

Lemma plugin_pass_runs sorted_plugins :
  forallb is_run (plugin_pass sorted_plugins) = true.
Proof.
  unfold plugin_pass. rewrite forallb_app.
  apply andb_true_iff. split; apply forallb_forall;
    intros c Hc; apply in_map_iff in Hc; destruct Hc as (p & <- & _);
    reflexivity.
Qed.

Lemma clear_runs (b : bool) :
  runs (if b then [CClear AfterSave] else []) = [].
Proof. now destruct b. Qed.

Section Claims.
Context `{External}.

(** X21: in a pass that starts with a [Settings] event in the buffer, so
    that the batch it drains holds one, no plugin's [prepare] or [update]
    is called, however the pass ends.  When the pass runs to its end it has
    drained one batch, with a [Settings] event in it, and the reinitialize
    flag is set at its end; when it is cut short by an exception, the loop
    ends with that exception and makes no further pass. *)
Theorem settings_event_defers_plugins sorted_plugins a s :
  existsb is_settings (EmitHolder._events (emit s)) = true ->
  runs (trace (final (generation sorted_plugins a s))) = runs (trace s)
  /\ (forall s',
        generation sorted_plugins a s = Done tt s' ->
        (exists batch,
           drained (trace s') = drained (trace s) ++ [batch]
           /\ existsb is_settings batch = true)
        /\ should_initialize s' = true)
  /\ (forall e s' rest,
        should_exit s = false ->
        generation sorted_plugins a s = Raised e s' ->
        loop sorted_plugins (a :: rest) s = Raised e s').
Proof.
  intros Hb.
  destruct (generation_with_settings sorted_plugins a s Hb) as [Hq Hf].
  split; [|split].
  - unfold runs. eapply quiet_filter; [|exact Hq]. now intros [].
  - intros s' Hrun. split; [|now apply Hf].
    exists (EmitHolder._events (emit s)). split; [|exact Hb].
    destruct (generation_trace _ _ _ Hrun)
      as (d1 & d2 & saves & d4 & -> & A1 & A2 & As & A4).
    unfold drained. rewrite !flat_map_app. cbn [flat_map].
    rewrite !flat_map_app.
    rewrite (flat_map_skip _ (may_log Reloading) d1), ?app_nil_l; auto;
      [|now intros []].
    rewrite (flat_map_skip _ (may_log Processing) d2), ?app_nil_l; auto;
      [|now intros []].
    rewrite (flat_map_skip _ is_save saves), ?app_nil_l; auto;
      [|now intros []].
    rewrite (flat_map_skip _ (may_log Waiting) d4), ?app_nil_r; auto;
      [|now intros []].
    rewrite Hb. cbn [negb andb flat_map app]. reflexivity.
  - intros e s' rest Hexit Hrun. cbn [loop]. rewrite Hexit.
    unfold bind. now rewrite Hrun.
Qed.

End Claims.

Section Order.
Context `{External}.

Lemma generation_runs sorted_plugins a s s' :
  generation sorted_plugins a s = Done tt s' ->
  runs (trace s') =
  runs (trace s)
    ++ (if existsb is_settings (EmitHolder._events (emit s))
        then [] else plugin_pass sorted_plugins).
Proof.
  intros Hrun.
  destruct (generation_trace _ _ _ Hrun)
    as (d1 & d2 & saves & d4 & -> & A1 & A2 & As & A4).
  unfold runs. rewrite !filter_app. cbn [filter is_run]. rewrite !filter_app.
  rewrite (filter_skip is_run (may_log Reloading) d1); auto; [|now intros []].
  rewrite (filter_skip is_run (may_log Processing) d2); auto; [|now intros []].
  rewrite (filter_skip is_run is_save saves); auto; [|now intros []].
  rewrite (filter_skip is_run (may_log Waiting) d4); auto; [|now intros []].
  fold (runs (if negb (existsb is_settings (EmitHolder._events (emit s)))
                 && wrote_any saves then [CClear AfterSave] else [])).
  rewrite clear_runs. cbn [app]. rewrite !app_nil_r. f_equal.
  destruct (existsb is_settings _); [reflexivity|].
  apply filter_all, plugin_pass_runs.
Qed.

Lemma loop_runs sorted_plugins inputs s b s' :
  loop sorted_plugins inputs s = Done b s' ->
  exists n,
    runs (trace s')
    = runs (trace s) ++ List.concat (repeat (plugin_pass sorted_plugins) n).
Proof.
  revert s. induction inputs as [|a rest IH]; intros s; cbn [loop].
  - destruct (should_exit s); intros [= _ <-]; exists 0; cbn;
      now rewrite app_nil_r.
  - destruct (should_exit s).
    + intros [= _ <-]. exists 0. cbn. now rewrite app_nil_r.
    + intros Hrun. apply bind_done in Hrun.
      destruct Hrun as ([] & s1 & Hgen & Hrest).
      apply IH in Hrest. destruct Hrest as (n & Hn).
      apply generation_runs in Hgen. rewrite Hn, Hgen.
      destruct (existsb is_settings _).
      * exists n. now rewrite app_nil_r.
      * exists (S n). cbn [repeat List.concat]. now rewrite <- !app_assoc.
Qed.

Lemma finally_block_logs plugins t0 :
  stays (logged (may_log Closing) t0) (finally_block plugins).
Proof.
  unfold finally_block.
  stays_with ltac:(first [logged_leaf | apply close_http_logs]).
Qed.

Lemma try_block_runs sorted_plugins inputs w b s :
  try_block sorted_plugins inputs (init_state w) = Done b s ->
  exists n,
    runs (trace s) = List.concat (repeat (plugin_pass sorted_plugins) n).
Proof.
  unfold try_block. destruct sorted_plugins as [|p r] eqn:Esp.
  - intros [= _ <-]. now exists 0.
  - rewrite <- Esp. intros Hrun. apply bind_done in Hrun.
    destruct Hrun as ([] & s1 & Hopen & Hloop).
    apply loop_runs in Hloop. destruct Hloop as (n & Hn). exists n.
    rewrite Hn.
    pose proof (open_plugins_logs sorted_plugins
                  (logged_refl _ (init_state w))) as Ho.
    rewrite Hopen in Ho. cbn [final] in Ho.
    unfold runs at 1.
    rewrite (quiet_filter is_run (al := may_log Opening) (t0 := [])); auto.
    now intros [].
Qed.

(** C2, as the code has it: the list sorted at start-up is the discovered
    plugins in ascending priority, plugins of one priority in discovery
    order.  A pass that runs the plugins and ends normally calls [prepare]
    on that list backwards, so in descending priority with plugins of one
    priority in reverse discovery order, and then [update] on it forwards;
    a run of [main] that returns has made nothing but such passes, all on
    the one list. *)
Theorem plugin_order plugins :
  let sorted_plugins := sort_by_priority (discovered plugins) in
  (ascending sorted_plugins
   /\ descending (rev sorted_plugins)
   /\ Permutation sorted_plugins (discovered plugins)
   /\ forall k,
        with_priority k sorted_plugins = with_priority k (discovered plugins)
        /\ with_priority k (rev sorted_plugins)
           = rev (with_priority k (discovered plugins)))
  /\ (forall a s s',
        existsb is_settings (EmitHolder._events (emit s)) = false ->
        generation sorted_plugins a s = Done tt s' ->
        runs (trace s')
        = runs (trace s) ++ map CPrepare (rev sorted_plugins)
            ++ map CUpdate sorted_plugins)
  /\ (forall inputs w s,
        main true plugins inputs w = (Returned, s) ->
        exists n,
          runs (trace s)
          = List.concat
              (repeat (map CPrepare (rev sorted_plugins)
                         ++ map CUpdate sorted_plugins) n)).
Proof.
  intros sorted_plugins. split; [|split].
  - split; [apply sort_by_priority_ascending|].
    split; [apply ascending_rev, sort_by_priority_ascending|].
    split; [apply sort_by_priority_perm|].
    intros k. split; [apply sort_by_priority_stable|].
    unfold with_priority. rewrite filter_rev. f_equal.
    apply sort_by_priority_stable.
  - intros a s s' Hb Hrun. apply generation_runs in Hrun.
    now rewrite Hb in Hrun.
  - intros inputs w s. unfold main. cbn [negb].
    fold sorted_plugins.
    destruct (try_block sorted_plugins inputs (init_state w))
      as [[|] s1|e s1] eqn:Etry.
    + pose proof (finally_block_logs plugins (logged_refl _ s1)) as Hf.
      destruct (finally_block plugins s1) as [[] s2|e s2]; [|discriminate].
      intros [= <-]. cbn [final] in Hf.
      apply try_block_runs in Etry. destruct Etry as (n & Hn). exists n.
      fold (plugin_pass sorted_plugins). rewrite <- Hn. unfold runs.
      eapply quiet_filter; [|exact Hf]. now intros [].
    + discriminate.
    + destruct (finally_block plugins s1); discriminate.
Qed.

End Order.

(** C2, against the claim: two plugins of one priority, discovered as
    [first], [second]; [prepare] is called on [second] before [first]. *)
Lemma prepare_ties_run_backwards :
  let plugins := [("provider", [Sample.first; Sample.second])] in
  let s := snd (@main Sample.outside true plugins [Sample.terminate]
                  Sample.empty_disk) in
  with_priority 5 (discovered plugins) = [Sample.first; Sample.second]
  /\ with_priority 5 (updated (trace s)) = [Sample.first; Sample.second]
  /\ with_priority 5 (prepared (trace s)) = [Sample.second; Sample.first].
Proof. vm_compute. repeat split. Qed.

Lemma plugin_order_witness :
  runs (trace (final (@generation Sample.outside
                        (sort_by_priority [Sample.p10; Sample.p5; Sample.p20])
                        Sample.idle Sample.with_racer)))
  = [CPrepare Sample.p20; CPrepare Sample.p10; CPrepare Sample.p5;
     CUpdate Sample.p5; CUpdate Sample.p10; CUpdate Sample.p20].
Proof.
  apply (proj1 (proj2 (@plugin_order Sample.outside
                         [("provider", [Sample.p10; Sample.p5; Sample.p20])]))
           Sample.idle Sample.with_racer).
  - reflexivity.
  - vm_compute. reflexivity.
Defined.


Section SaveAndApply.
Context `{External}.

(** C9: the save loop always ends normally; it clears the flag exactly when
    one of its saves wrote a file and the flag was not set when it began,
    and otherwise leaves the flag as it was.  A pass whose batch holds a
    [Settings] event never clears the flag after the save, however it ends,
    and ends with the flag set. *)
Theorem self_trigger_suppression :
  (forall s,
     exists s' saves,
       save_loop s = Done tt s'
       /\ forallb is_save saves = true
       /\ trace s' =
            trace s ++ saves
              ++ (if negb (should_initialize s) && wrote_any saves
                  then [CClear AfterSave] else [])
       /\ should_initialize s' =
            (if negb (should_initialize s) && wrote_any saves
             then false else should_initialize s))
  /\ (forall sorted_plugins a s,
        existsb is_settings (EmitHolder._events (emit s)) = true ->
        clears AfterSave (trace (final (generation sorted_plugins a s)))
        = clears AfterSave (trace s)
        /\ (forall s', generation sorted_plugins a s = Done tt s' ->
            should_initialize s' = true)).
Proof.
  split.
  - intros s. destruct (save_loop_spec s) as (w & saves & Hrun & _ & Hs).
    eexists. exists saves. split; [exact Hrun|]. split; [exact Hs|].
    cbn zeta. destruct (negb (should_initialize s) && wrote_any saves).
    + split; [|reflexivity]. cbn. now rewrite <- app_assoc.
    + split; [|reflexivity]. cbn. now rewrite app_nil_r.
  - intros sorted_plugins a s Hb.
    destruct (generation_with_settings sorted_plugins a s Hb) as [Hq Hf].
    split; [|exact Hf]. unfold clears. f_equal.
    eapply quiet_filter; [|exact Hq]. intros [] Hc; try reflexivity.
    now destruct site.
Qed.

Lemma apply_event_unknown name changed s :
  dict_get name (profiles s) = None ->
  process_event (EvApply name) changed s = Done changed s.
Proof.
  intros Hget. cbn [process_event]. unfold bind, gets. now rewrite Hget.
Qed.

(** C10: an [Apply] event whose name is not a key of [profiles] ends
    normally and leaves the whole state, the live Config with it, as it
    was. *)
Theorem apply_unknown_profile_is_dropped name changed s :
  dict_get name (profiles s) = None ->
  process_event (EvApply name) changed s = Done changed s.
Proof. apply apply_event_unknown. Qed.

End SaveAndApply.

Lemma self_trigger_suppression_witness :
  should_initialize
    (final (@generation Sample.outside [Sample.good]
              Sample.idle
              (set_emit (EmitHolder.Make [EvSettings]) Sample.with_racer)))
  = true.
Proof.
  apply (proj2 (proj2 (@self_trigger_suppression Sample.outside)
                  [Sample.good] Sample.idle
                  (set_emit (EmitHolder.Make [EvSettings]) Sample.with_racer)
                  eq_refl)).
  vm_compute. reflexivity.
Defined.

Lemma apply_unknown_profile_is_dropped_witness :
  @process_event Sample.outside (EvApply "drift") false Sample.with_racer
  = Done false Sample.with_racer.
Proof.
  apply (@apply_unknown_profile_is_dropped Sample.outside).
  reflexivity.
Defined.

Section Reload.
Context `{External}.

Lemma reload_tail_keeps (P : State -> Prop) :
  (forall s v, P s -> P (set_profiles v s)) ->
  (forall s v, P s -> P (set_templates v s)) ->
  (forall s v, P s -> P (set_world v s)) ->
  (forall s v, P s -> P (set_cfg_fds v s)) ->
  (forall s v, P s -> P (set_https v s)) ->
  (forall s v, P s -> P (set_prev_http_cfg v s)) ->
  (forall s v, P s -> P (set_lock_depth v s)) ->
  (forall s v, P s -> P (set_should_initialize v s)) ->
  (forall s c, P s -> P (record c s)) ->
  stays P
    (bind reload_profiles (fun _ =>
     bind rearm_watches (fun _ =>
     bind reconcile_http (fun _ =>
     modify (fun s =>
       record (CClear AtReload) (set_should_initialize false s)))))).
Proof.
  intros Hp Ht Hw Hf Hh Hv Hl Hi Hr.
  unfold reload_profiles, rearm_watches, load_profile, insert_profile,
    reconcile_http, close_http, push_http, http_bool, http_int.
  stays_with ltac:(intros;
    repeat match goal with
           | |- context [match ?x with _ => _ end] => destruct x
           end; auto).
Qed.

(** C6: a reload takes the state loaded from the state file when there is
    one; when the load fails it keeps the Config in memory if there is one,
    which is when the mapping of that Config holds a key, and takes the
    defaults of the new settings when the mapping holds none, as at the
    start.  This is the Config the reload ends with, however it ends. *)
Theorem reload_state_fallback sorted_plugins s :
  should_initialize s || initial_run s = true ->
  let new_settings :=
    merge_settings
      (map (fun p => plugin_settings p (world s)) sorted_plugins
         ++ [hhd_settings (world s)]) in
  let s' := final (initialize sorted_plugins s) in
  settings s' = new_settings
  /\ conf s' =
     match load_state_yaml new_settings (world s) with
     | Some new_conf => new_conf
     | None =>
         match Config.conf (conf s) with
         | _ :: _ => conf s
         | [] => get_default_state new_settings
         end
     end.
Proof.
  intros Hinit new_settings s'.
  set (tail := bind reload_profiles (fun _ =>
               bind rearm_watches (fun _ =>
               bind reconcile_http (fun _ =>
               modify (fun s =>
                 record (CClear AtReload) (set_should_initialize false s)))))).
  assert (Htail : forall x y,
             stays (fun s => settings s = x /\ conf s = y) tail).
  { intros x y. apply reload_tail_keeps; intros; assumption. }
  assert (Hfin : exists s3,
             s' = final (tail s3) /\ settings s3 = new_settings
             /\ conf s3 =
                match load_state_yaml new_settings (world s) with
                | Some new_conf => new_conf
                | None =>
                    match Config.conf (conf s) with
                    | _ :: _ => conf s
                    | [] => get_default_state new_settings
                    end
                end).
  { subst s'. unfold initialize.
    rewrite final_bind. cbn [gets]. rewrite Hinit. cbn [when].
    rewrite final_bind. cbn [modify].
    rewrite final_bind. unfold reload_settings at 1. cbn [modify].
    rewrite final_bind. fold tail.
    unfold reload_state, bind at 1, gets at 1.
    read_fields. fold new_settings.
    destruct (load_state_yaml new_settings (world s)) as [new_conf|].
    - cbn [modify]. eexists. split; [reflexivity|]. now split.
    - unfold Config.nonempty.
      destruct (Config.conf (conf s)); cbn [ret modify];
        eexists; (split; [reflexivity|]); now split. }
  destruct Hfin as (s3 & -> & Hset & Hconf).
  now apply Htail.
Qed.

End Reload.

(** The state file does not load and a Config is in memory, with the port
    of the HTTP surface changed from the default: the reload keeps it. *)
Lemma reload_state_fallback_witness :
  let previous :=
    Config.Make
      [("hhd", Tree [("http", Tree [("enable", Leaf (VBool false));
                                    ("port", Leaf (VInt 8080));
                                    ("localhost", Leaf (VBool true));
                                    ("token", Leaf (VBool false))])])] in
  conf (final (@initialize Sample.outside [Sample.good]
                 (set_should_initialize true
                    (set_conf previous Sample.with_racer))))
  = previous.
Proof.
  intros previous.
  exact (proj2 (@reload_state_fallback Sample.outside [Sample.good]
                  (set_should_initialize true
                     (set_conf previous Sample.with_racer))
                  eq_refl)).
Defined.

Section ProfileEvents.
Context `{External}.

Lemma validate_profile_final name entry s :
  lenient_validation ->
  dict_get name (profiles s) = Some entry ->
  let s' := final (validate_profile name s) in
  (profiles s' = profiles s \/ profiles s' = dict_set name entry (profiles s))
  /\ conf s' = conf s /\ trace s' = trace s.
Proof.
  intros Hlen Hget.
  unfold validate_profile, bind, gets, orelse, ret, raise, modify.
  rewrite Hget.
  destruct (validate_config entry (settings s) false) as [c'|] eqn:Ev;
    cbn [final]; read_fields.
  - apply Hlen in Ev. subst c'. repeat split. now right.
  - repeat split. now left.
Qed.

Lemma profile_event_final name config changed s :
  lenient_validation ->
  let entry :=
    match dict_get name (profiles s) with
    | Some old => Config.update old (Config.conf config)
    | None => config
    end in
  let s' := final (process_event (EvProfile name config) changed s) in
  (profiles s' = dict_set name entry (profiles s)
   \/ profiles s' = dict_set name entry (dict_set name entry (profiles s)))
  /\ conf s' = conf s
  /\ trace s' =
     trace s ++ match dict_get name (profiles s) with
                | Some _ => []
                | None => [CInsertProfile name true]
                end.
Proof.
  intros Hlen entry s'. subst s'. cbn [process_event].
  rewrite final_bind. cbn [gets]. rewrite final_bind.
  set (s1 := set_profiles (dict_set name entry (profiles s)) s).
  assert (Hs1 : exists s2,
             match dict_get name (profiles s) with
             | Some old =>
                 modify (fun s =>
                   set_profiles
                     (dict_set name (Config.update old (Config.conf config))
                        (profiles s)) s)
             | None => with_lock (insert_profile name config)
             end s = Done tt s2
             /\ profiles s2 = dict_set name entry (profiles s)
             /\ conf s2 = conf s
             /\ trace s2 =
                trace s ++ match dict_get name (profiles s) with
                           | Some _ => []
                           | None => [CInsertProfile name true]
                           end).
  { subst entry. destruct (dict_get name (profiles s)) as [old|].
    - eexists. split; [reflexivity|]. read_fields.
      repeat split. now rewrite app_nil_r.
    - eexists. split; [reflexivity|]. read_fields. now repeat split. }
  destruct Hs1 as (s2 & -> & Hp2 & Hc2 & Ht2).
  rewrite final_bind.
  assert (Hg2 : dict_get name (profiles s2) = Some entry)
    by (rewrite Hp2; apply dict_get_set_same).
  pose proof (validate_profile_final name s2 Hlen Hg2) as Hv.
  cbv zeta in Hv.
  destruct (validate_profile name s2) as [[] s3|e s3]; cbn [final ret] in *.
  - rewrite <- Hp2, <- Hc2, <- Ht2. destruct Hv as ([->| ->] & -> & ->).
    + repeat split. left. reflexivity.
    + repeat split. right. reflexivity.
  - rewrite <- Hp2, <- Hc2, <- Ht2. destruct Hv as ([->| ->] & -> & ->).
    + repeat split. left. reflexivity.
    + repeat split. right. reflexivity.
Qed.

(** C7: a [Profile] event for a name that is a key of [profiles] leaves
    under that name the recursive merge of the payload into the Config that
    was there: what the payload does not hold stays as it was and the leaves
    of the payload are taken over.  For a name that is no key, the payload
    Config is what is stored, inserted with the lock held.  No other profile
    and nothing of the live Config changes. *)
Theorem profile_event_upserts name config changed s :
  lenient_validation ->
  wf_dict (Config.conf config) = true ->
  let s' := final (process_event (EvProfile name config) changed s) in
  match dict_get name (profiles s) with
  | Some old =>
      let merged := Config.update old (Config.conf config) in
      dict_get name (profiles s') = Some merged
      /\ (forall p, Config.absent p (Config.conf config) = true ->
          Config.get_in p (Config.conf merged)
          = Config.get_in p (Config.conf old))
      /\ (forall p v, Config.leaf_at p (Config.conf config) = Some v ->
          Config.leaf_at p (Config.conf merged) = Some v)
      /\ trace s' = trace s
  | None =>
      dict_get name (profiles s') = Some config
      /\ trace s' = trace s ++ [CInsertProfile name true]
  end
  /\ (forall other, other <> name ->
      dict_get other (profiles s') = dict_get other (profiles s))
  /\ conf s' = conf s.
Proof.
  intros Hlen Hwf s'.
  destruct (profile_event_final name config changed s Hlen)
    as (Hp & Hc & Ht).
  fold s' in Hp, Hc, Ht.
  assert (Hsame : forall entry ps,
             profiles s' = dict_set name entry ps
             \/ profiles s' = dict_set name entry (dict_set name entry ps) ->
             dict_get name (profiles s') = Some entry
             /\ forall other, other <> name ->
                dict_get other (profiles s') = dict_get other ps).
  { intros entry ps [-> | ->]; split;
      try apply dict_get_set_same; intros other Hne;
      now rewrite ?dict_get_set_other by assumption. }
  apply Hsame in Hp. destruct Hp as [Hget Hother].
  split; [|split; [exact Hother|exact Hc]].
  destruct (dict_get name (profiles s)) as [old|].
  - cbv zeta. split; [exact Hget|]. split; [|split].
    + intros p Hp. now apply ConfigFacts.merge_keeps_absent.
    + intros p v Hp. now apply ConfigFacts.merge_takes_leaves.
    + now rewrite Ht, app_nil_r.
  - now split.
Qed.

End ProfileEvents.

Lemma profile_event_upserts_witness :
  dict_get "racer"
    (profiles
       (final (@process_event Sample.outside
                 (EvProfile "racer" Sample.racer2) false Sample.with_racer)))
  = Some (Config.Make
            [("gyro", Tree [("enabled", Leaf (VBool true));
                            ("scale", Leaf (VInt 3))]);
             ("led", Leaf (VStr "red"))]).
Proof.
  refine (proj1 (proj1 (@profile_event_upserts Sample.outside
                          "racer" Sample.racer2 false Sample.with_racer
                          _ eq_refl))).
  intros c st c' E. now injection E.
Defined.

Section Templates.
Context `{External}.

Lemma load_profile_no_template_key fn :
  stays no_template_key (load_profile fn).
Proof.
  unfold load_profile. destruct (negb (endswith ".yml" fn)); [apply stays_ret|].
  apply stays_bind; [apply stays_gets|]. intros s0.
  destruct (load_profile_yaml fn (world s0)); [|apply stays_ret].
  apply stays_bind; [apply stays_orelse|]. intros c'.
  destruct (startswith "_" (profile_name fn)) eqn:E.
  - apply stays_modify. intros s Hs. exact Hs.
  - apply stays_with_lock; [intros n s Hs; exact Hs|].
    unfold insert_profile. apply stays_modify. intros s Hs name Hn.
    read_fields. rewrite dict_get_set_other; [now apply Hs|].
    intros ->. congruence.
Qed.

Lemma load_profile_keeps_world fn w :
  stays (fun s => world s = w) (load_profile fn).
Proof. unfold load_profile, insert_profile. stays_with frame_cases. Qed.

Lemma load_profile_keeps_template fn k :
  stays (fun s => dict_mem k (templates s) = true) (load_profile fn).
Proof.
  unfold load_profile, insert_profile.
  stays_with ltac:(intros; read_fields; rewrite ?dict_mem_set;
                   try apply orb_true_iff; auto).
Qed.

Lemma load_profile_template fn c s s' :
  endswith ".yml" fn = true -> startswith "_" fn = true ->
  load_profile_yaml fn (world s) = Some c ->
  load_profile fn s = Done tt s' ->
  dict_mem (profile_name fn) (templates s') = true.
Proof.
  intros Hend Hstart Hload. unfold load_profile.
  rewrite Hend. cbn [negb]. unfold bind at 1, gets at 1. rewrite Hload.
  unfold bind at 1.
  destruct (validate_config c (settings s) false) as [c'|];
    cbn [orelse ret raise]; [|discriminate].
  rewrite (profile_name_keeps_underscore _ Hstart). unfold modify.
  intros [= <-]. read_fields. unfold dict_mem.
  now rewrite dict_get_set_same.
Qed.

Lemma foreach_load_templates fns fn c s s' :
  foreach fns load_profile s = Done tt s' ->
  In fn fns -> endswith ".yml" fn = true -> startswith "_" fn = true ->
  load_profile_yaml fn (world s) = Some c ->
  dict_mem (profile_name fn) (templates s') = true.
Proof.
  revert s. induction fns as [|f0 r IH]; intros s Hrun Hin Hend Hstart Hload;
    [contradiction|].
  cbn [foreach] in Hrun. apply bind_done in Hrun.
  destruct Hrun as ([] & s1 & H0 & Hr).
  destruct Hin as [->|Hin].
  - pose proof (load_profile_template _ _ Hend Hstart Hload H0) as Hm.
    pose proof (@stays_foreach _ _ _ r load_profile
                  (fun x => load_profile_keeps_template x (profile_name fn))
                  s1 Hm) as Hk.
    now rewrite Hr in Hk.
  - apply (IH s1); try assumption.
    pose proof (@load_profile_keeps_world f0 _ s eq_refl) as Hw.
    rewrite H0 in Hw. cbn [final] in Hw. now rewrite Hw.
Qed.

(** C8, as the code has it: a reload that ends normally puts no name that
    begins with an underscore among the profiles; every profile file whose
    name begins with one, when it loads, is a key of the templates, and an
    [Apply] event for its name changes nothing.  The save loop hands to
    [save_profile_yaml] the profiles and, of the templates, the one named
    [_template] alone, under the file name [_template.yml]. *)
Theorem templates_loaded_apart s s' :
  reload_profiles s = Done tt s' ->
  (forall name, startswith "_" name = true ->
     dict_get name (profiles s') = None)
  /\ (forall fn c,
        In fn (listdir (world s)) -> endswith ".yml" fn = true ->
        startswith "_" fn = true ->
        load_profile_yaml fn (world s) = Some c ->
        dict_mem (profile_name fn) (templates s') = true
        /\ forall changed,
             process_event (EvApply (profile_name fn)) changed s'
             = Done changed s')
  /\ (forall s0, exists s1,
        save_loop s0 = Done tt s1
        /\ saved_profiles (trace s1) =
             saved_profiles (trace s0)
               ++ map profile_file (profiles s0)
               ++ [("_template.yml", dict_get "_template" (templates s0))]).
Proof.
  intros Hrun. unfold reload_profiles in Hrun.
  apply bind_done in Hrun. destruct Hrun as ([] & s1 & [= <-] & Hrun).
  apply bind_done in Hrun. destruct Hrun as ([] & s2 & [= <-] & Hrun).
  apply bind_done in Hrun. destruct Hrun as (fns & s3 & [= <- <-] & Hrun).
  set (s2 := set_templates [] (set_profiles [] s)) in *.
  assert (Hkeys : no_template_key s').
  { pose proof (@stays_foreach _ _ _ (listdir (world s)) load_profile
                  load_profile_no_template_key s2) as Hk.
    rewrite Hrun in Hk. apply Hk. intros name _. reflexivity. }
  split; [exact Hkeys|]. split.
  - intros fn c Hin Hend Hstart Hload. split.
    + now apply (@foreach_load_templates (listdir (world s)) fn c s2 s' Hrun).
    + intros changed. apply apply_event_unknown. apply Hkeys.
      now apply profile_name_keeps_underscore.
  - intros s0. destruct (save_loop_spec s0) as (w & saves & Hsave & Hp & Hs).
    eexists. split; [exact Hsave|]. cbv zeta.
    destruct (negb (should_initialize s0) && wrote_any saves); read_fields;
      unfold saved_profiles in *; rewrite ?flat_map_app, Hp; cbn [flat_map];
      now rewrite ?app_nil_r.
Qed.

End Templates.

(** C8, against the claim: the profile directory holds the template
    [_foo.yml]; it is loaded as the template [_foo], and the pass saves the
    profile and [_template.yml] and never [_foo.yml]. *)
Lemma template_is_not_persisted :
  let s := snd (@main Sample.outside true [("provider", [Sample.good])]
                  [Sample.terminate] Sample.disk_with_template) in
  startswith "_" "_foo.yml" = true
  /\ dict_get "_foo" (templates s) = Some Sample.racer1
  /\ saved_profiles (trace s)
     = [("racer.yml", Some Sample.racer2); ("_template.yml", None)].
Proof. vm_compute. repeat split. Qed.

Lemma templates_loaded_apart_witness :
  dict_mem (profile_name "_foo.yml")
    (templates
       (final (@reload_profiles Sample.outside
                 (@init_state Sample.outside Sample.disk_with_template))))
  = true.
Proof.
  refine (proj1 (proj1 (proj2 (@templates_loaded_apart Sample.outside
                                 (@init_state Sample.outside
                                    Sample.disk_with_template)
                                 _ _))
                   "_foo.yml" Sample.racer1 _ _ _ _)).
  - vm_compute. reflexivity.
  - vm_compute. now left.
  - reflexivity.
  - reflexivity.
  - reflexivity.
Defined.

Section Shutdown.
Context `{External}.

Lemma foreach_app {X} (l1 l2 : list X) body s :
  foreach (l1 ++ l2) body s
  = bind (foreach l1 body) (fun _ => foreach l2 body) s.
Proof.
  revert s. induction l1 as [|x r IH]; intros s; cbn [app foreach].
  - reflexivity.
  - unfold bind. destruct (body x s) as [[] s1|e s1]; [|reflexivity].
    rewrite IH. reflexivity.
Qed.

Lemma foreach_concat {X} (ls : list (list X)) body s :
  foreach ls (fun l => foreach l body) s = foreach (List.concat ls) body s.
Proof.
  revert s. induction ls as [|l r IH]; intros s; cbn [foreach List.concat].
  - reflexivity.
  - rewrite foreach_app. unfold bind.
    destruct (foreach l body s) as [[] s1|e s1]; [apply IH|reflexivity].
Qed.

Lemma close_fds_done fds s :
  exists s1,
    foreach fds (fun fd => modify (fun s => set_world (close_fd fd (world s)) s))
      s = Done tt s1
    /\ trace s1 = trace s /\ https s1 = https s.
Proof.
  revert s. induction fds as [|fd r IH]; intros s; cbn [foreach].
  - now exists s.
  - destruct (IH (set_world (close_fd fd (world s)) s))
      as (s1 & Hrun & Ht & Hh).
    exists s1. split; [exact Hrun|]. split; [exact Ht|exact Hh].
Qed.

Lemma close_http_cases s :
  trace (final (close_http s)) = trace s
  /\ ((forall h w, snd (http_close h w) = true) ->
      exists s', close_http s = Done tt s').
Proof.
  unfold close_http, bind, gets, world_call.
  destruct (https s) as [h|]; [|split; [reflexivity|eauto]].
  pose proof (fun Hh : forall h w, snd (http_close h w) = true =>
                Hh h (world s)) as Hok.
  destruct (http_close h (world s)) as [w [|]]; cbn [snd] in Hok.
  - split; [reflexivity|eauto].
  - split; [reflexivity|]. intros Hh. specialize (Hok Hh). discriminate.
Qed.

Lemma bind_after_done {A B} (m : M A) (k : A -> M B) s a s1 :
  m s = Done a s1 -> bind m k s = k a s1.
Proof. unfold bind. now intros ->. Qed.

Lemma bind_after_raised {A B} (m : M A) (k : A -> M B) s e s1 :
  m s = Raised e s1 -> bind m k s = Raised e s1.
Proof. unfold bind. now intros ->. Qed.

Lemma plugin_call_raised {A} c p (f : W -> Ext W A) s e s' :
  plugin_call c p f s = Raised e s' ->
  ext_ret (f (world s)) = None
  /\ s' = set_emit (buffered (ext_emitted (f (world s))) (emit s))
            (set_world (ext_world (f (world s))) (record c s)).
Proof.
  unfold plugin_call. destruct (ext_ret (f (world s))); [discriminate|].
  now intros [= _ <-].
Qed.

Lemma foreach_close l s :
  exists n,
    trace (final (foreach l (fun p => plugin_call (CClose p) p (plugin_close p))
                    s))
    = trace s ++ map CClose (firstn n l)
    /\ (forall s',
          foreach l (fun p => plugin_call (CClose p) p (plugin_close p)) s
          = Done tt s' -> firstn n l = l)
    /\ ((forall p w, In p l -> ext_ret (plugin_close p w) <> None) ->
        exists s',
          foreach l (fun p => plugin_call (CClose p) p (plugin_close p)) s
          = Done tt s').
Proof.
  revert s. induction l as [|p r IH]; intros s; cbn [foreach].
  - exists 0. cbn. rewrite app_nil_r. repeat split; eauto.
  - destruct (plugin_call (CClose p) p (plugin_close p) s) as [[] s1|e s1]
      eqn:Ep.
    + rewrite (bind_after_done _ _ _ Ep).
      apply plugin_call_done in Ep. destruct Ep as [_ Hs1].
      destruct (IH s1) as (n & Ht & Hd & Hok). exists (S n).
      cbn [firstn map]. split; [|split].
      * rewrite Ht, Hs1. read_fields. now app_norm.
      * intros s' Hrun. f_equal. exact (Hd s' Hrun).
      * intros Hall. apply Hok. intros q w Hq. apply Hall. now right.
    + rewrite (bind_after_raised _ _ _ Ep).
      apply plugin_call_raised in Ep. destruct Ep as [Hnone Hs1].
      exists 1. cbn [firstn map final]. split; [|split].
      * rewrite Hs1. read_fields. reflexivity.
      * discriminate.
      * intros Hall. exfalso.
        now apply (Hall p (world s) (or_introl eq_refl)).
Qed.

(** The [finally] block: the plugins are closed in discovery order, up to
    the first failure. *)
Lemma finally_block_spec plugins s :
  exists n,
    trace (final (finally_block plugins s))
    = trace s ++ map CClose (firstn n (discovered plugins))
    /\ (forall s', finally_block plugins s = Done tt s' ->
        firstn n (discovered plugins) = discovered plugins)
    /\ ((forall p w, In p (discovered plugins) ->
           ext_ret (plugin_close p w) <> None) ->
        (forall h w, snd (http_close h w) = true) ->
        exists s', finally_block plugins s = Done tt s').
Proof.
  assert (Heq : exists s1,
            trace s1 = trace s
            /\ finally_block plugins s
               = bind close_http (fun _ =>
                   foreach (discovered plugins)
                     (fun p => plugin_call (CClose p) p (plugin_close p))) s1).
  { unfold finally_block, bind at 1, gets at 1. unfold bind at 1.
    destruct (close_fds_done (cfg_fds s) s) as (s1 & -> & Ht1 & _).
    exists s1. split; [exact Ht1|]. unfold bind.
    destruct (close_http s1) as [[] s2|e s2]; [|reflexivity].
    apply foreach_concat. }
  destruct Heq as (s1 & Ht1 & ->).
  destruct (close_http_cases s1) as [Ht2 Hok2].
  destruct (close_http s1) as [[] s2|e s2] eqn:Ec; cbn [final] in Ht2.
  - rewrite (bind_after_done _ _ _ Ec).
    destruct (foreach_close (discovered plugins) s2) as (n & Ht & Hd & Hok).
    exists n. rewrite Ht, Ht2, Ht1. split; [reflexivity|]. split.
    + exact Hd.
    + intros Hall _. now apply Hok.
  - rewrite (bind_after_raised _ _ _ Ec).
    exists 0. cbn [firstn map final]. rewrite app_nil_r, Ht2, Ht1.
    split; [reflexivity|]. split; [discriminate|].
    intros _ Hh. destruct (Hok2 Hh) as (s' & Hs'). discriminate Hs'.
Qed.

(** Plugin calls over a list when the call on [p] raises and the calls on
    the plugins before it return: the run raises for [p] with the call on
    [p] as the last one made. *)
Lemma plugin_calls_stop (mk : HHDPlugin -> Call)
    (f : HHDPlugin -> W -> Ext W unit) l1 p l2 s :
  (forall q w, In q l1 -> ext_ret (f q w) <> None) ->
  (forall w, ext_ret (f p w) = None) ->
  exists s2,
    foreach (l1 ++ p :: l2) (fun q => plugin_call (mk q) q (f q)) s
    = Raised (PluginFailure p) s2
    /\ trace s2 = trace s ++ map mk (l1 ++ [p]).
Proof.
  intros Hok Hbad. revert s.
  induction l1 as [|q r IH]; intros s; cbn [app foreach map].
  - unfold bind, plugin_call. rewrite Hbad. eexists.
    split; [reflexivity|]. read_fields. reflexivity.
  - destruct (plugin_call (mk q) q (f q) s) as [[] s1|e s1] eqn:Eq.
    + rewrite (bind_after_done _ _ _ Eq).
      apply plugin_call_done in Eq. destruct Eq as [_ Hs1].
      destruct IH with (s := s1) as (s2 & Hrun & Ht).
      { intros x w Hx. apply Hok. now right. }
      exists s2. split; [exact Hrun|]. rewrite Ht, Hs1. read_fields.
      now app_norm.
    + apply plugin_call_raised in Eq. destruct Eq as [Hnone _].
      now contradiction (Hok q (world s) (or_introl eq_refl)).
Qed.

Lemma finally_block_stops plugins l1 p l2 s :
  discovered plugins = l1 ++ p :: l2 ->
  (forall q w, In q l1 -> ext_ret (plugin_close q w) <> None) ->
  (forall w, ext_ret (plugin_close p w) = None) ->
  (forall h w, snd (http_close h w) = true) ->
  exists s2,
    finally_block plugins s = Raised (PluginFailure p) s2
    /\ trace s2 = trace s ++ map CClose (l1 ++ [p]).
Proof.
  intros Hsplit Hok Hbad Hhttp.
  assert (Heq : exists s1,
            trace s1 = trace s
            /\ finally_block plugins s
               = bind close_http (fun _ =>
                   foreach (discovered plugins)
                     (fun p => plugin_call (CClose p) p (plugin_close p))) s1).
  { unfold finally_block, bind at 1, gets at 1. unfold bind at 1.
    destruct (close_fds_done (cfg_fds s) s) as (s1 & -> & Ht1 & _).
    exists s1. split; [exact Ht1|]. unfold bind.
    destruct (close_http s1) as [[] s2|e s2]; [|reflexivity].
    apply foreach_concat. }
  destruct Heq as (s1 & Ht1 & ->).
  destruct (close_http_cases s1) as [Ht2 Hdone].
  destruct (Hdone Hhttp) as (s2 & Hclose).
  rewrite Hclose in Ht2. cbn [final] in Ht2.
  rewrite (bind_after_done _ _ _ Hclose), Hsplit.
  destruct (plugin_calls_stop CClose plugin_close l1 p l2 s2 Hok Hbad)
    as (s3 & Hrun & Ht3).
  exists s3. split; [exact Hrun|]. now rewrite Ht3, Ht2, Ht1.
Qed.

Lemma save_loop_logs t0 : stays (logged (may_log Saving) t0) save_loop.
Proof.
  intros s Hs. destruct (save_loop_spec s) as (w & saves & -> & _ & Ha).
  cbn [final]. cbv zeta. eapply logged_trans; [exact Hs|].
  assert (Hsaves : forallb (may_log Saving) saves = true).
  { rewrite forallb_forall in *. intros c Hc. specialize (Ha c Hc).
    now destruct c. }
  destruct (negb (should_initialize s) && wrote_any saves).
  - exists (saves ++ [CClear AfterSave]). split.
    + read_fields. now app_norm.
    + now rewrite forallb_app, Hsaves.
  - exists saves. now split.
Qed.

Lemma generation_logs sorted_plugins a t0 :
  stays (logged in_pass t0) (generation sorted_plugins a).
Proof.
  unfold generation.
  apply stays_bind.
  { apply stays_logged_weaken with (al := may_log Reloading);
      [intros t; apply initialize_logs|now intros []]. }
  intros _. apply stays_bind.
  { apply stays_logged_weaken with (al := drain_or_insert);
      [intros t; apply process_events_quiet|now intros []]. }
  intros changed. apply stays_bind; [apply validate_live_logs|].
  intros _. apply stays_bind.
  { apply stays_when, stays_modify. logged_leaf. }
  intros _. apply stays_bind.
  { apply stays_when.
    apply stays_logged_weaken with (al := may_log RunningPlugins);
      [intros t; apply run_plugins_logs|now intros []]. }
  intros _. apply stays_bind.
  { apply stays_logged_weaken with (al := may_log Saving);
      [intros t; apply save_loop_logs|now intros []]. }
  intros _. apply stays_bind; [apply push_http_logs|].
  intros _.
  apply stays_logged_weaken with (al := may_log Waiting);
    [intros t; apply wait_for_events_logs|now intros []].
Qed.

Lemma loop_logs sorted_plugins inputs t0 :
  stays (logged in_pass t0) (loop sorted_plugins inputs).
Proof.
  induction inputs as [|a rest IH]; intros s Hs; cbn [loop].
  - now destruct (should_exit s).
  - destruct (should_exit s); [exact Hs|].
    revert s Hs. apply stays_bind; [apply generation_logs|].
    intros _. exact IH.
Qed.

Lemma try_block_before_shutdown sorted_plugins inputs :
  stays (before_shutdown sorted_plugins) (try_block sorted_plugins inputs).
Proof.
  assert (Hopen : stays (before_shutdown sorted_plugins)
                    (open_plugins sorted_plugins)).
  { unfold open_plugins. apply stays_foreach_in. intros p Hp.
    apply stays_plugin_call. intros w h s [Hc Ho]. split.
    - read_fields. unfold closed in *. rewrite flat_map_app, Hc. reflexivity.
    - intros q. read_fields. unfold opened in *. rewrite flat_map_app.
      rewrite in_app_iff. cbn [flat_map app In].
      intros [Hq|[<-|[]]]; [now apply Ho|exact Hp]. }
  assert (Hloop : stays (before_shutdown sorted_plugins)
                    (loop sorted_plugins inputs)).
  { intros s [Hc Ho].
    pose proof (loop_logs sorted_plugins inputs (logged_refl _ s)) as Hl.
    assert (Hqc : closed (trace (final (loop sorted_plugins inputs s)))
                  = closed (trace s)).
    { unfold closed. eapply quiet_flat_map; [|exact Hl]. now intros []. }
    assert (Hqo : opened (trace (final (loop sorted_plugins inputs s)))
                  = opened (trace s)).
    { unfold opened. eapply quiet_flat_map; [|exact Hl]. now intros []. }
    split.
    - now rewrite Hqc.
    - intros p. rewrite Hqo. apply Ho. }
  unfold try_block. destruct sorted_plugins as [|p r].
  - apply stays_ret.
  - apply stays_bind; [exact Hopen|]. intros _. exact Hloop.
Qed.

Lemma closed_closes l : closed (map CClose l) = l.
Proof.
  unfold closed. induction l as [|p r IH]; [reflexivity|].
  cbn [map flat_map app]. now rewrite IH.
Qed.

Lemma opened_closes l : opened (map CClose l) = [].
Proof. induction l as [|p r IH]; [reflexivity|]. exact IH. Qed.

(** C4, as the code has it: when [main] ends, the log is what came before
    the shutdown followed by [close] calls on the discovered plugins in
    discovery order, up to the first failure; a run that returns has closed
    them all.  When no [close] and no closing of the HTTP surface raises,
    every discovered plugin is closed, hence every plugin that was opened,
    whether the loop ended by itself or by an exception.  A [close] that
    raises is not swallowed: when the [close] of [p] raises and those of the
    plugins discovered before [p] return, the exception of [p] leaves
    [main], whatever the loop had ended with, and the plugins closed are
    those up to [p]; the plugins after it are not closed. *)
Theorem shutdown_closes_plugins plugins inputs w e s :
  main true plugins inputs w = (e, s) -> e <> Running ->
  (exists pre n,
     trace s = pre ++ map CClose (firstn n (discovered plugins))
     /\ closed pre = []
     /\ forall p, In p (opened pre) -> In p (discovered plugins))
  /\ (e = Returned -> closed (trace s) = discovered plugins)
  /\ ((forall p w', In p (discovered plugins) ->
         ext_ret (plugin_close p w') <> None) ->
      (forall h w', snd (http_close h w') = true) ->
      closed (trace s) = discovered plugins
      /\ forall p, In p (opened (trace s)) -> In p (closed (trace s)))
  /\ (forall l1 p l2,
        discovered plugins = l1 ++ p :: l2 ->
        (forall q w', In q l1 -> ext_ret (plugin_close q w') <> None) ->
        (forall w', ext_ret (plugin_close p w') = None) ->
        (forall h w', snd (http_close h w') = true) ->
        e = Escaped (PluginFailure p) /\ closed (trace s) = l1 ++ [p]).
Proof.
  intros Hmain Hended.
  assert (Hall :
    (exists pre n,
       trace s = pre ++ map CClose (firstn n (discovered plugins))
       /\ closed pre = []
       /\ forall p, In p (opened pre) -> In p (discovered plugins))
    /\ (e = Returned -> closed (trace s) = discovered plugins)
    /\ ((forall p w', In p (discovered plugins) ->
           ext_ret (plugin_close p w') <> None) ->
        (forall h w', snd (http_close h w') = true) ->
        closed (trace s) = discovered plugins
        /\ forall p, In p (opened (trace s)) -> In p (closed (trace s)))).
  { revert Hmain Hended.
      unfold main. cbn [negb].
      set (sorted_plugins := sort_by_priority (discovered plugins)).
      pose proof (@try_block_before_shutdown sorted_plugins inputs
                    (init_state w)) as Hpre.
      assert (Hinit : before_shutdown sorted_plugins (init_state w))
        by (split; [reflexivity|intros p []]).
      specialize (Hpre Hinit). clear Hinit.
      assert (Hfin : forall s1,
                 before_shutdown sorted_plugins s1 ->
                 forall e1,
                 (finally_block plugins s1 = Done tt s -> e1 = e) ->
                 (forall e', finally_block plugins s1 = Raised e' s -> e <> Returned) ->
                 s = final (finally_block plugins s1) ->
                 (exists pre n,
                    trace s = pre ++ map CClose (firstn n (discovered plugins))
                    /\ closed pre = []
                    /\ forall p, In p (opened pre) -> In p (discovered plugins))
                 /\ (e = Returned -> closed (trace s) = discovered plugins)
                 /\ ((forall p w', In p (discovered plugins) ->
                        ext_ret (plugin_close p w') <> None) ->
                     (forall h w', snd (http_close h w') = true) ->
                     closed (trace s) = discovered plugins
                     /\ forall p, In p (opened (trace s)) ->
                                  In p (closed (trace s)))).
      { intros s1 [Hc Ho] e1 Hdone Hraised Hs.
        destruct (finally_block_spec plugins s1) as (n & Ht & Hd & Hok).
        rewrite <- Hs in Ht.
        assert (Hin : forall p, In p (opened (trace s1)) ->
                                In p (discovered plugins)).
        { intros p Hp. apply Ho in Hp.
          eapply Permutation_in; [apply sort_by_priority_perm|exact Hp]. }
        assert (Hall : firstn n (discovered plugins) = discovered plugins ->
                       closed (trace s) = discovered plugins
                       /\ forall p, In p (opened (trace s)) ->
                                    In p (closed (trace s))).
        { intros Hn. rewrite Ht, Hn. unfold closed, opened.
          rewrite !flat_map_app. fold (closed (trace s1)) (opened (trace s1)).
          fold (closed (map CClose (discovered plugins))).
          fold (opened (map CClose (discovered plugins))).
          rewrite Hc, closed_closes, opened_closes, app_nil_r. cbn [app].
          split; [reflexivity|exact Hin]. }
        split; [|split].
        - exists (trace s1), n. now repeat split.
        - intros He. apply Hall.
          destruct (finally_block plugins s1) as [[] s2|e2 s2] eqn:Ef;
            cbn [final] in Hs; subst s2.
          + exact (Hd _ eq_refl).
          + exfalso. now apply (Hraised e2).
        - intros Hp Hh. apply Hall. destruct (Hok Hp Hh) as (s2 & Hs2).
          apply (Hd s2 Hs2). }
      destruct (try_block sorted_plugins inputs (init_state w))
        as [[|] s1|e1 s1]; cbn [final] in Hpre.
      - destruct (finally_block plugins s1) as [[] s2|e2 s2] eqn:Ef;
          intros [= <- <-] _; apply (Hfin s1 Hpre Returned);
          rewrite ?Ef; try reflexivity; try discriminate.
      - intros [= <- <-] Hrun. now contradiction Hrun.
      - destruct (finally_block plugins s1) as [[] s2|e2 s2] eqn:Ef;
          intros [= <- <-] _; apply (Hfin s1 Hpre (Escaped e1));
          rewrite ?Ef; try reflexivity; try discriminate. }
  destruct Hall as (Hlog & Hret & Hok).
  split; [exact Hlog|]. split; [exact Hret|]. split; [exact Hok|].
  intros l1 p l2 Hsplit Hbefore Hbad Hhttp.
  revert Hmain Hended. unfold main. cbn [negb].
  set (sorted_plugins := sort_by_priority (discovered plugins)).
  pose proof (@try_block_before_shutdown sorted_plugins inputs
                (init_state w)) as Hpre.
  assert (Hinit : before_shutdown sorted_plugins (init_state w))
    by (split; [reflexivity|intros q []]).
  specialize (Hpre Hinit). clear Hinit.
  assert (Hfin : forall s1,
             before_shutdown sorted_plugins s1 ->
             exists s2,
               finally_block plugins s1 = Raised (PluginFailure p) s2
               /\ closed (trace s2) = l1 ++ [p]).
  { intros s1 [Hc _].
    destruct (@finally_block_stops plugins l1 p l2 s1 Hsplit Hbefore Hbad
                Hhttp)
      as (s2 & Hrun & Ht).
    exists s2. split; [exact Hrun|]. rewrite Ht. unfold closed in *.
    rewrite flat_map_app, Hc. apply closed_closes. }
  destruct (try_block sorted_plugins inputs (init_state w))
    as [[|] s1|e1 s1]; cbn [final] in Hpre.
  - destruct (Hfin s1 Hpre) as (s2 & -> & Hclosed).
    intros [= <- <-] _. now split.
  - intros [= <- <-] Hrun. now contradiction Hrun.
  - destruct (Hfin s1 Hpre) as (s2 & -> & Hclosed).
    intros [= <- <-] _. now split.
Qed.

End Shutdown.

(** C4, against the claim: [bad] and [good] are both opened; at shutdown
    [close] of [bad] raises, the exception leaves [main], and [good] is never
    closed. *)
Lemma close_failure_escalates :
  let r := @main Sample.outside true
             [("provider", [Sample.bad; Sample.good])] [Sample.terminate]
             Sample.empty_disk in
  fst r = Escaped (PluginFailure Sample.bad)
  /\ opened (trace (snd r)) = [Sample.bad; Sample.good]
  /\ closed (trace (snd r)) = [Sample.bad].
Proof. vm_compute. repeat split. Qed.

Lemma shutdown_closes_plugins_witness :
  closed (trace (snd (@main Sample.outside true
                        [("provider", [Sample.p10; Sample.p5; Sample.p20])]
                        [Sample.idle; Sample.terminate]
                        Sample.empty_disk)))
  = [Sample.p10; Sample.p5; Sample.p20].
Proof.
  refine (proj1 (proj1 (proj2 (proj2
            (@shutdown_closes_plugins Sample.outside
               [("provider", [Sample.p10; Sample.p5; Sample.p20])]
               [Sample.idle; Sample.terminate] Sample.empty_disk
               Returned _ _ _))) _ _)).
  - vm_compute. reflexivity.
  - discriminate.
  - intros p w' [<-|[<-|[<-|[]]]]; discriminate.
  - reflexivity.
Defined.

(** C1, at the failing input: the plugin [schema] passes a [Settings] event
    to the emitter inside [prepare]; the pass drained the buffer before the
    plugin calls and does not look at it between them, so [update] is called
    on [schema] in the same pass, under the settings that [schema] has just
    declared changed: the event is still in the buffer at the end of the
    pass and the reinitialize flag is not set. *)
Lemma update_follows_own_settings_event :
  let s0 := @init_state Sample.invalidating Sample.empty_disk in
  let pass := @generation Sample.invalidating [Sample.schema] Sample.idle in
  EmitHolder._events
    (emit (final (@prepare Sample.invalidating Sample.schema s0)))
  = [EvSettings]
  /\ pass s0 = Done tt (final (pass s0))
  /\ runs (trace (final (pass s0)))
     = [CPrepare Sample.schema; CUpdate Sample.schema]
  /\ EmitHolder._events (emit (final (pass s0))) = [EvSettings]
  /\ should_initialize (final (pass s0)) = false.
Proof. vm_compute. repeat split. Qed.

Lemma settings_event_defers_plugins_witness :
  runs (trace (final (@generation Sample.outside [Sample.good]
                        Sample.idle
                        (set_emit (EmitHolder.Make [EvSettings; EvApply "racer"])
                           Sample.with_racer))))
  = [].
Proof.
  exact (proj1 (@settings_event_defers_plugins Sample.outside [Sample.good]
                  Sample.idle
                  (set_emit (EmitHolder.Make [EvSettings; EvApply "racer"])
                     Sample.with_racer)
                  eq_refl)).
Defined.

(* ------------------------------------------------------------------ *)
(** ** More on the event bus *)

(** X1: passing a sequence to the emitter leaves the buffer as passing its
    events one at a time, in order, does. *)
Theorem emit_sequence_is_emit_each events h :
  EmitHolder.call (Many events) h
  = fold_left (fun h e => EmitHolder.call (One e) h) events h.
Proof.
  revert h. induction events as [|e r IH]; intros h; cbn [fold_left].
  - unfold EmitHolder.call. rewrite app_nil_r. now destruct h.
  - rewrite <- IH. unfold EmitHolder.call. cbn [EmitHolder._events].
    now rewrite <- app_assoc.
Qed.

(** X2: [has_events] says whether a drain would return something: it is
    false exactly when the batch drained is empty, it is true after an emit
    exactly when the buffer held an event or the emit carried one, and it is
    false after every drain. *)
Theorem has_events_foretells_drain h :
  (EmitHolder.has_events h = false <-> fst (EmitHolder.drain h) = [])
  /\ (forall arg,
        EmitHolder.has_events (EmitHolder.call arg h)
        = EmitHolder.has_events h
          || match EmitHolder.carried arg with [] => false | _ :: _ => true end)
  /\ EmitHolder.has_events (snd (EmitHolder.drain h)) = false.
Proof.
  rewrite BusFacts.drain_swaps. cbn [fst snd]. split; [|split].
  - unfold EmitHolder.has_events. destruct (EmitHolder._events h);
      split; intros E; try reflexivity; discriminate E.
  - intros arg. unfold EmitHolder.has_events.
    rewrite BusFacts.call_appends.
    destruct (EmitHolder._events h), (EmitHolder.carried arg); reflexivity.
  - reflexivity.
Qed.

(* ------------------------------------------------------------------ *)
(** ** Profile names and profile files *)

Lemma startswith_yml_across name :
  name <> EmptyString ->
  startswith ".yml" (name ++ ".yml") = true ->
  startswith ".yml" name = true.
Proof.
  intros Hne.
  destruct name as [|c1 [|c2 [|c3 [|c4 r]]]]; [congruence| | | |];
    cbn [String.append startswith]; intros E;
    repeat (apply andb_true_iff in E; destruct E as [? E]);
    repeat match goal with
           | Hc : Ascii.eqb _ _ = true |- _ =>
               apply Ascii.eqb_eq in Hc; try discriminate Hc; subst
           end;
    reflexivity.
Qed.

Lemma remove_yml_suffix fuel name :
  occurs ".yml" name = false ->
  String.length name + 2 <= fuel ->
  remove_all fuel ".yml" (name ++ ".yml") = name.
Proof.
  revert fuel. induction name as [|c r IH]; intros fuel Hocc Hfuel.
  - destruct fuel as [|[|fuel]]; [cbn in Hfuel; lia|cbn in Hfuel; lia|].
    reflexivity.
  - destruct fuel as [|fuel]; [lia|].
    cbn [occurs] in Hocc. apply orb_false_iff in Hocc.
    destruct Hocc as [Hhere Hrest].
    assert (Hno : startswith ".yml" (String c r ++ ".yml") = false).
    { destruct (startswith ".yml" (String c r ++ ".yml")) eqn:E;
        [|reflexivity].
      apply startswith_yml_across in E; [congruence|discriminate]. }
    cbn [remove_all]. cbn [String.append] in *. rewrite Hno.
    f_equal. apply IH; [exact Hrest|]. cbn [String.length] in Hfuel. lia.
Qed.

Lemma length_append a b :
  String.length (a ++ b) = String.length a + String.length b.
Proof. induction a as [|c r IH]; cbn; [reflexivity|]. now rewrite IH. Qed.

Lemma endswith_append a b : endswith b (a ++ b) = true.
Proof.
  induction a as [|c r IH].
  - cbn [String.append]. destruct b; cbn [endswith];
      now rewrite String.eqb_refl.
  - cbn [String.append endswith]. rewrite IH. apply orb_true_r.
Qed.

(** X3: the file name a profile is saved under leads back to the profile at
    the next reload: for a name that nowhere contains [.yml], the file
    [name.yml] passes the suffix test of the scan and its profile name is
    [name] again. *)
Theorem profile_file_name_round_trip name :
  occurs ".yml" name = false ->
  endswith ".yml" (name ++ ".yml") = true
  /\ profile_name (name ++ ".yml") = name.
Proof.
  intros Hocc. split; [apply endswith_append|].
  unfold profile_name. apply remove_yml_suffix; [exact Hocc|].
  rewrite length_append. cbn. lia.
Qed.

Lemma profile_file_name_round_trip_witness :
  profile_name ("racer" ++ ".yml") = "racer".
Proof.
  exact (proj2 (profile_file_name_round_trip "racer" eq_refl)).
Defined.

(* ------------------------------------------------------------------ *)
(** ** The pass and the wait *)

Section Split.
Context `{External}.

Lemma generation_split sorted_plugins a s :
  generation sorted_plugins a s
  = bind (pass_body sorted_plugins)
      (fun changed => wait_for_events changed a) s.
Proof.
  unfold generation, pass_body, bind.
  repeat match goal with
         | |- match match ?x with _ => _ end with _ => _ end = _ =>
             destruct x; [|reflexivity]
         | |- match ?x with _ => _ end = _ => destruct x; [|reflexivity]
         end.
  reflexivity.
Qed.

Lemma final_bind_cases {A B} (P : State -> Prop) (m : M A) (k : A -> M B) s :
  (forall e s1, m s = Raised e s1 -> P s1) ->
  (forall a s1, m s = Done a s1 -> P (final (k a s1))) ->
  P (final (bind m k s)).
Proof.
  intros Hr Hd. rewrite final_bind.
  destruct (m s) as [a s1|e s1]; [now apply Hd|now apply (Hr e)].
Qed.

(** The wait never raises: it logs [CWait] when it sleeps, and then the
    arrivals of the pass are taken in. *)
Lemma wait_for_events_final changed a s :
  wait_for_events changed a s
  = Done tt
      (arrive a
         (set_trace
            (trace s
               ++ (if negb (should_exit s) && negb changed
                      && negb (should_initialize s)
                      && negb (EmitHolder.has_events (emit s))
                   then [CWait] else [])) s)).
Proof.
  unfold wait_for_events, bind, with_lock, gets, when, modify, ret.
  read_fields.
  destruct (negb (should_exit s) && negb changed
            && negb (should_initialize s)
            && negb (EmitHolder.has_events (emit s)));
    do 2 f_equal; state_fields. now rewrite app_nil_r.
Qed.

Lemma notifiers_exit sigs s :
  should_exit (fold_left (fun s sig => notifier sig s) sigs s)
  = should_exit s || existsb is_term sigs.
Proof.
  revert s. induction sigs as [|sig r IH]; intros s; cbn [fold_left existsb].
  - now rewrite orb_false_r.
  - rewrite IH. destruct sig; cbn; try reflexivity;
      now rewrite ?orb_true_r, ?orb_false_l.
Qed.

Lemma arrive_exit a s :
  should_exit (arrive a s) = should_exit s || existsb is_term (signals a).
Proof. unfold arrive. read_fields. apply notifiers_exit. Qed.

End Split.

(** What a part of the pass keeps when it writes no field that [P] reads:
    here [P] may read [should_exit] alone. *)
Section Frame.
Context `{External}.
Variable P : State -> Prop.
Hypothesis Hworld : forall s v, P s -> P (set_world v s).
Hypothesis Hemit : forall s v, P s -> P (set_emit v s).
Hypothesis Hflag : forall s v, P s -> P (set_should_initialize v s).
Hypothesis Hfirst : forall s v, P s -> P (set_initial_run v s).
Hypothesis Hsettings : forall s v, P s -> P (set_settings v s).
Hypothesis Hconf : forall s v, P s -> P (set_conf v s).
Hypothesis Hprofiles : forall s v, P s -> P (set_profiles v s).
Hypothesis Htemplates : forall s v, P s -> P (set_templates v s).
Hypothesis Hfds : forall s v, P s -> P (set_cfg_fds v s).
Hypothesis Hhttps : forall s v, P s -> P (set_https v s).
Hypothesis Hprev : forall s v, P s -> P (set_prev_http_cfg v s).
Hypothesis Hlock : forall s v, P s -> P (set_lock_depth v s).
Hypothesis Htrace : forall s v, P s -> P (set_trace v s).

Lemma frame_record c s : P s -> P (record c s).
Proof. unfold record. apply Htrace. Qed.

Ltac framed :=
  intros;
  repeat match goal with
         | |- context [match ?x with _ => _ end] => destruct x
         end;
  repeat first
    [ assumption | apply frame_record | apply Hworld | apply Hemit
    | apply Hflag | apply Hfirst | apply Hsettings | apply Hconf
    | apply Hprofiles | apply Htemplates | apply Hfds | apply Hhttps
    | apply Hprev | apply Hlock | apply Htrace ].

Lemma initialize_frame sorted_plugins : stays P (initialize sorted_plugins).
Proof.
  unfold initialize, reload_settings, reload_state, reload_profiles,
    rearm_watches, load_profile, insert_profile, reconcile_http, close_http,
    push_http, http_bool, http_int.
  stays_with framed.
Qed.

Lemma process_events_frame : stays P process_events.
Proof.
  apply process_events_stays; [framed|].
  intros ev c. unfold process_event, validate_profile, insert_profile.
  destruct ev; stays_with framed.
Qed.

Lemma run_plugins_frame sorted_plugins : stays P (run_plugins sorted_plugins).
Proof. unfold run_plugins, prepare, update. stays_with framed. Qed.

Lemma save_loop_frame : stays P save_loop.
Proof.
  intros s Hs. destruct (save_loop_spec s) as (w & saves & -> & _).
  cbn [final]. cbv zeta.
  destruct (negb (should_initialize s) && wrote_any saves); framed.
Qed.

Lemma pass_body_frame sorted_plugins : stays P (pass_body sorted_plugins).
Proof.
  unfold pass_body.
  apply stays_bind; [apply initialize_frame|]. intros _.
  apply stays_bind; [apply process_events_frame|]. intros changed.
  apply stays_bind; [unfold validate_live; stays_with framed|]. intros _.
  apply stays_bind; [stays_with framed|]. intros _.
  apply stays_bind; [apply stays_when, run_plugins_frame|]. intros _.
  apply stays_bind; [apply save_loop_frame|]. intros _.
  apply stays_bind; [unfold push_http; stays_with framed|]. intros _.
  apply stays_ret.
Qed.

End Frame.

Section Exit.
Context `{External}.

Lemma pass_body_keeps_exit sorted_plugins x :
  stays (fun s => should_exit s = x) (pass_body sorted_plugins).
Proof. apply pass_body_frame; intros s v Hs; exact Hs. Qed.

(** X4: [should_exit] is set by the handlers of SIGINT and SIGTERM and by
    nothing else, and nothing clears it: a pass that runs to its end ends
    with the flag set exactly when it was set before or one of the two
    signals arrived during the pass, and after a pass during which one
    arrived the loop makes no further pass. *)
Theorem exit_only_by_signal sorted_plugins a s :
  (forall s',
     generation sorted_plugins a s = Done tt s' ->
     should_exit s' = should_exit s || existsb is_term (signals a))
  /\ (forall s' rest,
        should_exit s = false ->
        existsb is_term (signals a) = true ->
        generation sorted_plugins a s = Done tt s' ->
        loop sorted_plugins (a :: rest) s = Done true s').
Proof.
  assert (Hpass := @pass_body_keeps_exit sorted_plugins _ s eq_refl).
  assert (Hdone : forall s',
             generation sorted_plugins a s = Done tt s' ->
             should_exit s' = should_exit s || existsb is_term (signals a)).
  { intros s'. rewrite generation_split. unfold bind.
    destruct (pass_body sorted_plugins s) as [changed s1|e s1];
      [|discriminate].
    cbn [final] in Hpass. rewrite wait_for_events_final.
    intros [= <-]. rewrite arrive_exit. read_fields. now rewrite Hpass. }
  split; [exact Hdone|].
  intros s' rest Hexit Hterm Hrun. cbn [loop]. rewrite Hexit.
  unfold bind. rewrite Hrun.
  pose proof (Hdone s' Hrun) as Hs'. rewrite Hexit, Hterm in Hs'.
  destruct rest; cbn [loop]; now rewrite Hs'.
Qed.

End Exit.

Lemma exit_only_by_signal_witness :
  @loop Sample.outside [Sample.good] [Sample.terminate; Sample.idle]
    Sample.with_racer
  = Done true
      (final (@generation Sample.outside [Sample.good] Sample.terminate
                Sample.with_racer)).
Proof.
  apply (proj2 (@exit_only_by_signal Sample.outside [Sample.good]
                  Sample.terminate Sample.with_racer)).
  - reflexivity.
  - reflexivity.
  - vm_compute. reflexivity.
Defined.

(* ------------------------------------------------------------------ *)
(** ** How a pass ends *)

Section PassEnds.
Context `{External}.

Lemma foreach_prefix {X} (mk : X -> Call) (body : X -> M unit) l s :
  (forall x s, trace (final (body x s)) = trace s ++ [mk x]) ->
  exists n,
    n <= List.length l
    /\ trace (final (foreach l body s)) = trace s ++ map mk (firstn n l)
    /\ (forall s', foreach l body s = Done tt s' -> firstn n l = l).
Proof.
  intros Hbody. revert s.
  induction l as [|x r IH]; intros s; cbn [foreach].
  - exists 0. cbn. rewrite app_nil_r. repeat split; auto.
  - pose proof (Hbody x s) as Hx.
    destruct (body x s) as [[] s1|e s1] eqn:Ex; cbn [final] in Hx.
    + rewrite (bind_after_done _ _ _ Ex).
      destruct (IH s1) as (n & Hn & Ht & Hd). exists (S n).
      cbn [firstn map List.length]. split; [lia|]. split.
      * rewrite Ht, Hx. now app_norm.
      * intros s' Hrun. f_equal. exact (Hd s' Hrun).
    + rewrite (bind_after_raised _ _ _ Ex).
      exists 1. cbn [firstn map final List.length]. split; [lia|].
      split; [exact Hx|discriminate].
Qed.

Lemma prepare_logs_call p s :
  trace (final (prepare p s)) = trace s ++ [CPrepare p].
Proof.
  unfold prepare, bind, gets, plugin_call, modify.
  destruct (ext_ret (plugin_prepare p (conf s) (world s))); reflexivity.
Qed.

Lemma update_logs_call p s :
  trace (final (update p s)) = trace s ++ [CUpdate p].
Proof.
  unfold update, bind, gets, plugin_call, modify.
  destruct (ext_ret (plugin_update p (conf s) (world s))); reflexivity.
Qed.

(** The plugin calls of a pass stop at the first call that raises. *)
Lemma run_plugins_prefix sorted_plugins s :
  exists n,
    trace (final (run_plugins sorted_plugins s))
    = trace s ++ firstn n (plugin_pass sorted_plugins).
Proof.
  unfold run_plugins, plugin_pass. rewrite final_bind.
  destruct (foreach_prefix CPrepare prepare (rev sorted_plugins) s
              prepare_logs_call) as (n1 & Hn1 & Ht1 & Hd1).
  destruct (foreach (rev sorted_plugins) prepare s) as [[] s1|e s1];
    cbn [final] in Ht1.
  - destruct (foreach_prefix CUpdate update sorted_plugins s1
                update_logs_call) as (n2 & _ & Ht2 & _).
    exists (List.length (map CPrepare (rev sorted_plugins)) + n2).
    rewrite firstn_app_2, Ht2, Ht1, (Hd1 _ eq_refl), firstn_map.
    now rewrite <- app_assoc.
  - exists n1. rewrite firstn_app, firstn_map, Ht1.
    replace (n1 - List.length (map CPrepare (rev sorted_plugins))) with 0
      by (rewrite length_map; lia).
    cbn [firstn]. now rewrite app_nil_r.
Qed.

Lemma tail_done (changed : bool) s :
  exists s',
    bind save_loop (fun _ => bind push_http (fun _ => ret changed)) s
    = Done changed s'.
Proof.
  destruct (save_loop_spec s) as (w & saves & Hsave & _).
  rewrite (bind_after_done _ _ _ Hsave).
  match goal with
  | |- context [bind push_http _ ?x] =>
      destruct (push_http_done x) as (w' & Hpush)
  end.
  rewrite (bind_after_done _ _ _ Hpush). eauto.
Qed.

(** How the body of the loop ends: with whether the batch held a
    [Settings] event, or by an exception raised before the save loop, in
    the reload, the event processing, the validation or a plugin call. *)
Lemma pass_body_cases sorted_plugins s :
  match pass_body sorted_plugins s with
  | Done changed _ =>
      changed = existsb is_settings (EmitHolder._events (emit s))
  | Raised _ s' =>
      exists d n,
        trace s' = trace s ++ d ++ firstn n (plugin_pass sorted_plugins)
        /\ forallb early d = true
  end.
Proof.
  unfold pass_body.
  pose proof (initialize_logs sorted_plugins (logged_refl _ s)) as H1.
  pose proof (@initialize_keeps_emit _ sorted_plugins _ s eq_refl) as He.
  unfold bind at 1.
  destruct (initialize sorted_plugins s) as [[] s1|e s1]; cbn [final] in *.
  2:{ destruct H1 as (d & Hd & Ha). exists d, 0. cbn [firstn].
      rewrite app_nil_r. split; [exact Hd|].
      rewrite forallb_forall in *. intros c Hc. specialize (Ha c Hc).
      destruct c; try discriminate Ha; try reflexivity.
      now destruct site. }
  assert (Hq1 : logged early (trace s) s1).
  { revert H1. apply logged_weaken.
    intros [] Hc; try discriminate Hc; auto; now destruct site. }
  clear H1.
  pose proof (process_events_quiet (logged_refl _ s1)) as H2.
  pose proof (@process_events_flag _ s1) as Hflag.
  unfold bind at 1.
  destruct (process_events s1) as [changed s2|e s2]; cbn [final] in *.
  2:{ assert (Hq2 : logged early (trace s) s2).
      { eapply logged_trans; [exact Hq1|].
        revert H2. apply logged_weaken. now intros []. }
      destruct Hq2 as (d & Hd & Ha). exists d, 0. cbn [firstn].
      now rewrite app_nil_r. }
  assert (Hq2 : logged early (trace s) s2).
  { eapply logged_trans; [exact Hq1|].
    revert H2. apply logged_weaken. now intros []. }
  clear H2 Hq1.
  rewrite (Hflag _ _ eq_refl), He. clear Hflag.
  pose proof (@validate_live_logs _ early _ s2 Hq2) as H3.
  unfold bind at 1.
  destruct (validate_live s2) as [[] s3|e s3]; cbn [final] in *.
  2:{ destruct H3 as (d & Hd & Ha). exists d, 0. cbn [firstn].
      now rewrite app_nil_r. }
  destruct (existsb is_settings (EmitHolder._events (emit s)));
    cbn [when negb]; unfold bind at 1.
  - unfold modify at 1. unfold bind at 1, ret at 1.
    match goal with
    | |- match ?t ?x with _ => _ end =>
        destruct (tail_done true x) as (s' & Htail)
    end.
    now rewrite Htail.
  - unfold ret at 1. unfold bind at 1.
    destruct (run_plugins_prefix sorted_plugins s3) as (n & Hn).
    destruct (run_plugins sorted_plugins s3) as [[] s4|e s4];
      cbn [final] in Hn.
    + destruct (tail_done false s4) as (s' & Htail). now rewrite Htail.
    + destruct H3 as (d & Hd & Ha). exists d, n.
      rewrite Hn, Hd. now rewrite <- app_assoc.
Qed.

Lemma pass_body_logs sorted_plugins t0 :
  stays (logged in_body t0) (pass_body sorted_plugins).
Proof.
  unfold pass_body.
  apply stays_bind.
  { apply stays_logged_weaken with (al := may_log Reloading);
      [intros t; apply initialize_logs|now intros []]. }
  intros _. apply stays_bind.
  { apply stays_logged_weaken with (al := drain_or_insert);
      [intros t; apply process_events_quiet|now intros []]. }
  intros changed. apply stays_bind; [apply validate_live_logs|].
  intros _. apply stays_bind.
  { apply stays_when, stays_modify. logged_leaf. }
  intros _. apply stays_bind.
  { apply stays_when.
    apply stays_logged_weaken with (al := may_log RunningPlugins);
      [intros t; apply run_plugins_logs|now intros []]. }
  intros _. apply stays_bind.
  { apply stays_logged_weaken with (al := may_log Saving);
      [intros t; apply save_loop_logs|now intros []]. }
  intros _. apply stays_bind; [apply push_http_logs|].
  intros _. apply stays_ret.
Qed.

Lemma forallb_firstn {A} (f : A -> bool) n l :
  forallb f l = true -> forallb f (firstn n l) = true.
Proof.
  revert n. induction l as [|x r IH]; intros [|n] Hl; try reflexivity.
  cbn [forallb firstn] in *. apply andb_true_iff in Hl.
  destruct Hl as [-> Hr]. now apply IH.
Qed.

(** X5: a pass whose batch holds a [Settings] event never sleeps in the
    wait, however it ends: it goes straight on to the reload. *)
Theorem settings_pass_never_waits sorted_plugins a s :
  existsb is_settings (EmitHolder._events (emit s)) = true ->
  filter is_wait (trace (final (generation sorted_plugins a s)))
  = filter is_wait (trace s).
Proof.
  intros Hb. rewrite generation_split, final_bind.
  pose proof (pass_body_logs sorted_plugins (logged_refl _ s)) as Hl.
  pose proof (pass_body_cases sorted_plugins s) as Hc.
  assert (Hquiet : forall s1, logged in_body (trace s) s1 ->
                     filter is_wait (trace s1) = filter is_wait (trace s)).
  { intros s1 H1. eapply quiet_filter; [|exact H1]. now intros []. }
  destruct (pass_body sorted_plugins s) as [changed s1|e s1];
    cbn [final] in Hl.
  - rewrite Hc, Hb, wait_for_events_final. cbn [final].
    rewrite arrive_keeps_trace. read_fields.
    rewrite !andb_false_r. cbn [andb]. rewrite app_nil_r.
    now apply Hquiet.
  - now apply Hquiet.
Qed.

Ltac split_binds :=
  unfold bind, ret; cbn beta iota;
  repeat match goal with
         | |- match match ?x with _ => _ end with _ => _ end = _ =>
             destruct x; [|reflexivity]
         | |- match ?x with _ => _ end = _ => destruct x; [|reflexivity]
         end;
  try reflexivity.

Lemma generation_parts sorted_plugins a s :
  generation sorted_plugins a s
  = bind (before_plugins sorted_plugins) (fun changed =>
    bind (when (negb changed) (run_plugins sorted_plugins)) (fun _ =>
    bind save_loop (fun _ =>
    bind push_http (fun _ => wait_for_events changed a)))) s.
Proof. unfold generation, before_plugins. split_binds. Qed.

Lemma pass_body_parts sorted_plugins s :
  pass_body sorted_plugins s
  = bind (before_save_loop sorted_plugins) (fun changed =>
    bind save_loop (fun _ => bind push_http (fun _ => ret changed))) s.
Proof.
  unfold pass_body, before_save_loop, before_plugins. split_binds.
Qed.

Lemma before_plugins_logs sorted_plugins t0 :
  stays (logged quiet_pass t0) (before_plugins sorted_plugins).
Proof.
  unfold before_plugins.
  apply stays_bind.
  { apply stays_logged_weaken with (al := may_log Reloading);
      [intros t; apply initialize_logs|].
    intros [] Hc; try discriminate Hc; auto; now destruct site. }
  intros _. apply stays_bind.
  { apply stays_logged_weaken with (al := drain_or_insert);
      [intros t; apply process_events_quiet|now intros []]. }
  intros changed. apply stays_bind; [apply validate_live_logs|].
  intros _. apply stays_bind; [|intros _; apply stays_ret].
  apply stays_when, stays_modify. logged_leaf.
Qed.

(** X6: an exception raised before the save loop, in the reload, the
    event processing, the validation or a plugin call, ends the pass there:
    it leaves the pass as it was raised, and nothing was saved in the pass,
    neither the state nor a profile, and the flag was not cleared after a
    save. *)
Theorem exception_before_save_saves_nothing sorted_plugins a s e s' :
  before_save_loop sorted_plugins s = Raised e s' ->
  generation sorted_plugins a s = Raised e s'
  /\ filter is_save (trace s') = filter is_save (trace s)
  /\ clears AfterSave (trace s') = clears AfterSave (trace s).
Proof.
  intros Hraised.
  assert (Hbody : pass_body sorted_plugins s = Raised e s').
  { rewrite pass_body_parts. exact (bind_after_raised _ _ _ Hraised). }
  split.
  { rewrite generation_split. exact (bind_after_raised _ _ _ Hbody). }
  pose proof (pass_body_cases sorted_plugins s) as Hc.
  rewrite Hbody in Hc. destruct Hc as (d & n & -> & Ha).
  pose proof (forallb_firstn _ n _ (plugin_pass_runs sorted_plugins)) as Hr.
  unfold clears. rewrite !filter_app.
  rewrite (filter_skip is_save early d), ?app_nil_l; auto;
    [|now intros []].
  rewrite (filter_skip is_save is_run (firstn n _)), ?app_nil_r; auto;
    [|now intros []].
  split; [reflexivity|]. f_equal.
  rewrite (filter_skip _ early d), ?app_nil_l; auto;
    [|intros [] Hx; try discriminate Hx; try reflexivity;
      now destruct site].
  rewrite (filter_skip _ is_run (firstn n _)), ?app_nil_r; auto.
  now intros [].
Qed.

(** A loop over a list whose body logs one call: when the body raises on
    [x] and returns on what comes before [x], the loop raises as the body
    did, with the call on [x] as the last one logged. *)
Lemma foreach_stops {X} (mk : X -> Call) (body : X -> M unit) e l1 x l2 s :
  (forall q s0, In q l1 ->
     exists s1, body q s0 = Done tt s1 /\ trace s1 = trace s0 ++ [mk q]) ->
  (forall s0,
     exists s1, body x s0 = Raised e s1 /\ trace s1 = trace s0 ++ [mk x]) ->
  exists s2,
    foreach (l1 ++ x :: l2) body s = Raised e s2
    /\ trace s2 = trace s ++ map mk (l1 ++ [x]).
Proof.
  intros Hok Hbad. revert s.
  induction l1 as [|q r IH]; intros s; cbn [app foreach map].
  - destruct (Hbad s) as (s1 & Hx & Ht). exists s1.
    split; [exact (bind_after_raised _ _ _ Hx)|exact Ht].
  - destruct (Hok q s (or_introl eq_refl)) as (s1 & Hq & Ht).
    rewrite (bind_after_done _ _ _ Hq).
    destruct IH with (s := s1) as (s2 & Hrun & Ht2).
    { intros y s0 Hy. apply Hok. now right. }
    exists s2. split; [exact Hrun|]. rewrite Ht2, Ht. now app_norm.
Qed.

Lemma foreach_returns {X} (mk : X -> Call) (body : X -> M unit) l s :
  (forall q s0, In q l ->
     exists s1, body q s0 = Done tt s1 /\ trace s1 = trace s0 ++ [mk q]) ->
  exists s2,
    foreach l body s = Done tt s2 /\ trace s2 = trace s ++ map mk l.
Proof.
  intros Hok. revert s.
  induction l as [|q r IH]; intros s; cbn [foreach map].
  - exists s. split; [reflexivity|]. now rewrite app_nil_r.
  - destruct (Hok q s (or_introl eq_refl)) as (s1 & Hq & Ht).
    rewrite (bind_after_done _ _ _ Hq).
    destruct IH with (s := s1) as (s2 & Hrun & Ht2).
    { intros y s0 Hy. apply Hok. now right. }
    exists s2. split; [exact Hrun|]. rewrite Ht2, Ht. now app_norm.
Qed.

Lemma prepare_returns q s :
  (forall c w, ext_ret (plugin_prepare q c w) <> None) ->
  exists s1, prepare q s = Done tt s1 /\ trace s1 = trace s ++ [CPrepare q].
Proof.
  intros Hok. pose proof (prepare_logs_call q s) as Ht.
  destruct (prepare q s) as [[] s1|e s1] eqn:Eq; cbn [final] in Ht.
  - now exists s1.
  - exfalso. revert Eq. unfold prepare, bind, gets, plugin_call, modify.
    pose proof (Hok (conf s) (world s)) as Hs.
    destruct (ext_ret (plugin_prepare q (conf s) (world s)));
      [discriminate|now contradiction Hs].
Qed.

Lemma prepare_raises p s :
  (forall c w, ext_ret (plugin_prepare p c w) = None) ->
  exists s1,
    prepare p s = Raised (PluginFailure p) s1
    /\ trace s1 = trace s ++ [CPrepare p].
Proof.
  intros Hbad. pose proof (prepare_logs_call p s) as Ht. revert Ht.
  unfold prepare, bind, gets, plugin_call, modify.
  rewrite (Hbad (conf s) (world s)). cbn [final]. intros Ht.
  eexists. split; [reflexivity|exact Ht].
Qed.

Lemma update_returns q s :
  (forall c w, ext_ret (plugin_update q c w) <> None) ->
  exists s1, update q s = Done tt s1 /\ trace s1 = trace s ++ [CUpdate q].
Proof.
  intros Hok. pose proof (update_logs_call q s) as Ht.
  destruct (update q s) as [[] s1|e s1] eqn:Eq; cbn [final] in Ht.
  - now exists s1.
  - exfalso. revert Eq. unfold update, bind, gets, plugin_call, modify.
    pose proof (Hok (conf s) (world s)) as Hs.
    destruct (ext_ret (plugin_update q (conf s) (world s)));
      [discriminate|now contradiction Hs].
Qed.

Lemma update_raises p s :
  (forall c w, ext_ret (plugin_update p c w) = None) ->
  exists s1,
    update p s = Raised (PluginFailure p) s1
    /\ trace s1 = trace s ++ [CUpdate p].
Proof.
  intros Hbad. pose proof (update_logs_call p s) as Ht. revert Ht.
  unfold update, bind, gets, plugin_call, modify.
  rewrite (Hbad (conf s) (world s)). cbn [final]. intros Ht.
  eexists. split; [reflexivity|exact Ht].
Qed.

Lemma runs_prepares l : runs (map CPrepare l) = map CPrepare l.
Proof.
  unfold runs. apply filter_all. apply forallb_forall. intros c Hc.
  apply in_map_iff in Hc. now destruct Hc as (p & <- & _).
Qed.

Lemma runs_updates l : runs (map CUpdate l) = map CUpdate l.
Proof.
  unfold runs. apply filter_all. apply forallb_forall. intros c Hc.
  apply in_map_iff in Hc. now destruct Hc as (p & <- & _).
Qed.

(** From the plugin calls on, a pass that reached them without a
    [Settings] event raises when [run_plugins] does. *)
Lemma generation_raises_in_plugins sorted_plugins a s s1 e s2 calls :
  before_plugins sorted_plugins s = Done false s1 ->
  run_plugins sorted_plugins s1 = Raised e s2 ->
  trace s2 = trace s1 ++ calls -> runs calls = calls ->
  generation sorted_plugins a s = Raised e s2
  /\ runs (trace s2) = runs (trace s) ++ calls.
Proof.
  intros Hbefore Hrun Ht Hcalls. split.
  - rewrite generation_parts, (bind_after_done _ _ _ Hbefore).
    cbn [negb when]. exact (bind_after_raised _ _ _ Hrun).
  - pose proof (before_plugins_logs sorted_plugins (logged_refl _ s)) as Hl.
    rewrite Hbefore in Hl. cbn [final] in Hl.
    rewrite Ht. unfold runs in *. rewrite filter_app, Hcalls. f_equal.
    eapply quiet_filter; [|exact Hl]. now intros [].
Qed.

(** X7: in every pass, however it ends, the plugin calls made are an
    initial part of the calls of a full pass, [prepare] on the sorted list
    backwards and then [update] on it forwards; a pass that ends normally
    made all of them or, for a [Settings] batch, none.  A plugin call that
    raises is the last call of the pass and its exception leaves the pass:
    when the pass reaches the plugin calls and the [prepare] of [p] raises,
    those before it returning, the pass raises for [p] having called
    [prepare] up to [p] and nothing else; likewise when every [prepare]
    returns and the [update] of [p] raises. *)
Theorem plugin_calls_stop_at_failure sorted_plugins a s :
  (exists n,
     runs (trace (final (generation sorted_plugins a s)))
     = runs (trace s) ++ firstn n (plugin_pass sorted_plugins)
     /\ (forall s',
           generation sorted_plugins a s = Done tt s' ->
           firstn n (plugin_pass sorted_plugins)
           = if existsb is_settings (EmitHolder._events (emit s))
             then [] else plugin_pass sorted_plugins))
  /\ (forall l1 p l2 s1,
        rev sorted_plugins = l1 ++ p :: l2 ->
        (forall q c w, In q l1 -> ext_ret (plugin_prepare q c w) <> None) ->
        (forall c w, ext_ret (plugin_prepare p c w) = None) ->
        before_plugins sorted_plugins s = Done false s1 ->
        exists s',
          generation sorted_plugins a s = Raised (PluginFailure p) s'
          /\ runs (trace s') = runs (trace s) ++ map CPrepare (l1 ++ [p]))
  /\ (forall l1 p l2 s1,
        sorted_plugins = l1 ++ p :: l2 ->
        (forall q c w, In q sorted_plugins ->
           ext_ret (plugin_prepare q c w) <> None) ->
        (forall q c w, In q l1 -> ext_ret (plugin_update q c w) <> None) ->
        (forall c w, ext_ret (plugin_update p c w) = None) ->
        before_plugins sorted_plugins s = Done false s1 ->
        exists s',
          generation sorted_plugins a s = Raised (PluginFailure p) s'
          /\ runs (trace s')
             = runs (trace s) ++ map CPrepare (rev sorted_plugins)
                 ++ map CUpdate (l1 ++ [p])).
Proof.
  split; [|split].
  - destruct (generation sorted_plugins a s) as [[] s1|e s1] eqn:Egen;
      cbn [final].
    + pose proof (generation_runs _ _ _ Egen) as Hr.
      destruct (existsb is_settings (EmitHolder._events (emit s))).
      * exists 0. split; [exact Hr|reflexivity].
      * exists (List.length (plugin_pass sorted_plugins)).
        rewrite firstn_all. split; [exact Hr|reflexivity].
    + revert Egen. rewrite generation_split. unfold bind.
      pose proof (pass_body_cases sorted_plugins s) as Hc.
      destruct (pass_body sorted_plugins s) as [changed s2|e2 s2].
      * now rewrite wait_for_events_final.
      * intros [= _ <-]. destruct Hc as (d & n & -> & Ha). exists n.
        split; [|discriminate].
        pose proof (forallb_firstn _ n _ (plugin_pass_runs sorted_plugins))
          as Hr.
        unfold runs. rewrite !filter_app.
        rewrite (filter_skip is_run early d), ?app_nil_l; auto;
          [|now intros []].
        now rewrite (filter_all _ _ Hr).
  - intros l1 p l2 s1 Hsplit Hok Hbad Hbefore.
    destruct (@foreach_stops HHDPlugin CPrepare prepare (PluginFailure p)
                l1 p l2 s1)
      as (s2 & Hrun & Ht).
    { intros q s0 Hq. apply prepare_returns. intros c w. now apply Hok. }
    { intros s0. now apply prepare_raises. }
    exists s2.
    eapply generation_raises_in_plugins; [exact Hbefore| |exact Ht|].
    + unfold run_plugins. rewrite Hsplit.
      exact (bind_after_raised _ _ _ Hrun).
    + apply runs_prepares.
  - intros l1 p l2 s1 Hsplit Hprep Hok Hbad Hbefore.
    destruct (@foreach_returns HHDPlugin CPrepare prepare
                (rev sorted_plugins) s1)
      as (s2 & Hpre & Ht2).
    { intros q s0 Hq. apply prepare_returns. intros c w. apply Hprep.
      now apply in_rev. }
    destruct (@foreach_stops HHDPlugin CUpdate update (PluginFailure p)
                l1 p l2 s2)
      as (s3 & Hrun & Ht3).
    { intros q s0 Hq. apply update_returns. intros c w. now apply Hok. }
    { intros s0. now apply update_raises. }
    exists s3.
    eapply generation_raises_in_plugins; [exact Hbefore| | |].
    + unfold run_plugins. rewrite (bind_after_done _ _ _ Hpre).
      rewrite Hsplit. exact Hrun.
    + rewrite Ht3, Ht2. now rewrite <- app_assoc.
    + unfold runs. rewrite filter_app.
      fold (runs (map CPrepare (rev sorted_plugins))).
      fold (runs (map CUpdate (l1 ++ [p]))).
      now rewrite runs_prepares, runs_updates.
Qed.

End PassEnds.

Lemma settings_pass_never_waits_witness :
  filter is_wait
    (trace (final (@generation Sample.outside [Sample.good] Sample.idle
                     (set_emit (EmitHolder.Make [EvSettings])
                        Sample.with_racer))))
  = [].
Proof.
  exact (@settings_pass_never_waits Sample.outside [Sample.good] Sample.idle
           (set_emit (EmitHolder.Make [EvSettings]) Sample.with_racer)
           eq_refl).
Defined.

(* ------------------------------------------------------------------ *)
(** ** The lock *)

Section Lock.
Context `{External}.

Lemma with_lock_keeps_depth {A} (m : M A) n :
  (forall k, stays (fun s => lock_depth s = k) m) ->
  stays (fun s => lock_depth s = n) (with_lock m).
Proof.
  intros Hm s Hs. unfold with_lock.
  pose proof (Hm (S (lock_depth s)) (set_lock_depth (S (lock_depth s)) s)
                eq_refl) as Hk.
  destruct (m _) as [a s1|e s1]; cbn [final] in *; read_fields;
    now rewrite Hk.
Qed.

Lemma with_lock_insert_logged name c t0 :
  stays (logged locked_insert t0) (with_lock (insert_profile name c)).
Proof.
  intros s Hs. unfold with_lock, insert_profile, modify. cbn [final].
  eapply logged_step; [| |exact Hs]; reflexivity.
Qed.

Ltac depth_leaf :=
  first [ frame_cases
        | apply with_lock_keeps_depth; intros ?; stays_with frame_cases ].

Ltac insert_leaf :=
  first [ apply with_lock_insert_logged | logged_leaf
        | apply close_http_logs | apply push_http_logs ].

Lemma arrive_keeps_depth a s : lock_depth (arrive a s) = lock_depth s.
Proof.
  unfold arrive. read_fields.
  generalize (signals a). intros sigs. revert s.
  induction sigs as [|sig r IH]; intros s; cbn [fold_left]; [reflexivity|].
  rewrite IH. now destruct sig.
Qed.

Lemma generation_keeps_depth sorted_plugins a n :
  stays (fun s => lock_depth s = n) (generation sorted_plugins a).
Proof.
  unfold generation.
  apply stays_bind.
  { unfold initialize, reload_settings, reload_state, reload_profiles,
      rearm_watches, load_profile, insert_profile, reconcile_http,
      close_http, push_http, http_bool, http_int.
    stays_with depth_leaf. }
  intros _. apply stays_bind.
  { apply process_events_stays; [frame_cases|].
    intros ev c. unfold process_event, validate_profile, insert_profile.
    destruct ev; stays_with depth_leaf. }
  intros changed. apply stays_bind.
  { unfold validate_live. stays_with depth_leaf. }
  intros _. apply stays_bind; [stays_with depth_leaf|].
  intros _. apply stays_bind.
  { unfold run_plugins, prepare, update. stays_with depth_leaf. }
  intros _. apply stays_bind.
  { intros s Hs. destruct (save_loop_spec s) as (w & saves & -> & _).
    cbn [final]. cbv zeta.
    now destruct (negb (should_initialize s) && wrote_any saves). }
  intros _. apply stays_bind.
  { unfold push_http. stays_with depth_leaf. }
  intros _ s Hs. rewrite wait_for_events_final. cbn [final].
  now rewrite arrive_keeps_depth.
Qed.

Lemma generation_inserts_locked sorted_plugins a t0 :
  stays (logged locked_insert t0) (generation sorted_plugins a).
Proof.
  unfold generation.
  apply stays_bind.
  { unfold initialize, reload_settings, reload_state, reload_profiles,
      rearm_watches, load_profile, reconcile_http, http_bool, http_int.
    stays_with insert_leaf. }
  intros _. apply stays_bind.
  { apply process_events_stays; [logged_leaf|].
    intros ev c. unfold process_event, validate_profile.
    destruct ev; stays_with insert_leaf. }
  intros changed. apply stays_bind; [apply validate_live_logs|].
  intros _. apply stays_bind; [stays_with insert_leaf|].
  intros _. apply stays_bind.
  { apply stays_when.
    apply stays_logged_weaken with (al := may_log RunningPlugins);
      [intros t; apply run_plugins_logs|now intros []]. }
  intros _. apply stays_bind.
  { apply stays_logged_weaken with (al := may_log Saving);
      [intros t; apply save_loop_logs|now intros []]. }
  intros _. apply stays_bind; [apply push_http_logs|].
  intros _.
  apply stays_logged_weaken with (al := may_log Waiting);
    [intros t; apply wait_for_events_logs|now intros []].
Qed.

(** X8: the re-entrant lock is never left held: after a pass, however it
    ends, its hold count is what it was before; and every insert of a new
    key into [profiles] made during the pass, at the reload or for a
    [Profile] event, was made with the lock held. *)
Theorem lock_is_balanced sorted_plugins a s :
  lock_depth (final (generation sorted_plugins a s)) = lock_depth s
  /\ forall name locked,
       In (CInsertProfile name locked)
          (trace (final (generation sorted_plugins a s))) ->
       In (CInsertProfile name locked) (trace s) \/ locked = true.
Proof.
  split.
  - now apply generation_keeps_depth.
  - intros name locked Hin.
    destruct (generation_inserts_locked sorted_plugins a (logged_refl _ s))
      as (d & Hd & Ha).
    rewrite Hd in Hin. apply in_app_iff in Hin.
    destruct Hin as [Hin|Hin]; [now left|right].
    rewrite forallb_forall in Ha. exact (Ha _ Hin).
Qed.

End Lock.

(* ------------------------------------------------------------------ *)
(** ** Start-up and early returns *)

Section Startup.
Context `{External}.

Lemma opened_opens l : opened (map COpen l) = l.
Proof.
  unfold opened. induction l as [|p r IH]; [reflexivity|].
  cbn [map flat_map app]. now rewrite IH.
Qed.

Lemma open_plugins_prefix sorted_plugins s :
  exists n,
    trace (final (open_plugins sorted_plugins s))
    = trace s ++ map COpen (firstn n sorted_plugins)
    /\ (forall s', open_plugins sorted_plugins s = Done tt s' ->
        firstn n sorted_plugins = sorted_plugins).
Proof.
  unfold open_plugins.
  destruct (foreach_prefix COpen
              (fun p => plugin_call (COpen p) p (plugin_open p))
              sorted_plugins s) as (n & _ & Ht & Hd).
  - intros p s0. unfold plugin_call.
    destruct (ext_ret (plugin_open p (world s0))); reflexivity.
  - now exists n.
Qed.

Lemma try_block_opened sorted_plugins inputs w :
  exists n,
    opened (trace (final (try_block sorted_plugins inputs (init_state w))))
    = firstn n sorted_plugins
    /\ (forall b s,
          try_block sorted_plugins inputs (init_state w) = Done b s ->
          firstn n sorted_plugins = sorted_plugins).
Proof.
  unfold try_block. destruct sorted_plugins as [|p r] eqn:Esp.
  - exists 0. split; [reflexivity|]. reflexivity.
  - rewrite <- Esp. clear Esp p r.
    destruct (open_plugins_prefix sorted_plugins (init_state w))
      as (n & Ht & Hd).
    exists n. rewrite final_bind.
    destruct (open_plugins sorted_plugins (init_state w)) as [[] s1|e s1]
      eqn:Eo; cbn [final] in Ht.
    + split.
      * pose proof (loop_logs sorted_plugins inputs (logged_refl _ s1)) as Hl.
        unfold opened.
        rewrite (quiet_flat_map _ (al := in_pass) (t0 := trace s1));
          [|now intros []|exact Hl].
        rewrite Ht. cbn [trace init_state app].
        apply opened_opens.
      * intros b s _. exact (Hd _ eq_refl).
    + split.
      * rewrite Ht. cbn [trace init_state app]. apply opened_opens.
      * intros b s Hrun. rewrite (bind_after_raised _ _ _ Eo) in Hrun.
        discriminate Hrun.
Qed.

Lemma drained_opens l : drained (map COpen l) = [].
Proof. induction l as [|p r IH]; [reflexivity|]. exact IH. Qed.

(** X9: [main] opens the plugins in the sorted order, ascending priority
    with plugins of one priority in discovery order: the plugins opened are
    an initial part of the sorted list, and all of it unless an exception
    left [main].  An [open] that raises is the last one made and its
    exception leaves [main]: when the [open] of [p] raises and those of the
    plugins sorted before [p] return, the plugins opened are those up to
    [p], no pass of the loop is made, and [main] ends by an exception, that
    of [p] unless the shutdown raises one of its own. *)
Theorem plugins_open_in_sorted_order plugins inputs w :
  let sorted_plugins := sort_by_priority (discovered plugins) in
  let r := main true plugins inputs w in
  (exists n,
     opened (trace (snd r)) = firstn n sorted_plugins
     /\ (fst r = Returned \/ fst r = Running ->
         opened (trace (snd r)) = sorted_plugins))
  /\ (forall l1 p l2,
        sorted_plugins = l1 ++ p :: l2 ->
        (forall q w', In q l1 -> ext_ret (plugin_open q w') <> None) ->
        (forall w', ext_ret (plugin_open p w') = None) ->
        opened (trace (snd r)) = l1 ++ [p]
        /\ drained (trace (snd r)) = []
        /\ (exists e, fst r = Escaped e)
        /\ ((forall q w', In q (discovered plugins) ->
               ext_ret (plugin_close q w') <> None) ->
            (forall h w', snd (http_close h w') = true) ->
            fst r = Escaped (PluginFailure p))).
Proof.
  intros sorted_plugins r. subst r. unfold main. cbn [negb].
  fold sorted_plugins.
  assert (Hfin : forall s1,
             opened (trace (final (finally_block plugins s1)))
             = opened (trace s1)
             /\ drained (trace (final (finally_block plugins s1)))
                = drained (trace s1)).
  { intros s1. unfold opened, drained.
    split; (eapply quiet_flat_map;
            [|exact (finally_block_logs plugins (logged_refl _ s1))]);
      now intros []. }
  split.
  - destruct (try_block_opened sorted_plugins inputs w) as (n & Ho & Hd).
    exists n.
    destruct (try_block sorted_plugins inputs (init_state w))
      as [[|] s1|e s1]; cbn [final] in Ho.
    + destruct (Hfin s1) as [Hopen _]. specialize (Hd _ _ eq_refl).
      destruct (finally_block plugins s1) as [[] s2|e2 s2];
        cbn [final fst snd] in *; rewrite Hopen, Ho; split; auto;
        now rewrite Hd.
    + cbn [fst snd]. rewrite Ho. split; [reflexivity|].
      intros _. exact (Hd _ _ eq_refl).
    + destruct (Hfin s1) as [Hopen _].
      destruct (finally_block plugins s1) as [[] s2|e2 s2];
        cbn [final fst snd] in *; rewrite Hopen, Ho; split; auto;
        intros [Hx|Hx]; discriminate Hx.
  - intros l1 p l2 Hsplit Hok Hbad.
    assert (Htry : exists s1,
               try_block sorted_plugins inputs (init_state w)
               = Raised (PluginFailure p) s1
               /\ trace s1 = map COpen (l1 ++ [p])).
    { destruct (@plugin_calls_stop _ COpen plugin_open l1 p l2
                  (init_state w) Hok Hbad) as (s1 & Hrun & Ht).
      exists s1. split; [|exact Ht].
      unfold try_block, open_plugins. rewrite Hsplit.
      destruct l1; exact (bind_after_raised _ _ _ Hrun). }
    destruct Htry as (s1 & -> & Ht).
    destruct (Hfin s1) as [Hopen Hdrain].
    rewrite Ht, opened_opens in Hopen. rewrite Ht, drained_opens in Hdrain.
    destruct (finally_block_spec plugins s1) as (_ & _ & _ & Hdone).
    destruct (finally_block plugins s1) as [[] s2|e2 s2];
      cbn [final fst snd] in *.
    + repeat split; auto. now exists (PluginFailure p).
    + repeat split; auto; [now exists e2|].
      intros Hclose Hhttp. destruct (Hdone Hclose Hhttp) as (s3 & Hs3).
      discriminate Hs3.
Qed.

Lemma finally_block_idle plugins s :
  cfg_fds s = [] -> https s = None -> discovered plugins = [] ->
  finally_block plugins s = Done tt s.
Proof.
  intros Hfds Hhttps Hnone. unfold finally_block, bind, gets.
  rewrite Hfds. cbn [foreach ret]. unfold close_http, bind, gets.
  rewrite Hhttps. cbn [ret]. rewrite foreach_concat.
  fold (discovered plugins). now rewrite Hnone.
Qed.

(** X10: when the user context is not found, or when no provider detected
    a plugin, [main] returns at once: nothing is opened, reloaded, saved or
    closed, and the outside world is as it was. *)
Theorem main_returns_early ctx plugins inputs w :
  ctx = false \/ discovered plugins = [] ->
  main ctx plugins inputs w = (Returned, init_state w).
Proof.
  intros Hearly. unfold main. destruct ctx; [|reflexivity].
  destruct Hearly as [Hctx|Hnone]; [discriminate Hctx|].
  cbn [negb]. rewrite Hnone. cbn [sort_by_priority fold_right try_block ret].
  now rewrite finally_block_idle.
Qed.

End Startup.

Lemma main_returns_early_witness :
  @main Sample.outside true [("provider", []); ("other", [])]
    [Sample.idle] Sample.disk_with_template
  = (Returned, @init_state Sample.outside Sample.disk_with_template).
Proof.
  apply (@main_returns_early Sample.outside). now right.
Defined.

(* ------------------------------------------------------------------ *)
(** ** Events in a batch *)

Section Batches.
Context `{External}.

Lemma set_conf_same s : set_conf (conf s) s = s.
Proof. now destruct s. Qed.

Lemma set_conf_twice x y s : set_conf y (set_conf x s) = set_conf y s.
Proof. reflexivity. Qed.

(** X11: a batch without a [Profile] event is processed without raising;
    it changes nothing but the live Config, which is the [State] payloads
    and the applied profiles merged in, in emission order, an [Apply] of an
    unknown name and an event of an unknown type counting for nothing; and
    [settings_changed] says whether the batch held a [Settings] event. *)
Theorem batch_without_profiles batch changed s :
  forallb no_profile_event batch = true ->
  process_batch batch changed s
  = Done (changed || existsb is_settings batch)
      (set_conf (fold_left (live_after (profiles s)) batch (conf s)) s).
Proof.
  revert changed s. induction batch as [|ev rest IH]; intros changed s Hno;
    cbn [process_batch fold_left existsb].
  - unfold ret. now rewrite orb_false_r, set_conf_same.
  - cbn [forallb] in Hno. apply andb_true_iff in Hno.
    destruct Hno as [Hev Hrest].
    assert (Hstep : process_event ev changed s
                    = Done (changed || is_settings ev)
                        (set_conf (live_after (profiles s) (conf s) ev) s)).
    { destruct ev; try discriminate Hev;
        cbn [process_event live_after is_settings];
        unfold bind, gets, modify, ret;
        rewrite ?orb_false_r, ?orb_true_r, ?set_conf_same; try reflexivity.
      destruct (dict_get name0 (profiles s)); [reflexivity|].
      now rewrite set_conf_same. }
    rewrite (bind_after_done _ _ _ Hstep), (IH _ _ Hrest).
    now rewrite orb_assoc.
Qed.

(** X12: events are processed in order within a batch: after a [Profile]
    event whose profile passes the validation, an [Apply] of the same name
    in the same batch merges the profile as it was just stored into the live
    Config; when the validation raises, the [Apply] is never reached and the
    live Config is as it was. *)
Theorem profile_then_apply name config changed s :
  let entry :=
    match dict_get name (profiles s) with
    | Some old => Config.update old (Config.conf config)
    | None => config
    end in
  match validate_config entry (settings s) false with
  | Some stored =>
      exists s',
        process_batch [EvProfile name config; EvApply name] changed s
        = Done changed s'
        /\ dict_get name (profiles s') = Some stored
        /\ conf s' = Config.update (conf s) (Config.conf stored)
  | None =>
      exists s',
        process_batch [EvProfile name config; EvApply name] changed s
        = Raised ValidationFailure s'
        /\ conf s' = conf s
  end.
Proof.
  intros entry. cbn [process_batch process_event].
  assert (Hput : exists s1,
             match dict_get name (profiles s) with
             | Some old =>
                 modify (fun s =>
                   set_profiles
                     (dict_set name (Config.update old (Config.conf config))
                        (profiles s)) s)
             | None => with_lock (insert_profile name config)
             end s = Done tt s1
             /\ profiles s1 = dict_set name entry (profiles s)
             /\ conf s1 = conf s /\ settings s1 = settings s).
  { subst entry. destruct (dict_get name (profiles s)) as [old|];
      eexists; (split; [reflexivity|]); now repeat split. }
  destruct Hput as (s1 & Hrun & Hp1 & Hc1 & Hs1).
  assert (Hg1 : dict_get name (profiles s1) = Some entry)
    by (rewrite Hp1; apply dict_get_set_same).
  rewrite <- Hs1.
  destruct (validate_config entry (settings s1) false) as [stored|] eqn:Ev.
  - eexists. unfold bind at 1 2 3. unfold gets at 1. rewrite Hrun.
    unfold validate_profile, bind at 1 2, gets at 1. rewrite Hg1.
    unfold bind at 1. rewrite Ev. cbn [orelse ret modify].
    unfold bind, gets. read_fields.
    rewrite dict_get_set_same. unfold modify, ret.
    split; [reflexivity|]. read_fields.
    rewrite dict_get_set_same, Hc1. now split.
  - eexists. unfold bind at 1 2 3. unfold gets at 1. rewrite Hrun.
    unfold validate_profile, bind at 1 2, gets at 1. rewrite Hg1.
    unfold bind at 1. rewrite Ev. cbn [orelse raise].
    split; [reflexivity|exact Hc1].
Qed.

End Batches.

Lemma batch_without_profiles_witness :
  @process_batch Sample.outside
    [EvState Sample.racer1; EvSettings; EvApply "drift"; EvOther "ping"]
    false Sample.with_racer
  = Done true
      (set_conf (Config.update Sample.default_state
                   (Config.conf Sample.racer1)) Sample.with_racer).
Proof.
  exact (@batch_without_profiles Sample.outside
           [EvState Sample.racer1; EvSettings; EvApply "drift";
            EvOther "ping"] false Sample.with_racer eq_refl).
Defined.

Lemma exception_before_save_saves_nothing_witness :
  let s := @init_state Sample.outside
             (Sample.mkDisk (Some Sample.racer1) []) in
  let s' := final (@before_save_loop Sample.outside [Sample.good] s) in
  @generation Sample.outside [Sample.good] Sample.idle s
  = Raised LookupFailure s'
  /\ filter is_save (trace s') = filter is_save (trace s).
Proof.
  intros s s'.
  assert (E : @before_save_loop Sample.outside [Sample.good] s
              = Raised LookupFailure s') by (vm_compute; reflexivity).
  destruct (@exception_before_save_saves_nothing Sample.outside
              [Sample.good] Sample.idle s LookupFailure s' E)
    as (Hgen & Hsave & _).
  split; [exact Hgen|exact Hsave].
Defined.

(* ------------------------------------------------------------------ *)
(** ** What only a reload touches *)

(** What the pass after the reload keeps: [P] may read the fields that only
    the reload writes. *)
Section Untouched.
Context `{External}.
Variable P : State -> Prop.
Hypothesis Hworld : forall s v, P s -> P (set_world v s).
Hypothesis Hemit : forall s v, P s -> P (set_emit v s).
Hypothesis Hflag : forall s v, P s -> P (set_should_initialize v s).
Hypothesis Hexit : forall s v, P s -> P (set_should_exit v s).
Hypothesis Hconf : forall s v, P s -> P (set_conf v s).
Hypothesis Hprofiles : forall s v, P s -> P (set_profiles v s).
Hypothesis Hlock : forall s v, P s -> P (set_lock_depth v s).
Hypothesis Htrace : forall s v, P s -> P (set_trace v s).

Lemma untouched_record c s : P s -> P (record c s).
Proof. unfold record. apply Htrace. Qed.

Ltac kept :=
  intros;
  repeat match goal with
         | |- context [match ?x with _ => _ end] => destruct x
         end;
  repeat first
    [ assumption | apply untouched_record | apply Hworld | apply Hemit
    | apply Hflag | apply Hexit | apply Hconf | apply Hprofiles
    | apply Hlock | apply Htrace ].

Lemma arrive_untouched a s : P s -> P (arrive a s).
Proof.
  intros Hs. unfold arrive. apply Hemit.
  generalize (signals a). intros sigs. revert s Hs.
  induction sigs as [|sig r IH]; intros s Hs; cbn [fold_left]; [exact Hs|].
  apply IH. destruct sig; cbn [notifier]; kept.
Qed.

Lemma after_reload_untouched sorted_plugins a :
  stays P (after_reload sorted_plugins a).
Proof.
  unfold after_reload.
  apply stays_bind.
  { apply process_events_stays; [kept|].
    intros ev c. unfold process_event, validate_profile, insert_profile.
    destruct ev; stays_with kept. }
  intros changed. apply stays_bind; [unfold validate_live; stays_with kept|].
  intros _. apply stays_bind; [stays_with kept|].
  intros _. apply stays_bind.
  { apply stays_when. unfold run_plugins, prepare, update. stays_with kept. }
  intros _. apply stays_bind.
  { intros s Hs. destruct (save_loop_spec s) as (w & saves & -> & _).
    cbn [final]. cbv zeta.
    destruct (negb (should_initialize s) && wrote_any saves); kept. }
  intros _. apply stays_bind; [unfold push_http; stays_with kept|].
  intros _ s Hs. rewrite wait_for_events_final. cbn [final].
  apply arrive_untouched. now apply Htrace.
Qed.

End Untouched.

Section Reloads.
Context `{External}.

Lemma generation_after_reload sorted_plugins a s :
  generation sorted_plugins a s
  = bind (initialize sorted_plugins)
      (fun _ => after_reload sorted_plugins a) s.
Proof. reflexivity. Qed.

Lemma initialize_skipped sorted_plugins s :
  should_initialize s = false -> initial_run s = false ->
  initialize sorted_plugins s = Done tt s.
Proof.
  intros Hflag Hfirst. unfold initialize, bind, gets.
  now rewrite Hflag, Hfirst.
Qed.

(** X13: the configuration files are read again only when asked: a pass
    that starts with [should_initialize] clear, and is not the first, leaves
    the settings, the templates, the watch descriptors and the HTTP server
    with its configuration as they were, however it ends. *)
Theorem no_reload_unless_asked sorted_plugins a s :
  should_initialize s = false -> initial_run s = false ->
  let s' := final (generation sorted_plugins a s) in
  settings s' = settings s /\ templates s' = templates s
  /\ cfg_fds s' = cfg_fds s /\ https s' = https s
  /\ prev_http_cfg s' = prev_http_cfg s.
Proof.
  intros Hflag Hfirst s'. subst s'.
  rewrite generation_after_reload.
  rewrite (bind_after_done _ _ _ (initialize_skipped _ _ Hflag Hfirst)).
  apply (@after_reload_untouched _
           (fun s' => settings s' = settings s /\ templates s' = templates s
                      /\ cfg_fds s' = cfg_fds s /\ https s' = https s
                      /\ prev_http_cfg s' = prev_http_cfg s));
    try (intros s0 v Hs0; exact Hs0).
  repeat split.
Qed.

Lemma initialize_steps sorted_plugins s s' :
  should_initialize s || initial_run s = true ->
  initialize sorted_plugins s = Done tt s' ->
  exists s0 s1 s2 s3 s4,
    reload_settings sorted_plugins (set_initial_run false s) = Done tt s0
    /\ reload_state s0 = Done tt s1
    /\ reload_profiles s1 = Done tt s2
    /\ rearm_watches s2 = Done tt s3
    /\ reconcile_http s3 = Done tt s4
    /\ s' = record (CClear AtReload) (set_should_initialize false s4).
Proof.
  intros Hflag. unfold initialize. unfold bind at 1, gets at 1.
  rewrite Hflag. cbn [when]. unfold bind at 1, modify at 1.
  intros Hrun.
  apply bind_done in Hrun. destruct Hrun as ([] & s0 & H0 & Hrun).
  apply bind_done in Hrun. destruct Hrun as ([] & s1 & H1 & Hrun).
  apply bind_done in Hrun. destruct Hrun as ([] & s2 & H2 & Hrun).
  apply bind_done in Hrun. destruct Hrun as ([] & s3 & H3 & Hrun).
  apply bind_done in Hrun. destruct Hrun as ([] & s4 & H4 & Hrun).
  unfold modify in Hrun. injection Hrun as <-.
  now exists s0, s1, s2, s3, s4.
Qed.

Lemma rearm_watches_two s s' :
  rearm_watches s = Done tt s' -> List.length (cfg_fds s') = 2.
Proof.
  unfold rearm_watches. unfold bind at 1, gets at 1.
  destruct (close_fds_done (cfg_fds s) s) as (s1 & Hclose & _).
  rewrite (bind_after_done _ _ _ Hclose).
  unfold bind at 1, modify at 1. cbn [foreach].
  unfold bind, world_call, orelse, modify, ret, raise. read_fields.
  destruct (open_watch CONFIG_DIR (world s1)) as [w1 [fd1|]];
    [|discriminate].
  read_fields.
  destruct (open_watch (CONFIG_DIR ++ "/profiles") w1) as [w2 [fd2|]];
    [|discriminate].
  intros [= <-]. reflexivity.
Qed.

Lemma reload_keeps_first_run x :
  stays (fun s => initial_run s = x)
    (bind reload_state (fun _ =>
     bind reload_profiles (fun _ =>
     bind rearm_watches (fun _ => reconcile_http)))).
Proof.
  unfold reload_state, reload_profiles, rearm_watches, load_profile,
    insert_profile, reconcile_http, close_http, push_http, http_bool,
    http_int.
  stays_with frame_cases.
Qed.

Lemma reconcile_http_keeps_watches x :
  stays (fun s => cfg_fds s = x) reconcile_http.
Proof.
  unfold reconcile_http, close_http, push_http, http_bool, http_int.
  stays_with frame_cases.
Qed.

Lemma initialize_watches sorted_plugins s s' :
  initial_run s = true \/ List.length (cfg_fds s) = 2 ->
  initialize sorted_plugins s = Done tt s' ->
  List.length (cfg_fds s') = 2 /\ initial_run s' = false.
Proof.
  intros Hinv Hrun.
  destruct (should_initialize s || initial_run s) eqn:Hflag.
  - destruct (initialize_steps _ _ Hflag Hrun)
      as (s0 & s1 & s2 & s3 & s4 & H0 & H1 & H2 & H3 & H4 & ->).
    read_fields. split.
    + pose proof (@reconcile_http_keeps_watches _ s3 eq_refl) as Hk.
      rewrite H4 in Hk. cbn [final] in Hk. rewrite Hk.
      exact (rearm_watches_two _ H3).
    + unfold reload_settings, modify in H0. injection H0 as <-.
      match type of H1 with
      | reload_state ?x = _ =>
          pose proof (@reload_keeps_first_run false x eq_refl) as Hk
      end.
      unfold bind in Hk. rewrite H1, H2, H3, H4 in Hk. exact Hk.
  - apply orb_false_iff in Hflag. destruct Hflag as [Hf Hi].
    rewrite (initialize_skipped _ _ Hf Hi) in Hrun. injection Hrun as <-.
    destruct Hinv as [Hinv|Hinv]; [congruence|]. now split.
Qed.

(** X14: the watches do not pile up: a pass that ends normally, started
    either as the first pass or with two watch descriptors held, ends with
    exactly two held and is not the first any more; so after every pass
    of the loop two descriptors are held, however often the configuration
    was reloaded. *)
Theorem two_watches_after_every_pass sorted_plugins a s s' :
  initial_run s = true \/ List.length (cfg_fds s) = 2 ->
  generation sorted_plugins a s = Done tt s' ->
  List.length (cfg_fds s') = 2 /\ initial_run s' = false.
Proof.
  intros Hinv. rewrite generation_after_reload. intros Hrun.
  apply bind_done in Hrun. destruct Hrun as ([] & s1 & Hinit & Hrest).
  pose proof (initialize_watches _ _ Hinv Hinit) as H1.
  pose proof (@after_reload_untouched _
                (fun s => List.length (cfg_fds s) = 2
                          /\ initial_run s = false)) as Hk.
  specialize (Hk ltac:(auto) ltac:(auto) ltac:(auto) ltac:(auto)
                ltac:(auto) ltac:(auto) ltac:(auto) ltac:(auto)
                sorted_plugins a s1 H1).
  now rewrite Hrest in Hk.
Qed.

Lemma loop_exit_flag sorted_plugins inputs s b s' :
  loop sorted_plugins inputs s = Done b s' -> should_exit s' = b.
Proof.
  revert s. induction inputs as [|a rest IH]; intros s; cbn [loop];
    destruct (should_exit s) eqn:Ex; try (now intros [= <- <-]).
  intros Hrun. apply bind_done in Hrun.
  destruct Hrun as ([] & s1 & _ & Hrest). exact (IH _ Hrest).
Qed.

Lemma finally_block_keeps_exit plugins x :
  stays (fun s => should_exit s = x) (finally_block plugins).
Proof. unfold finally_block, close_http. stays_with frame_cases. Qed.

(** X15: with plugins detected, [main] returns normally only with
    [should_exit] set: the loop is left, other than by an exception, only
    through its test of the flag, and nothing that follows clears it; as
    long as the loop runs the flag is clear. *)
Theorem normal_return_needs_exit_flag plugins inputs w :
  discovered plugins <> [] ->
  let r := main true plugins inputs w in
  (fst r = Returned -> should_exit (snd r) = true)
  /\ (fst r = Running -> should_exit (snd r) = false).
Proof.
  intros Hne r. subst r. unfold main. cbn [negb].
  set (sp := sort_by_priority (discovered plugins)).
  assert (Hsp : sp <> []).
  { intros E. apply Hne. apply Permutation_nil. rewrite <- E.
    apply sort_by_priority_perm. }
  assert (Hloop : forall b s1,
             try_block sp inputs (init_state w) = Done b s1 ->
             should_exit s1 = b).
  { intros b s1. unfold try_block.
    destruct sp as [|p rest] eqn:Esp; [congruence|]. rewrite <- Esp.
    intros Htry. apply bind_done in Htry.
    destruct Htry as ([] & s0 & _ & Hrun).
    exact (loop_exit_flag _ _ _ Hrun). }
  destruct (try_block sp inputs (init_state w)) as [[|] s1|e s1].
  - pose proof (@finally_block_keeps_exit plugins true s1
                  (Hloop _ _ eq_refl)) as Hfin.
    destruct (finally_block plugins s1) as [[] s2|e2 s2];
      cbn [fst snd final] in *.
    + split; [intros _; exact Hfin|discriminate].
    + split; discriminate.
  - cbn [fst snd]. split; [discriminate|]. intros _. exact (Hloop _ _ eq_refl).
  - destruct (finally_block plugins s1) as [[] s2|e2 s2]; cbn [fst snd];
      split; discriminate.
Qed.

End Reloads.

Lemma no_reload_unless_asked_witness :
  https (final (@generation Sample.outside [Sample.good] Sample.idle
                  Sample.with_racer))
  = None.
Proof.
  exact (proj1 (proj2 (proj2 (proj2
           (@no_reload_unless_asked Sample.outside [Sample.good]
              Sample.idle Sample.with_racer eq_refl eq_refl))))).
Defined.

Lemma two_watches_after_every_pass_witness :
  List.length
    (cfg_fds (final (@generation Sample.outside [Sample.good] Sample.idle
                       (@init_state Sample.outside Sample.empty_disk))))
  = 2.
Proof.
  refine (proj1 (@two_watches_after_every_pass Sample.outside [Sample.good]
                   Sample.idle
                   (@init_state Sample.outside Sample.empty_disk)
                   _ (or_introl eq_refl) _)).
  vm_compute. reflexivity.
Defined.

Lemma normal_return_needs_exit_flag_witness :
  should_exit
    (snd (@main Sample.outside true [("provider", [Sample.good])]
            [Sample.idle; Sample.terminate] Sample.empty_disk))
  = true.
Proof.
  apply (@normal_return_needs_exit_flag Sample.outside
           [("provider", [Sample.good])] [Sample.idle; Sample.terminate]
           Sample.empty_disk).
  - discriminate.
  - vm_compute. reflexivity.
Defined.

(* ------------------------------------------------------------------ *)
(** ** The profile directory at a reload *)

Section ProfileScan.
Context `{External}.

Lemma load_profile_split fns w fn s s' :
  In fn fns -> world s = w -> split_by_underscore fns w s ->
  load_profile fn s = Done tt s' ->
  world s' = w /\ split_by_underscore fns w s'.
Proof.
  intros Hin Hw (Hp & Ht). unfold load_profile.
  destruct (endswith ".yml" fn) eqn:Eyml; cbn [negb].
  2:{ intros [= <-]. split; [assumption|split; assumption]. }
  unfold bind at 1, gets at 1.
  destruct (load_profile_yaml fn (world s)) as [c|] eqn:Eload.
  2:{ intros [= <-]. split; [assumption|split; assumption]. }
  assert (Hfrom : loaded_from fns w (profile_name fn)).
  { exists fn. repeat split; auto. rewrite <- Hw, Eload. discriminate. }
  unfold bind at 1.
  destruct (validate_config c (settings s) false) as [c'|];
    cbn [orelse ret raise]; [|discriminate].
  destruct (startswith "_" (profile_name fn)) eqn:Eund.
  - unfold modify. intros [= <-]. read_fields. split; [exact Hw|].
    split; [exact Hp|]. intros name. read_fields.
    rewrite dict_mem_set. intros Hm. apply orb_true_iff in Hm.
    destruct Hm as [Hm|Hm]; [|now apply Ht].
    apply String.eqb_eq in Hm. subst name. now split.
  - unfold with_lock, insert_profile, modify. intros [= <-]. read_fields.
    split; [exact Hw|]. split; [|exact Ht]. intros name. read_fields.
    rewrite dict_mem_set. intros Hm. apply orb_true_iff in Hm.
    destruct Hm as [Hm|Hm]; [|now apply Hp].
    apply String.eqb_eq in Hm. subst name. now split.
Qed.

Lemma load_profiles_split fns w l s s' :
  incl l fns -> world s = w -> split_by_underscore fns w s ->
  foreach l load_profile s = Done tt s' ->
  world s' = w /\ split_by_underscore fns w s'.
Proof.
  revert s. induction l as [|fn r IH]; intros s Hincl Hw Hs; cbn [foreach].
  - intros [= <-]. now split.
  - intros Hrun. apply bind_done in Hrun.
    destruct Hrun as ([] & s1 & Hfn & Hrest).
    assert (Hin : In fn fns) by (apply Hincl; now left).
    destruct (load_profile_split _ Hin Hw Hs Hfn) as (Hw1 & Hs1).
    apply (IH s1); auto. intros x Hx. apply Hincl. now right.
Qed.

Lemma reload_profiles_split s s' :
  reload_profiles s = Done tt s' ->
  split_by_underscore (listdir (world s)) (world s) s'.
Proof.
  unfold reload_profiles, bind, modify, gets. read_fields. intros Hrun.
  eapply load_profiles_split in Hrun;
    [exact (proj2 Hrun)|apply incl_refl|reflexivity|].
  split; intros name Hm; discriminate Hm.
Qed.

Lemma reload_state_keeps_world x :
  stays (fun s => world s = x) reload_state.
Proof. unfold reload_state. stays_with frame_cases. Qed.

Lemma watches_and_http_keep_profiles x y :
  stays (fun s => profiles s = x /\ templates s = y)
    (bind rearm_watches (fun _ => reconcile_http)).
Proof.
  unfold rearm_watches, reconcile_http, close_http, push_http, http_bool,
    http_int.
  stays_with frame_cases.
Qed.

(** X16: a reload that completes fills [profiles] and [templates] from the
    profile directory alone: every name in either is the name of a file
    with the suffix [.yml] that loaded, the names that start with an
    underscore are the templates and all others are the profiles; no name
    is carried over from before the reload. *)
Theorem reload_splits_by_underscore sorted_plugins s s' :
  should_initialize s || initial_run s = true ->
  initialize sorted_plugins s = Done tt s' ->
  split_by_underscore (listdir (world s)) (world s) s'.
Proof.
  intros Hflag Hrun.
  destruct (initialize_steps _ _ Hflag Hrun)
    as (s0 & s1 & s2 & s3 & s4 & H0 & H1 & H2 & H3 & H4 & ->).
  unfold reload_settings, modify in H0. injection H0 as <-.
  match type of H1 with
  | reload_state ?x = _ =>
      pose proof (@reload_state_keeps_world (world s) x eq_refl) as Hw
  end.
  rewrite H1 in Hw. cbn [final] in Hw.
  pose proof (reload_profiles_split _ H2) as Hsplit. rewrite Hw in Hsplit.
  pose proof (@watches_and_http_keep_profiles _ _ s2 (conj eq_refl eq_refl))
    as Hk.
  unfold bind in Hk. rewrite H3, H4 in Hk. cbn [final] in Hk.
  destruct Hk as (Hp & Ht). destruct Hsplit as (Hps & Hts).
  split; intros name; read_fields; [rewrite Hp|rewrite Ht]; auto.
Qed.

Lemma push_http_keeps_server :
  stays (fun s => exists h, https s = Some h) push_http.
Proof.
  intros s (h & Hh). unfold push_http, modify. cbn [final].
  rewrite Hh. read_fields. now exists h.
Qed.

Lemma initialize_keeps_server sorted_plugins :
  stays (fun s => exists h, https s = Some h) (initialize sorted_plugins).
Proof.
  unfold initialize, reload_settings, reload_state, reload_profiles,
    rearm_watches, load_profile, insert_profile, reconcile_http, close_http,
    http_bool, http_int.
  stays_with ltac:(first
    [ apply push_http_keeps_server
    | intros;
      repeat match goal with
             | |- context [match ?x with _ => _ end] => destruct x
             end;
      cbn; first [assumption|eexists; reflexivity] ]).
Qed.

(** X17: once an HTTP server was made, [https] is never without one: a
    pass started with a server ends with a server, however it ends, also
    when the reload closed the server and the configuration has the surface
    switched off. *)
Theorem http_server_is_never_dropped sorted_plugins a s :
  https s <> None ->
  https (final (generation sorted_plugins a s)) <> None.
Proof.
  intros Hs.
  assert (Hk : exists h, https (final (generation sorted_plugins a s))
                         = Some h).
  { rewrite generation_after_reload.
    assert (Hh : exists h, https s = Some h)
      by (destruct (https s) as [h|]; [now exists h|congruence]).
    assert (Hpass : stays (fun s => exists h, https s = Some h)
                      (bind (initialize sorted_plugins)
                         (fun _ => after_reload sorted_plugins a))).
    { apply stays_bind; [apply initialize_keeps_server|].
      intros _. apply after_reload_untouched; intros s0 v Hs0; exact Hs0. }
    exact (Hpass s Hh). }
  destruct Hk as (h & ->). discriminate.
Qed.

End ProfileScan.

Lemma reload_splits_by_underscore_witness :
  @split_by_underscore Sample.outside ["_foo.yml"; "racer.yml"]
    Sample.disk_with_template
    (final (@initialize Sample.outside [Sample.good]
              (@init_state Sample.outside Sample.disk_with_template))).
Proof.
  apply (@reload_splits_by_underscore Sample.outside [Sample.good]
           (@init_state Sample.outside Sample.disk_with_template)).
  - reflexivity.
  - vm_compute. reflexivity.
Defined.

Lemma http_server_is_never_dropped_witness :
  https (final (@generation Sample.outside [Sample.good] Sample.idle
                  (@set_https Sample.outside (Some tt)
                     (@init_state Sample.outside Sample.empty_disk))))
  <> None.
Proof.
  apply (@http_server_is_never_dropped Sample.outside [Sample.good]
           Sample.idle
           (@set_https Sample.outside (Some tt)
              (@init_state Sample.outside Sample.empty_disk))).
  discriminate.
Defined.

(* ------------------------------------------------------------------ *)
(** ** The device test script *)

Section TstFacts.
Context {Dev Ev W : Type}.
Variable id : Dev -> nat.
Variable dev_open : Dev -> W -> W * option (list Z).
Variable dev_produce : Dev -> list Z -> W -> W * option (list Ev).
Variable dev_consume : Dev -> list Ev -> W -> W * option unit.
Variable dev_close : Dev -> W -> W * option unit.
Variable select : list Z -> W -> W * list Z.

Lemma fd_get_set f f' (m : Dev) d :
  Tst.fd_get f (Tst.fd_set f' m d)
  = if (f' =? f)%Z then Some m else Tst.fd_get f d.
Proof.
  induction d as [|[g m'] r IH]; cbn [Tst.fd_set Tst.fd_get].
  - reflexivity.
  - destruct (Z.eqb_spec g f') as [->|Hg]; cbn [Tst.fd_get].
    + now destruct (f' =? f)%Z.
    + rewrite IH. destruct (Z.eqb_spec g f) as [->|Hf]; [|reflexivity].
      destruct (Z.eqb_spec f' f) as [->|_]; [congruence|reflexivity].
Qed.

Lemma fd_get_fold f (m : Dev) fs d :
  Tst.fd_get f (fold_left (fun d f => Tst.fd_set f m d) fs d)
  = if existsb (Z.eqb f) fs then Some m else Tst.fd_get f d.
Proof.
  revert d. induction fs as [|f0 r IH]; intros d; cbn [fold_left existsb].
  - reflexivity.
  - rewrite IH, fd_get_set, (Z.eqb_sym f f0).
    now destruct (f0 =? f)%Z, (existsb (Z.eqb f) r).
Qed.

Lemma existsb_eqb_in f fs : In f fs -> existsb (Z.eqb f) fs = true.
Proof.
  intros Hin. apply existsb_exists. exists f. split; [exact Hin|].
  apply Z.eqb_refl.
Qed.

Lemma prepare_covered m (s : @Tst.Script Dev Ev W) :
  Tst.covered s -> Tst.covered (fst (Tst.prepare dev_open m s)).
Proof.
  intros Hs. unfold Tst.prepare.
  destruct (dev_open m (Tst.world s)) as [w [fs|]]; cbn [fst].
  - intros f. cbn [Tst.fds Tst.devs Tst.fd_to_dev]. intros Hin.
    rewrite fd_get_fold.
    destruct (existsb (Z.eqb f) fs) eqn:Ehere.
    + exists m. split; [reflexivity|]. apply in_or_app. right. now left.
    + apply in_app_or in Hin. destruct Hin as [Hin|Hin].
      * destruct (Hs f Hin) as (m' & Hget & Hdev). exists m'.
        split; [exact Hget|]. apply in_or_app. now left.
      * rewrite (existsb_eqb_in _ _ Hin) in Ehere. discriminate Ehere.
  - exact Hs.
Qed.

Lemma prepare_each_covered ms (s : @Tst.Script Dev Ev W) :
  Tst.covered s -> Tst.covered (fst (Tst.prepare_each dev_open ms s)).
Proof.
  revert s. induction ms as [|m rest IH]; intros s Hs;
    cbn [Tst.prepare_each]; [exact Hs|].
  pose proof (prepare_covered m Hs) as H1.
  destruct (Tst.prepare dev_open m s) as [s1 [|]]; cbn [fst] in *.
  - now apply IH.
  - exact H1.
Qed.

Lemma to_run_spec r (d : list (Z * Dev)) acc :
  (forall f, In f r -> Tst.fd_get f d <> None) ->
  exists ids,
    Tst.to_run id r d acc = Some ids
    /\ forall i,
         In i ids <->
         In i acc
         \/ exists f m, In f r /\ Tst.fd_get f d = Some m /\ id m = i.
Proof.
  revert acc. induction r as [|f rest IH]; intros acc Hall; cbn [Tst.to_run].
  - exists acc. split; [reflexivity|]. intros i. split; [now left|].
    intros [Hi|(f & m & [] & _)]. exact Hi.
  - destruct (Tst.fd_get f d) as [m|] eqn:Eget.
    2:{ exfalso. apply (Hall f); [now left|exact Eget]. }
    destruct (IH (id m :: acc)) as (ids & Hrun & Hids).
    { intros g Hg. apply Hall. now right. }
    exists ids. split; [exact Hrun|]. intros i. rewrite Hids. split.
    + intros [[Hi|Hi]|(g & m' & Hg & Hget & Hi)].
      * right. exists f, m. repeat split; auto. now left.
      * now left.
      * right. exists g, m'. repeat split; auto. now right.
    + intros [Hi|(g & m' & [Hg|Hg] & Hget & Hi)].
      * left. now right.
      * subst g. left. left. congruence.
      * right. exists g, m'. now repeat split.
Qed.

(** X18: the lookup of a ready descriptor never fails: however far the
    calls of [prepare] got, every descriptor of [fds], and so every
    descriptor [select] can return, has in [fd_to_dev] a device of [devs];
    and [to_run] is then the identities of the devices that the ready
    descriptors lead to. *)
Theorem ready_descriptors_have_devices ms w r :
  let s := fst (Tst.prepare_each dev_open ms (Tst.start (Ev := Ev) w)) in
  incl r (Tst.fds s) ->
  (forall f, In f r ->
     exists m, Tst.fd_get f (Tst.fd_to_dev s) = Some m /\ In m (Tst.devs s))
  /\ exists ids,
       Tst.to_run id r (Tst.fd_to_dev s) [] = Some ids
       /\ forall i,
            In i ids <->
            exists f m,
              In f r /\ Tst.fd_get f (Tst.fd_to_dev s) = Some m /\ id m = i.
Proof.
  intros s Hr.
  assert (Hcov : Tst.covered s).
  { apply prepare_each_covered. intros f []. }
  split; [intros f Hf; apply Hcov, Hr, Hf|].
  destruct (to_run_spec r (Tst.fd_to_dev s) []) as (ids & Hrun & Hids).
  { intros f Hf. destruct (Hcov f (Hr f Hf)) as (m & -> & _). discriminate. }
  exists ids. split; [exact Hrun|]. intros i. rewrite Hids.
  split; [intros [[]|Hi]; exact Hi|now right].
Qed.

Lemma to_run_some r (d : list (Z * Dev)) acc ids :
  Tst.to_run id r d acc = Some ids ->
  forall i,
    In i ids <->
    In i acc \/ exists f m, In f r /\ Tst.fd_get f d = Some m /\ id m = i.
Proof.
  intros Hrun.
  assert (Hall : forall f, In f r -> Tst.fd_get f d <> None).
  { revert acc Hrun. induction r as [|f rest IH]; intros acc Hrun g Hg;
      [destruct Hg|]. cbn [Tst.to_run] in Hrun.
    destruct (Tst.fd_get f d) as [m|] eqn:Eget; [|discriminate Hrun].
    destruct Hg as [<-|Hg]; [congruence|]. exact (IH _ Hrun g Hg). }
  destruct (to_run_spec r d acc Hall) as (ids' & Hrun' & Hids).
  rewrite Hrun in Hrun'. injection Hrun' as <-. exact Hids.
Qed.

Lemma opens_did c w (s : @Tst.Script Dev Ev W) :
  Tst.opens (Tst.log (Tst.did c w s))
  = Tst.opens (Tst.log s)
      ++ match c with Tst.Opened m => [m] | _ => [] end.
Proof.
  unfold Tst.did, Tst.opens. cbn [Tst.log]. rewrite flat_map_app.
  cbn [flat_map]. now rewrite app_nil_r.
Qed.

Lemma closes_did c w (s : @Tst.Script Dev Ev W) :
  Tst.closes (Tst.log (Tst.did c w s))
  = Tst.closes (Tst.log s)
      ++ match c with Tst.Closed m => [m] | _ => [] end.
Proof.
  unfold Tst.did, Tst.closes. cbn [Tst.log]. rewrite flat_map_app.
  cbn [flat_map]. now rewrite app_nil_r.
Qed.

Lemma produces_did c w (s : @Tst.Script Dev Ev W) :
  Tst.produces (Tst.log (Tst.did c w s))
  = Tst.produces (Tst.log s)
      ++ match c with Tst.Produced m _ => [m] | _ => [] end.
Proof.
  unfold Tst.did, Tst.produces. cbn [Tst.log]. rewrite flat_map_app.
  cbn [flat_map]. now rewrite app_nil_r.
Qed.

Lemma same_devices_refl (s : @Tst.Script Dev Ev W) : Tst.same_devices s s.
Proof. now repeat split. Qed.

Lemma same_devices_trans (s1 s2 s3 : @Tst.Script Dev Ev W) :
  Tst.same_devices s1 s2 -> Tst.same_devices s2 s3 ->
  Tst.same_devices s1 s3.
Proof.
  intros (Hd & Ho & Hc) (Hd' & Ho' & Hc'). repeat split; congruence.
Qed.

Lemma same_devices_did c w (s : @Tst.Script Dev Ev W) :
  match c with Tst.Opened _ | Tst.Closed _ => False | _ => True end ->
  Tst.same_devices s (Tst.did c w s).
Proof.
  intros Hc. split; [reflexivity|]. rewrite opens_did, closes_did.
  destruct c; try destruct Hc; now rewrite !app_nil_r.
Qed.

Lemma produce_each_same ds ids r evs (s : @Tst.Script Dev Ev W) :
  Tst.same_devices s (fst (Tst.produce_each id dev_produce ds ids r evs s)).
Proof.
  revert evs s. induction ds as [|d rest IH]; intros evs s;
    cbn [Tst.produce_each]; [apply same_devices_refl|].
  destruct (existsb (Nat.eqb (id d)) ids); [|apply IH].
  destruct (dev_produce d r (Tst.world s)) as [w [new|]].
  - eapply same_devices_trans; [|apply IH]. now apply same_devices_did.
  - now apply same_devices_did.
Qed.

Lemma iteration_same p (s : @Tst.Script Dev Ev W) :
  Tst.same_devices s
    (fst (Tst.iteration id dev_produce dev_consume select p s)).
Proof.
  unfold Tst.iteration.
  destruct (select (Tst.fds s) (Tst.world s)) as [w r].
  cbn [Tst.fd_to_dev Tst.devs].
  destruct (Tst.to_run id r (Tst.fd_to_dev s) []) as [ids|];
    [|now repeat split].
  match goal with
  | |- context [Tst.produce_each _ _ _ _ _ _ ?x] =>
      pose proof (produce_each_same (Tst.devs s) ids r [] x) as Hp;
      destruct (Tst.produce_each id dev_produce (Tst.devs s) ids r [] x)
        as [s1 [evs|]]
  end; cbn [fst] in *.
  - destruct (dev_consume p evs (Tst.world s1)) as [w' done]. cbn [fst].
    eapply same_devices_trans; [|now apply same_devices_did].
    eapply same_devices_trans; [|exact Hp]. now repeat split.
  - eapply same_devices_trans; [|exact Hp]. now repeat split.
Qed.

Lemma iterate_same n p (s : @Tst.Script Dev Ev W) :
  Tst.same_devices s
    (fst (Tst.iterate id dev_produce dev_consume select n p s)).
Proof.
  revert s. induction n as [|n IH]; intros s; cbn [Tst.iterate];
    [apply same_devices_refl|].
  pose proof (iteration_same p s) as H1.
  destruct (Tst.iteration id dev_produce dev_consume select p s)
    as [s1 [|]]; cbn [fst] in *; [|exact H1].
  eapply same_devices_trans; [exact H1|apply IH].
Qed.

Lemma prepare_each_spec ms (s : @Tst.Script Dev Ev W) :
  exists j,
    Tst.devs (fst (Tst.prepare_each dev_open ms s))
    = Tst.devs s ++ firstn j ms
    /\ Tst.opens (Tst.log (fst (Tst.prepare_each dev_open ms s)))
       = Tst.opens (Tst.log s)
           ++ firstn (if snd (Tst.prepare_each dev_open ms s)
                      then j else S j) ms
    /\ Tst.closes (Tst.log (fst (Tst.prepare_each dev_open ms s)))
       = Tst.closes (Tst.log s).
Proof.
  revert s. induction ms as [|m rest IH]; intros s; cbn [Tst.prepare_each].
  - exists 0. cbn [fst snd firstn]. now rewrite !app_nil_r.
  - unfold Tst.prepare.
    destruct (dev_open m (Tst.world s)) as [w [fs|]].
    + match goal with
      | |- context [Tst.prepare_each dev_open rest ?x] =>
          destruct (IH x) as (j & Hd & Ho & Hc)
      end.
      exists (S j). rewrite Hd, Ho, Hc. cbn [Tst.devs Tst.log].
      rewrite opens_did, closes_did, app_nil_r.
      cbn [firstn]. split; [now rewrite <- app_assoc|].
      split; [|reflexivity].
      destruct (snd (Tst.prepare_each dev_open rest _));
        now rewrite <- app_assoc.
    + exists 0. cbn [fst snd firstn]. rewrite opens_did, closes_did.
      cbn [Tst.did Tst.devs]. now rewrite !app_nil_r.
Qed.

Lemma close_each_spec ds (s : @Tst.Script Dev Ev W) :
  exists k,
    Tst.devs (fst (Tst.close_each dev_close ds s)) = Tst.devs s
    /\ Tst.opens (Tst.log (fst (Tst.close_each dev_close ds s)))
       = Tst.opens (Tst.log s)
    /\ Tst.closes (Tst.log (fst (Tst.close_each dev_close ds s)))
       = Tst.closes (Tst.log s) ++ firstn k ds
    /\ ((forall m w, snd (dev_close m w) <> None) -> firstn k ds = ds).
Proof.
  revert s. induction ds as [|d rest IH]; intros s; cbn [Tst.close_each].
  - exists 0. cbn [fst firstn]. now rewrite app_nil_r.
  - destruct (dev_close d (Tst.world s)) as [w done] eqn:Eclose.
    destruct done as [u|].
    + destruct (IH (Tst.did (Tst.Closed d) w s)) as (k & Hd & Ho & Hc & Hall).
      exists (S k). rewrite Hd, Ho, Hc, opens_did, closes_did, app_nil_r.
      cbn [firstn Tst.did Tst.devs]. repeat split.
      * now rewrite <- app_assoc.
      * intros Hok. now rewrite (Hall Hok).
    + exists 1. cbn [fst firstn]. rewrite opens_did, closes_did, app_nil_r.
      cbn [Tst.did Tst.devs]. repeat split.
      intros Hok. exfalso. apply (Hok d (Tst.world s)).
      now rewrite Eclose.
Qed.

Lemma close_each_stops l1 m l2 (s : @Tst.Script Dev Ev W) :
  (forall q w', In q l1 -> snd (dev_close q w') <> None) ->
  (forall w', snd (dev_close m w') = None) ->
  snd (Tst.close_each dev_close (l1 ++ m :: l2) s) = false
  /\ Tst.log (fst (Tst.close_each dev_close (l1 ++ m :: l2) s))
     = Tst.log s ++ map (@Tst.Closed Dev Ev) (l1 ++ [m]).
Proof.
  intros Hok Hbad. revert s.
  induction l1 as [|q rest IH]; intros s; cbn [app Tst.close_each map].
  - pose proof (Hbad (Tst.world s)) as Hm.
    destruct (dev_close m (Tst.world s)) as [w done]. cbn [snd] in Hm.
    subst done. split; reflexivity.
  - pose proof (Hok q (Tst.world s) (or_introl eq_refl)) as Hq.
    destruct (dev_close q (Tst.world s)) as [w [u|]]; cbn [snd] in Hq;
      [|now contradiction Hq].
    destruct IH with (s := Tst.did (Tst.Closed q) w s) as (Hend & Hlog).
    { intros x w' Hx. apply Hok. now right. }
    split; [exact Hend|]. rewrite Hlog. cbn [Tst.did Tst.log].
    now rewrite <- app_assoc.
Qed.

Lemma closes_closed l : Tst.closes (map (@Tst.Closed Dev Ev) l) = l.
Proof.
  unfold Tst.closes. induction l as [|m r IH]; [reflexivity|].
  cbn [map flat_map app]. now rewrite IH.
Qed.

(** X19: [devs] is an initial part of the five devices, in the order of
    the calls of [prepare]; [open] was called on the devices of [devs], or
    on them and the next of the five, which then is not in [devs] and is
    not closed; the [finally] block closes devices of [devs] in that order,
    all of them when no [close] raises, and while the loop runs nothing is
    closed.  A [close] that raises ends the closing: when the [close] of
    [m] raises and those of the devices before [m] in [devs] return, the
    devices closed are those up to [m], and the devices after it stay
    open. *)
Theorem finally_closes_prepared a b c d p n w :
  let out :=
    Tst.run id dev_open dev_produce dev_consume dev_close select
      a b c d p n w in
  (exists j k,
     Tst.devs (fst out) = firstn j [a; b; c; d; p]
     /\ (Tst.opens (Tst.log (fst out)) = firstn j [a; b; c; d; p]
         \/ Tst.opens (Tst.log (fst out)) = firstn (S j) [a; b; c; d; p])
     /\ Tst.closes (Tst.log (fst out)) = firstn k (Tst.devs (fst out))
     /\ (snd out = true -> k = 0)
     /\ (snd out = false -> (forall m w, snd (dev_close m w) <> None) ->
         Tst.closes (Tst.log (fst out)) = Tst.devs (fst out)))
  /\ (forall l1 m l2,
        snd out = false ->
        Tst.devs (fst out) = l1 ++ m :: l2 ->
        (forall q w', In q l1 -> snd (dev_close q w') <> None) ->
        (forall w', snd (dev_close m w') = None) ->
        Tst.closes (Tst.log (fst out)) = l1 ++ [m]).
Proof.
  intros out. subst out. unfold Tst.run.
  destruct (prepare_each_spec [a; b; c; d; p] (Tst.start w))
    as (j & Hd & Ho & Hc).
  destruct (Tst.prepare_each dev_open [a; b; c; d; p] (Tst.start w))
    as [s ok]. cbn [fst snd Tst.start Tst.devs Tst.log app] in Hd, Ho, Hc.
  change (Tst.opens []) with (@nil Dev) in Ho.
  change (Tst.closes []) with (@nil Dev) in Hc. cbn [app] in Ho.
  assert (Hrun : exists s1 running,
             (if ok then Tst.iterate id dev_produce dev_consume select n p s
              else (s, false)) = (s1, running)
             /\ Tst.same_devices s s1).
  { destruct ok.
    - pose proof (iterate_same n p s) as Hsame.
      destruct (Tst.iterate id dev_produce dev_consume select n p s)
        as [s1 running]. now exists s1, running.
    - exists s, false. split; [reflexivity|apply same_devices_refl]. }
  destruct Hrun as (s1 & running & -> & Hd1 & Ho1 & Hc1).
  assert (Hopens : Tst.opens (Tst.log s1) = firstn j [a; b; c; d; p]
                   \/ Tst.opens (Tst.log s1) = firstn (S j) [a; b; c; d; p]).
  { rewrite Ho1, Ho. destruct ok; auto. }
  destruct running; cbn [fst snd].
  - split; [|discriminate].
    exists j, 0. rewrite Hd1, Hc1, Hc, Hd. cbn [firstn].
    repeat split; auto. discriminate.
  - destruct (close_each_spec (Tst.devs s1) s1)
      as (k & Hd2 & Ho2 & Hc2 & Hall).
    split.
    + exists j, k. rewrite Hd2, Ho2, Hc2, Hc1, Hc, Hd1, Hd. cbn [app].
      rewrite Hd1, Hd in Hall. repeat split; auto; try discriminate.
    + intros l1 m l2 _ Hsplit Hok Hbad. rewrite Hd2 in Hsplit.
      rewrite Hsplit.
      destruct (close_each_stops l1 m l2 s1 Hok Hbad) as (_ & Hlog).
      rewrite Hlog. unfold Tst.closes in *. rewrite flat_map_app, Hc1, Hc.
      apply closes_closed.
Qed.

Lemma produce_each_order ds ids r evs (s : @Tst.Script Dev Ev W) :
  exists k,
    Tst.produces
      (Tst.log (fst (Tst.produce_each id dev_produce ds ids r evs s)))
    = Tst.produces (Tst.log s)
        ++ firstn k (filter (fun d => existsb (Nat.eqb (id d)) ids) ds)
    /\ (snd (Tst.produce_each id dev_produce ds ids r evs s) <> None ->
        firstn k (filter (fun d => existsb (Nat.eqb (id d)) ids) ds)
        = filter (fun d => existsb (Nat.eqb (id d)) ids) ds).
Proof.
  revert evs s. induction ds as [|d rest IH]; intros evs s;
    cbn [Tst.produce_each filter].
  - exists 0. cbn [fst firstn]. now rewrite app_nil_r.
  - destruct (existsb (Nat.eqb (id d)) ids); [|apply IH].
    destruct (dev_produce d r (Tst.world s)) as [w [new|]].
    + destruct (IH (evs ++ new) (Tst.did (Tst.Produced d r) w s))
        as (k & Hp & Hall).
      exists (S k). rewrite Hp, produces_did. cbn [firstn].
      split; [now rewrite <- app_assoc|].
      intros Hok. now rewrite (Hall Hok).
    + exists 1. cbn [fst snd firstn]. rewrite produces_did.
      split; [reflexivity|]. intros Hok. now contradiction Hok.
Qed.

Lemma selected_is_ready (s : @Tst.Script Dev Ev W) r ids d :
  Tst.to_run id r (Tst.fd_to_dev s) [] = Some ids ->
  existsb (Nat.eqb (id d)) ids = Tst.ready id s r d.
Proof.
  intros Hrun. pose proof (to_run_some _ _ _ Hrun) as Hids.
  apply eq_iff_eq_true. unfold Tst.ready. rewrite !existsb_exists. split.
  - intros (i & Hi & Heq). apply Nat.eqb_eq in Heq. subst i.
    apply Hids in Hi. destruct Hi as [[]|(f & m & Hf & Hget & Hm)].
    exists f. split; [exact Hf|]. rewrite Hget. apply Nat.eqb_eq.
    now symmetry.
  - intros (f & Hf & Hm).
    destruct (Tst.fd_get f (Tst.fd_to_dev s)) as [m|] eqn:Hget;
      [|discriminate Hm].
    apply Nat.eqb_eq in Hm. exists (id d). split; [|apply Nat.eqb_refl].
    apply Hids. right. exists f, m. now repeat split.
Qed.

Lemma produce_each_stops ids r m l2 ds l1 evs (s : @Tst.Script Dev Ev W) :
  filter (fun d => existsb (Nat.eqb (id d)) ids) ds = l1 ++ m :: l2 ->
  (forall q r' w', In q l1 -> snd (dev_produce q r' w') <> None) ->
  (forall r' w', snd (dev_produce m r' w') = None) ->
  snd (Tst.produce_each id dev_produce ds ids r evs s) = None
  /\ Tst.log (fst (Tst.produce_each id dev_produce ds ids r evs s))
     = Tst.log s ++ map (fun d => Tst.Produced d r) (l1 ++ [m]).
Proof.
  intros Hsplit Hok Hbad. revert l1 evs s Hsplit Hok.
  induction ds as [|d rest IH]; intros l1 evs s Hsplit Hok;
    cbn [filter Tst.produce_each] in *.
  - now destruct l1.
  - destruct (existsb (Nat.eqb (id d)) ids); [|now apply IH].
    destruct l1 as [|q l1]; cbn [app] in Hsplit;
      injection Hsplit as -> Hrest.
    + pose proof (Hbad r (Tst.world s)) as Hm.
      destruct (dev_produce m r (Tst.world s)) as [w out].
      cbn [snd] in Hm. subst out. split; reflexivity.
    + pose proof (Hok q r (Tst.world s) (or_introl eq_refl)) as Hq.
      destruct (dev_produce q r (Tst.world s)) as [w [new|]];
        cbn [snd] in Hq; [|now contradiction Hq].
      destruct (IH l1 (evs ++ new) (Tst.did (Tst.Produced q r) w s) Hrest)
        as (Hend & Hlog).
      { intros x r' w' Hx. apply Hok. now right. }
      split; [exact Hend|]. rewrite Hlog. cbn [Tst.did Tst.log map app].
      now rewrite <- app_assoc.
Qed.

(** X20: in a turn of the loop the devices asked to produce are those of
    [devs] that a ready descriptor leads to, by identity, each once however
    many of its descriptors are ready, in the order of [prepare] and not in
    the order the descriptors came in; a turn that ends normally asked all
    of them.  A [produce] that raises ends the turn: when the lookups
    succeed, the [produce] of [m] raises and those of the ready devices
    before [m] return, the turn raises and all it did is to ask the ready
    devices up to [m]; no device after [m] is asked and nothing is
    consumed. *)
Theorem ready_devices_produce_in_order p (s : @Tst.Script Dev Ev W) :
  let r := snd (select (Tst.fds s) (Tst.world s)) in
  let out := Tst.iteration id dev_produce dev_consume select p s in
  (exists k,
     Tst.produces (Tst.log (fst out))
     = Tst.produces (Tst.log s)
         ++ firstn k (filter (Tst.ready id s r) (Tst.devs s))
     /\ (snd out = true ->
         firstn k (filter (Tst.ready id s r) (Tst.devs s))
         = filter (Tst.ready id s r) (Tst.devs s)))
  /\ (forall l1 m l2,
        filter (Tst.ready id s r) (Tst.devs s) = l1 ++ m :: l2 ->
        Tst.to_run id r (Tst.fd_to_dev s) [] <> None ->
        (forall q r' w', In q l1 -> snd (dev_produce q r' w') <> None) ->
        (forall r' w', snd (dev_produce m r' w') = None) ->
        snd out = false
        /\ Tst.log (fst out)
           = Tst.log s ++ map (fun d => Tst.Produced d r) (l1 ++ [m])).
Proof.
  intros r out. subst r out. unfold Tst.iteration.
  destruct (select (Tst.fds s) (Tst.world s)) as [w r]. cbn [snd].
  cbn [Tst.fd_to_dev Tst.devs].
  destruct (Tst.to_run id r (Tst.fd_to_dev s) []) as [ids|] eqn:Erun.
  2:{ split.
      - exists 0. cbn [fst snd firstn Tst.log]. rewrite app_nil_r.
        split; [reflexivity|discriminate].
      - intros l1 m l2 _ Hfound. now contradiction Hfound. }
  assert (Hsel : filter (fun d => existsb (Nat.eqb (id d)) ids) (Tst.devs s)
                 = filter (Tst.ready id s r) (Tst.devs s)).
  { apply filter_ext. intros d. exact (selected_is_ready s r d Erun). }
  split.
  - match goal with
    | |- context [Tst.produce_each _ _ _ _ _ _ ?x] =>
        destruct (produce_each_order (Tst.devs s) ids r [] x)
          as (k & Hp & Hall);
        destruct (Tst.produce_each id dev_produce (Tst.devs s) ids r [] x)
          as [s1 [evs|]]
    end; cbn [fst snd Tst.log] in Hp, Hall; rewrite Hsel in Hp, Hall;
      exists k.
    + destruct (dev_consume p evs (Tst.world s1)) as [w' done].
      cbn [fst snd]. rewrite produces_did, app_nil_r.
      split; [exact Hp|]. intros _. apply Hall. discriminate.
    + cbn [fst snd]. split; [exact Hp|discriminate].
  - intros l1 m l2 Hsplit _ Hok Hbad. rewrite <- Hsel in Hsplit.
    match goal with
    | |- context [Tst.produce_each _ _ _ _ _ _ ?x] =>
        destruct (@produce_each_stops ids r m l2 (Tst.devs s) l1 [] x Hsplit
                    Hok Hbad)
          as (Hend & Hlog);
        destruct (Tst.produce_each id dev_produce (Tst.devs s) ids r [] x)
          as [s1 out]
    end.
    cbn [fst snd Tst.log] in Hend, Hlog. subst out. now split.
Qed.

End TstFacts.

Lemma ready_descriptors_have_devices_witness :
  exists ids,
    Tst.to_run (fun m : nat => m) [2%Z; 1%Z]
      (Tst.fd_to_dev Tst.sample_start) [] = Some ids.
Proof.
  destruct (@ready_descriptors_have_devices nat nat unit (fun m => m)
              Tst.sample_open [1; 2; 3] tt [2%Z; 1%Z]) as (_ & ids & Hrun & _).
  - intros f [<-|[<-|[]]]; vm_compute; auto.
  - exists ids. exact Hrun.
Defined.

(* ------------------------------------------------------------------ *)
(** ** Calls that raise, on concrete plugins and devices *)

Lemma plugin_calls_stop_at_failure_witness :
  let s := @init_state Sample.failing Sample.empty_disk in
  exists s',
    @generation Sample.failing [Sample.broken; Sample.p10] Sample.idle s
    = Raised (PluginFailure Sample.broken) s'
    /\ runs (trace s') = [CPrepare Sample.p10; CPrepare Sample.broken].
Proof.
  intros s.
  refine (proj1 (proj2 (@plugin_calls_stop_at_failure Sample.failing
                          [Sample.broken; Sample.p10] Sample.idle s))
            [Sample.p10] Sample.broken []
            (final (@before_plugins Sample.failing
                      [Sample.broken; Sample.p10] s))
            eq_refl _ _ _).
  - intros q c w [<-|[]]. vm_compute. discriminate.
  - reflexivity.
  - vm_compute. reflexivity.
Defined.

Lemma plugins_open_in_sorted_order_witness :
  let r := @main Sample.failing true
             [("provider", [Sample.p5; Sample.locked; Sample.good])]
             [Sample.idle] Sample.empty_disk in
  opened (trace (snd r)) = [Sample.good; Sample.locked]
  /\ fst r = Escaped (PluginFailure Sample.locked).
Proof.
  intros r.
  destruct (proj2 (@plugins_open_in_sorted_order Sample.failing
                     [("provider", [Sample.p5; Sample.locked; Sample.good])]
                     [Sample.idle] Sample.empty_disk)
              [Sample.good] Sample.locked [Sample.p5] eq_refl)
    as (Hopened & _ & _ & Hexit).
  - intros q w' [<-|[]]. vm_compute. discriminate.
  - reflexivity.
  - split; [exact Hopened|]. apply Hexit.
    + intros q w' [<-|[<-|[<-|[]]]]; vm_compute; discriminate.
    + reflexivity.
Defined.

Lemma finally_closes_prepared_witness :
  Tst.closes
    (Tst.log
       (fst (Tst.run (fun m : nat => m) Tst.sample_open Tst.sample_produce
               Tst.sample_consume Tst.sample_close Tst.sample_select
               1 2 3 4 5 1 tt)))
  = [1; 2].
Proof.
  refine (proj2 (@finally_closes_prepared nat nat unit (fun m => m)
                   Tst.sample_open Tst.sample_produce Tst.sample_consume
                   Tst.sample_close Tst.sample_select 1 2 3 4 5 1 tt)
            [1] 2 [3; 4; 5] _ _ _ _).
  - vm_compute. reflexivity.
  - vm_compute. reflexivity.
  - intros q w' [<-|[]]. vm_compute. discriminate.
  - reflexivity.
Defined.

Lemma ready_devices_produce_in_order_witness :
  Tst.produces
    (Tst.log
       (fst (Tst.iteration (fun m : nat => m) Tst.sample_produce
               Tst.sample_consume Tst.sample_select 3 Tst.sample_start)))
  = [1; 2].
Proof.
  destruct (proj2 (@ready_devices_produce_in_order nat nat unit
                     (fun m => m) Tst.sample_produce Tst.sample_consume
                     Tst.sample_select 3 Tst.sample_start)
              [1] 2 [3]) as (_ & Hlog).
  - vm_compute. reflexivity.
  - vm_compute. discriminate.
  - intros q r' w' [<-|[]]. vm_compute. discriminate.
  - reflexivity.
  - rewrite Hlog. vm_compute. reflexivity.
Defined.
